(** * rbxmesh: the Roblox mesh codec, embedded and checked against its specification

    The development follows [mesh.go]: the pieces of the Go standard library
    the codec calls come first, each in a module named after its package;
    then [readReporter], the data model, [WriteTo] and [ReadFrom]; then the
    definitions the properties are stated with; and last the proofs: the
    claims of the specification, C1 to C10, and after them further
    properties of the codec, X1 to X28.

    Conventions.
    - A Go [int] is 64 bits wide and is kept as a [Z]; conversions to
      [uint32], [uint16], [byte] and [int64] are written out with their
      wrap-around.
    - A [float64] is a [spec_float] of the Standard Library used at precision
      53 and maximal exponent 1024, a [float32] one at precision 24 and
      maximal exponent 128.  As in that library a NaN carries no payload.
    - A byte slice is a [list byte]; a Go string is compared through its
      bytes.
    - The input of a decoder is a reader over bytes held in memory, the
      output of an encoder a writer that takes every byte or one that fails
      after a given number of bytes.
    - A function returns the state it leaves behind next to its results: the
      reader, the writer, the mesh.
    - Allocation is taken to succeed: running out of memory, and the panic
      of [make] on a length that can never be allocated, are outside the
      model. *)

From Stdlib Require Import String Ascii ZArith List Bool Lia SpecFloat.
From Stdlib.Strings Require Import Byte.
From Stdlib Require Import Permutation.
Import ListNotations.

Local Open Scope Z_scope.

(** ** Bytes and fixed-width integers *)

Definition bytes := list byte.

Definition byte_of_Z (z : Z) : byte :=
  match Byte.of_N (Z.to_N (z mod 256)) with
  | Some b => b
  | None => x00
  end.

Definition Z_of_byte (b : byte) : Z := Z.of_N (Byte.to_N b).

Definition len {A : Type} (l : list A) : Z := Z.of_nat (length l).

Definition int64 (z : Z) : Z := (z + 2 ^ 63) mod 2 ^ 64 - 2 ^ 63.
Definition uint32 (z : Z) : Z := z mod 2 ^ 32.
Definition uint16 (z : Z) : Z := z mod 2 ^ 16.

Definition maxInt64 : Z := 2 ^ 63 - 1.

Fixpoint bytes_eqb (a b : bytes) : bool :=
  match a, b with
  | [], [] => true
  | x :: a', y :: b' => Byte.eqb x y && bytes_eqb a' b'
  | _, _ => false
  end.

(** [store b off p] is Go's [copy(b[off:], p)] for a [p] that fits. *)
Fixpoint store (b : bytes) (off : nat) (p : bytes) : bytes :=
  match off, b with
  | O, _ =>
      match p, b with
      | x :: p', _ :: b' => x :: store b' O p'
      | _, _ => b
      end
  | S off', y :: b' => y :: store b' off' p
  | S _, [] => []
  end.

(** [slice b lo hi] is Go's [b[lo:hi]]. *)
Definition slice (b : bytes) (lo hi : nat) : bytes := firstn (hi - lo) (skipn lo b).

(** ** package errors *)

Module errors.
Inductive error : Type := New (msg : string).

Definition eqb (a b : error) : bool :=
  match a, b with New x, New y => String.eqb x y end.
End errors.

Definition error : Type := errors.error.

(** ** package io *)

Module io.
Definition EOF : error := errors.New "EOF".
Definition ErrUnexpectedEOF : error := errors.New "unexpected EOF".
Definition ErrShortWrite : error := errors.New "short write".
Definition ErrNoProgress : error :=
  errors.New "multiple Read calls return no data or error".

(** An [io.Writer].  [room = None] is a sink that takes everything (a
    [bytes.Buffer]); [room = Some k] is a sink that takes [k] more bytes
    and then fails with a short write. *)
Record Writer : Type := { out : bytes; room : option nat }.

Definition Write (w : Writer) (p : bytes) : Writer * Z * option error :=
  match room w with
  | None => ({| out := out w ++ p; room := None |}, len p, None)
  | Some k =>
      if (length p <=? k)%nat
      then ({| out := out w ++ p; room := Some (k - length p)%nat |}, len p, None)
      else ({| out := out w ++ firstn k p; room := Some O |},
            Z.of_nat k, Some ErrShortWrite)
  end.

(** An [io.Reader] over bytes held in memory (a [bytes.Reader]): a read of
    up to [n] bytes hands over what is left, and reports [EOF] once nothing
    is. *)
Definition Reader : Type := bytes.

Definition Read (r : Reader) (n : nat) : bytes * option error * Reader :=
  match r with
  | [] => ([], Some EOF, [])
  | _ => (firstn n r, None, skipn n r)
  end.
End io.

(** ** package math and the floating-point conversions of the language *)

Module math.
Definition float64 : Type := spec_float.
Definition float32 : Type := spec_float.

Definition sub (x y : float64) : float64 := SFsub 53 1024 x y.
Definition mul (x y : float64) : float64 := SFmul 53 1024 x y.
Definition eqb (x y : float64) : bool := SFeqb x y.

Definition zero : float64 := S754_zero false.
Definition one : float64 := binary_round 53 1024 false 1 0.
Definition two : float64 := binary_round 53 1024 false 1 1.
Definition half : float64 := binary_round 53 1024 false 1 (-1).

(** The conversion [float32(x)]: round to nearest, ties to even. *)
Definition to_float32 (x : float64) : float32 :=
  match x with
  | S754_finite s m e => binary_round 24 128 s m e
  | _ => x
  end.

(** The conversion [float64(x)]: exact. *)
Definition to_float64 (x : float32) : float64 :=
  match x with
  | S754_finite s m e => binary_round 53 1024 s m e
  | _ => x
  end.

Definition signbit (s : bool) : Z := if s then 2 ^ 31 else 0.

Definition Float32bits (x : float32) : Z :=
  match x with
  | S754_zero s => signbit s
  | S754_infinity s => Z.lor (signbit s) 2139095040
  | S754_nan => 2143289344
  | S754_finite s m e =>
      if 2 ^ 23 <=? Zpos m
      then Z.lor (signbit s) (Z.lor (Z.shiftl (e + 150) 23) (Zpos m - 2 ^ 23))
      else Z.lor (signbit s) (Zpos m)
  end.

Definition Float32frombits (u : Z) : float32 :=
  let s := Z.testbit u 31 in
  let e := Z.land (Z.shiftr u 23) 255 in
  let f := Z.land u (2 ^ 23 - 1) in
  if e =? 0 then
    (if f =? 0 then S754_zero s else S754_finite s (Z.to_pos f) (-149))
  else if e =? 255 then
    (if f =? 0 then S754_infinity s else S754_nan)
  else S754_finite s (Z.to_pos (f + 2 ^ 23)) (e - 150).
End math.

(** ** package strconv *)

Module strconv.
Definition digits : bytes :=
  list_byte_of_string "0123456789abcdefghijklmnopqrstuvwxyz".

Definition digit (d : Z) : byte := nth (Z.to_nat d) digits x00.

(** The digit loop of [formatBits]: least significant digit first, written
    from the end of the buffer. *)
Fixpoint formatBits (fuel : nat) (u base : Z) (acc : bytes) : bytes :=
  match fuel with
  | O => acc
  | S fuel' =>
      if u <? base then digit u :: acc
      else formatBits fuel' (u / base) base (digit (u mod base) :: acc)
  end.

Definition FormatUint (u : Z) (base : Z) : bytes :=
  formatBits (S (Z.to_nat (Z.log2 u))) u base [].

Definition AppendUint (dst : bytes) (i : Z) (base : Z) : bytes :=
  dst ++ FormatUint i base.

Definition ErrSyntax : error := errors.New "invalid syntax".
Definition ErrRange : error := errors.New "value out of range".

Definition isDigit (c : byte) : bool :=
  (Z_of_byte "0" <=? Z_of_byte c) && (Z_of_byte c <=? Z_of_byte "9").

(** The digit loop shared by [Atoi]'s fast path and [ParseUint]: [None] at
    the first byte that is no decimal digit. *)
Fixpoint parseDigits (s : bytes) (acc : Z) : option Z :=
  match s with
  | [] => Some acc
  | c :: s' =>
      if isDigit c then parseDigits s' (acc * 10 + (Z_of_byte c - Z_of_byte "0"))
      else None
  end.

Definition Atoi (s : bytes) : Z * option error :=
  let '(neg, body) :=
    match s with
    | c :: s' =>
        if Byte.eqb c "-" then (true, s')
        else if Byte.eqb c "+" then (false, s') else (false, s)
    | [] => (false, [])
    end in
  match body with
  | [] => (0, Some ErrSyntax)
  | _ =>
      match parseDigits body 0 with
      | None => (0, Some ErrSyntax)
      | Some un =>
          if negb neg && (2 ^ 63 <=? un) then (maxInt64, Some ErrRange)
          else if neg && (2 ^ 63 <? un) then (- 2 ^ 63, Some ErrRange)
          else (if neg then - un else un, None)
      end
  end.

(** *** [ParseFloat], for decimal literals

    The value is the literal's, rounded to nearest with ties to even; only
    an overflow is a range error.  Literals with underscores or with a
    hexadecimal mantissa are not covered and are reported as a syntax
    error. *)

Definition lower (c : byte) : byte :=
  if (Z_of_byte "A" <=? Z_of_byte c) && (Z_of_byte c <=? Z_of_byte "Z")
  then byte_of_Z (Z_of_byte c + 32) else c.

Definition special (s : bytes) : option math.float64 :=
  let l := map lower s in
  if bytes_eqb l (list_byte_of_string "nan") then Some S754_nan
  else
    let '(neg, body) :=
      match l with
      | c :: l' =>
          if Byte.eqb c "-" then (true, l')
          else if Byte.eqb c "+" then (false, l') else (false, l)
      | [] => (false, [])
      end in
    if bytes_eqb body (list_byte_of_string "inf")
       || bytes_eqb body (list_byte_of_string "infinity")
    then Some (S754_infinity neg) else None.

(** Mantissa digits with at most one point: the digits read as an integer,
    minus the number of digits after the point, and what follows. *)
Fixpoint readMantissa (s : bytes) (sawdot sawdigits : bool) (mant dp : Z)
  : option (Z * Z * bytes) :=
  match s with
  | c :: s' =>
      if Byte.eqb c "." && negb sawdot then readMantissa s' true sawdigits mant dp
      else if isDigit c then
        readMantissa s' sawdot true (mant * 10 + (Z_of_byte c - Z_of_byte "0"))
                     (if sawdot then dp - 1 else dp)
      else if sawdigits then Some (mant, dp, s) else None
  | [] => if sawdigits then Some (mant, dp, []) else None
  end.

Fixpoint readExponent (s : bytes) (e : Z) : option Z :=
  match s with
  | [] => Some e
  | c :: s' =>
      if isDigit c
      then readExponent s' (if e <? 10000 then e * 10 + (Z_of_byte c - Z_of_byte "0") else e)
      else None
  end.

Definition decimalValue (neg : bool) (mant exp10 : Z) : math.float64 :=
  match mant with
  | Zpos m =>
      if 0 <=? exp10 then binary_round 53 1024 neg (m * Z.to_pos (10 ^ exp10)) 0
      else SFdiv 53 1024 (S754_finite neg m 0)
                 (S754_finite false (Z.to_pos (10 ^ (- exp10))) 0)
  | _ => S754_zero neg
  end.

Definition ParseFloat (s : bytes) : math.float64 * option error :=
  match special s with
  | Some f => (f, None)
  | None =>
      let '(neg, body) :=
        match s with
        | c :: s' =>
            if Byte.eqb c "-" then (true, s')
            else if Byte.eqb c "+" then (false, s') else (false, s)
        | [] => (false, [])
        end in
      match readMantissa body false false 0 0 with
      | None => (math.zero, Some ErrSyntax)
      | Some (mant, dp, rest) =>
          let exp10 :=
            match rest with
            | [] => Some dp
            | c :: rest' =>
                if Byte.eqb (lower c) "e" then
                  let '(eneg, ds) :=
                    match rest' with
                    | d :: ds' =>
                        if Byte.eqb d "-" then (true, ds')
                        else if Byte.eqb d "+" then (false, ds') else (false, rest')
                    | [] => (false, [])
                    end in
                  match ds with
                  | [] => None
                  | _ =>
                      match readExponent ds 0 with
                      | Some e => Some (dp + (if eneg then - e else e))
                      | None => None
                      end
                  end
                else None
            end in
          match exp10 with
          | None => (math.zero, Some ErrSyntax)
          | Some x =>
              match decimalValue neg mant x with
              | S754_infinity sg => (S754_infinity sg, Some ErrRange)
              | f => (f, None)
              end
          end
      end
  end.
End strconv.

(** ** package encoding/binary, little endian *)

Module binary.
Definition Uint16 (b : bytes) : Z :=
  Z.lor (Z_of_byte (nth 0 b x00)) (Z.shiftl (Z_of_byte (nth 1 b x00)) 8).

Definition Uint32 (b : bytes) : Z :=
  Z.lor (Z.lor (Z_of_byte (nth 0 b x00)) (Z.shiftl (Z_of_byte (nth 1 b x00)) 8))
        (Z.lor (Z.shiftl (Z_of_byte (nth 2 b x00)) 16)
               (Z.shiftl (Z_of_byte (nth 3 b x00)) 24)).

Definition PutUint16 (v : Z) : bytes :=
  [byte_of_Z v; byte_of_Z (Z.shiftr v 8)].

Definition PutUint32 (v : Z) : bytes :=
  [byte_of_Z v; byte_of_Z (Z.shiftr v 8);
   byte_of_Z (Z.shiftr v 16); byte_of_Z (Z.shiftr v 24)].
End binary.

(** ** [readReporter] *)

Module readReporter.
Record t : Type := { r : io.Reader; n : Z }.

Definition Read (rr : t) (plen : nat) : bytes * option error * t :=
  let '(p, err, r') := io.Read (r rr) plen in
  (p, err, {| r := r'; n := int64 (n rr + len p) |}).

Definition BytesRead (rr : t) : Z := n rr.
End readReporter.

(** ** package bufio, over a [readReporter] *)

Module bufio.
Definition defaultBufSize : nat := 4096.
Definition maxConsecutiveEmptyReads : nat := 100.
Definition ErrBufferFull : error := errors.New "bufio: buffer full".

(** [buf] holds the unread part [b.buf[b.r:b.w]] of the buffer, [err] the
    pending error of the last read. *)
Record Reader : Type := {
  buf : bytes;
  rd : readReporter.t;
  err : option error
}.

Definition NewReader (rd : readReporter.t) : Reader :=
  {| buf := []; rd := rd; err := None |}.

Definition Buffered (b : Reader) : nat := length (buf b).

Fixpoint fillLoop (i : nat) (b : Reader) : Reader :=
  match i with
  | O => {| buf := buf b; rd := rd b; err := Some io.ErrNoProgress |}
  | S i' =>
      let '(p, e, rd') := readReporter.Read (rd b) (defaultBufSize - Buffered b) in
      let b' := {| buf := buf b ++ p; rd := rd'; err := err b |} in
      match e with
      | Some _ => {| buf := buf b'; rd := rd'; err := e |}
      | None => if (0 <? length p)%nat then b' else fillLoop i' b'
      end
  end.

Definition fill (b : Reader) : Reader := fillLoop maxConsecutiveEmptyReads b.

Fixpoint IndexByte (s : bytes) (c : byte) : option nat :=
  match s with
  | [] => None
  | x :: s' =>
      if Byte.eqb x c then Some O
      else match IndexByte s' c with Some i => Some (S i) | None => None end
  end.

(** The loop of [ReadSlice].  Every pass that does not return fills the
    buffer, which either adds a byte or leaves an error behind, so
    [defaultBufSize + 2] passes are enough ([ReadSlice_fuel]). *)
Fixpoint ReadSliceLoop (fuel : nat) (b : Reader) (delim : byte)
  : bytes * option error * Reader :=
  match IndexByte (buf b) delim with
  | Some i =>
      (firstn (S i) (buf b), None,
       {| buf := skipn (S i) (buf b); rd := rd b; err := err b |})
  | None =>
      match err b with
      | Some e => (buf b, Some e, {| buf := []; rd := rd b; err := None |})
      | None =>
          if (defaultBufSize <=? Buffered b)%nat
          then (buf b, Some ErrBufferFull, {| buf := []; rd := rd b; err := None |})
          else
            match fuel with
            | O => (buf b, Some io.ErrNoProgress, b)
            | S fuel' => ReadSliceLoop fuel' (fill b) delim
            end
      end
  end.

Definition ReadSlice (b : Reader) (delim : byte) : bytes * option error * Reader :=
  ReadSliceLoop (S (S defaultBufSize)) b delim.

Definition isErr (e : option error) (x : error) : bool :=
  match e with Some y => errors.eqb y x | None => false end.

(** The end of [ReadLine]: a final newline is dropped, with the carriage
    return before it if there is one. *)
Definition dropEOL (line : bytes) : bytes :=
  match rev line with
  | x0a :: x0d :: front => rev front
  | x0a :: front => rev front
  | _ => line
  end.

Definition ReadLine (b : Reader) : bytes * bool * option error * Reader :=
  let '(line, e, b) := ReadSlice b x0a in
  if isErr e ErrBufferFull then
    match rev line with
    | x0d :: front =>
        (rev front, true, None, {| buf := x0d :: buf b; rd := rd b; err := err b |})
    | _ => (line, true, None, b)
    end
  else
    match line with
    | [] => ([], false, e, b)
    | _ => (dropEOL line, false, None, b)
    end.

Definition Read (b : Reader) (plen : nat) : bytes * option error * Reader :=
  match plen with
  | O =>
      match buf b with
      | [] => ([], err b, {| buf := []; rd := rd b; err := None |})
      | _ => ([], None, b)
      end
  | S _ =>
      match buf b with
      | [] =>
          match err b with
          | Some e => ([], Some e, {| buf := []; rd := rd b; err := None |})
          | None =>
              if (defaultBufSize <=? plen)%nat then
                let '(p, e, rd') := readReporter.Read (rd b) plen in
                (p, e, {| buf := []; rd := rd'; err := None |})
              else
                let '(p, e, rd') := readReporter.Read (rd b) defaultBufSize in
                match p with
                | [] => ([], e, {| buf := []; rd := rd'; err := None |})
                | _ => (firstn plen p, None, {| buf := skipn plen p; rd := rd'; err := e |})
                end
          end
      | _ =>
          (firstn plen (buf b), None,
           {| buf := skipn plen (buf b); rd := rd b; err := err b |})
      end
  end.

(** [ReadRune] and [UnreadRune] with every byte read as one rune, which is
    what they do on ASCII input. *)
Definition ReadRune (b : Reader) : option byte * option error * Reader :=
  let b :=
    match buf b, err b with
    | [], None => fill b
    | _, _ => b
    end in
  match buf b with
  | [] => (None, err b, {| buf := []; rd := rd b; err := None |})
  | c :: rest => (Some c, None, {| buf := rest; rd := rd b; err := err b |})
  end.

Definition UnreadRune (b : Reader) (c : byte) : Reader :=
  {| buf := c :: buf b; rd := rd b; err := err b |}.

(** The bytes that are still to come: buffered or not yet read. *)
Definition pending (b : Reader) : nat :=
  (length (buf b) + length (readReporter.r (rd b)))%nat.
End bufio.

(** ** package fmt *)

Module fmt.
Definition str (s : string) : bytes := list_byte_of_string s.

Definition decimal (n : Z) : bytes :=
  strconv.formatBits (S (Z.to_nat (Z.log2 n))) n 10 [].

Definition roundHalfEven (num den : Z) : Z :=
  let q := num / den in
  match 2 * (num mod den) ?= den with
  | Lt => q
  | Gt => q + 1
  | Eq => if Z.even q then q else q + 1
  end.

(** The verb [%f] on a [float32]: the exact value with six digits after
    the point, ties to even; no sign on a positive number; [NaN], [+Inf]
    and [-Inf] as words. *)
Definition fmtFloat (x : math.float32) : bytes :=
  match x with
  | S754_nan => str "NaN"
  | S754_infinity s => str (if s then "-Inf" else "+Inf")
  | S754_zero s => str (if s then "-0.000000" else "0.000000")
  | S754_finite s m e =>
      let scaled :=
        if 0 <=? e then Zpos m * 2 ^ e * 10 ^ 6
        else roundHalfEven (Zpos m * 10 ^ 6) (2 ^ (- e)) in
      (if s then str "-" else []) ++ decimal (scaled / 10 ^ 6) ++ str "."
        ++ tl (decimal (10 ^ 6 + scaled mod 10 ^ 6))
  end.

Definition triple (a b c : math.float32) : bytes :=
  str "[" ++ fmtFloat a ++ str "," ++ fmtFloat b ++ str "," ++ fmtFloat c ++ str "]".

(** [Sprintf "[%f,%f,%f][%f,%f,%f][%f,%f,%f]"] on nine [float32]. *)
Definition Sprintf (p n t : math.float32 * math.float32 * math.float32) : bytes :=
  let '(p0, p1, p2) := p in
  let '(n0, n1, n2) := n in
  let '(t0, t1, t2) := t in
  triple p0 p1 p2 ++ triple n0 n1 n2 ++ triple t0 t1 t2.

(** [Fprintf] formats and hands the bytes to the writer in one [Write]. *)
Definition Fprintf (w : io.Writer) (p n t : math.float32 * math.float32 * math.float32)
  : io.Writer * Z * option error :=
  io.Write w (Sprintf p n t).

(** *** Scanning

    The scan state [ss] of package fmt over a [bufio.Reader]: the reader
    and the [atEOF] flag.  An operation returns a value or the error the
    scan stops with.  The two loops that read runes take one more pass than
    there are bytes to come, which is enough ([SkipSpaceLoop_fuel],
    [acceptLoop_fuel]). *)
Definition ss (A : Type) : Type :=
  bufio.Reader * bool -> (A + error) * (bufio.Reader * bool).

Definition ret {A : Type} (a : A) : ss A := fun st => (inl a, st).
Definition fail {A : Type} (e : error) : ss A := fun st => (inr e, st).
Definition bind {A B : Type} (m : ss A) (k : A -> ss B) : ss B :=
  fun st =>
    match m st with
    | (inl a, st') => k a st'
    | (inr e, st') => (inr e, st')
    end.

Notation "x <- m ;; k" := (bind m (fun x => k))
  (at level 61, m at next level, right associativity).
Notation "' p <- m ;; k" := (bind m (fun p => k))
  (at level 61, p pattern, m at next level, right associativity).

(** [getRune]: [None] is the rune [eof]. *)
Definition getRune : ss (option byte) :=
  fun '(b, atEOF) =>
    if (atEOF : bool) then (inl None, (b, true))
    else
      match bufio.ReadRune b with
      | (Some c, _, b') => (inl (Some c), (b', false))
      | (None, Some e, b') =>
          if errors.eqb e io.EOF then (inl None, (b', true)) else (inr e, (b', false))
      | (None, None, b') => (inl None, (b', true))
      end.

Definition UnreadRune (c : byte) : ss unit :=
  fun '(b, _) => (inl tt, (bufio.UnreadRune b c, false)).

Definition mustReadRune : ss byte :=
  r <- getRune ;;
  match r with
  | None => fail io.ErrUnexpectedEOF
  | Some c => ret c
  end.

Definition isSpace (c : byte) : bool :=
  ((9 <=? Z_of_byte c) && (Z_of_byte c <=? 13)) || (Z_of_byte c =? 32).

Definition member (c : byte) (ok : string) : bool :=
  existsb (Byte.eqb c) (list_byte_of_string ok).

Definition peek (ok : string) : ss bool :=
  r <- getRune ;;
  match r with
  | None => ret false
  | Some c => _ <- UnreadRune c ;; ret (member c ok)
  end.

Fixpoint SkipSpaceLoop (fuel : nat) : ss unit :=
  match fuel with
  | O => ret tt
  | S fuel' =>
      r <- getRune ;;
      match r with
      | None => ret tt
      | Some c =>
          if Byte.eqb c x0d then
            (* a carriage return is skipped, before a newline or not *)
            _ <- peek (String "010" EmptyString) ;; SkipSpaceLoop fuel'
          else if Byte.eqb c x0a then fail (errors.New "unexpected newline")
          else if isSpace c then SkipSpaceLoop fuel'
          else UnreadRune c
      end
  end.

Definition SkipSpace : ss unit :=
  fun st => SkipSpaceLoop (S (bufio.pending (fst st))) st.

(** [accept ok] with the token buffer [tok] threaded through. *)
Definition accept (ok : string) (tok : bytes) : ss (bool * bytes) :=
  r <- getRune ;;
  match r with
  | None => ret (false, tok)
  | Some c =>
      if member c ok then ret (true, tok ++ [c])
      else _ <- UnreadRune c ;; ret (false, tok)
  end.

Fixpoint acceptLoop (fuel : nat) (ok : string) (tok : bytes) : ss bytes :=
  match fuel with
  | O => ret tok
  | S fuel' =>
      '(b, tok) <- accept ok tok ;;
      if (b : bool) then acceptLoop fuel' ok tok else ret tok
  end.

Definition acceptAll (ok : string) (tok : bytes) : ss bytes :=
  fun st => acceptLoop (S (bufio.pending (fst st))) ok tok st.

(** [accept a && accept b && accept c] *)
Definition accept3 (a b c : string) (tok : bytes) : ss (bool * bytes) :=
  '(x, tok) <- accept a tok ;;
  if (x : bool) then
    '(y, tok) <- accept b tok ;;
    if (y : bool) then accept c tok else ret (false, tok)
  else ret (false, tok).

Definition decimalDigits : string := "0123456789".
Definition hexadecimalDigits : string := "0123456789aAbBcCdDeEfF".
Definition sign : string := "+-".
Definition period : string := ".".
Definition exponent : string := "eEpP".

Definition floatToken : ss bytes :=
  (* NaN? *)
  '(isNaN, tok) <- accept3 "nN" "aA" "nN" [] ;;
  if (isNaN : bool) then ret tok
  else
    (* leading sign? *)
    '(_, tok) <- accept sign tok ;;
    (* Inf? *)
    '(isInf, tok) <- accept3 "iI" "nN" "fF" tok ;;
    if (isInf : bool) then ret tok
    else
      '(z, tok) <- accept "0" tok ;;
      '(hex, tok) <- (if (z : bool) then accept "xX" tok else ret (false, tok)) ;;
      let digits := ((if (hex : bool) then hexadecimalDigits else decimalDigits) ++ "_")%string in
      let exp := if hex then "pP"%string else exponent in
      (* digits? *)
      tok <- acceptAll digits tok ;;
      (* decimal point? *)
      '(dot, tok) <- accept period tok ;;
      tok <- (if (dot : bool) then acceptAll digits tok else ret tok) ;;
      (* exponent? *)
      '(e, tok) <- accept exp tok ;;
      if (e : bool) then
        '(_, tok) <- accept sign tok ;;
        acceptAll (decimalDigits ++ "_")%string tok
      else ret tok.

(** [convertFloat] on the tokens [strconv.ParseFloat] above covers; a token
    with a binary exponent is reported as a syntax error too. *)
Definition convertFloat (tok : bytes) : ss math.float64 :=
  if existsb (fun c => Byte.eqb c "p" || Byte.eqb c "P") tok
  then fail strconv.ErrSyntax
  else
    match strconv.ParseFloat tok with
    | (_, Some e) => fail e
    | (f, None) => ret f
    end.

Definition notEOF : ss unit :=
  r <- getRune ;;
  match r with
  | None => fail io.EOF
  | Some c => UnreadRune c
  end.

(** The verb [%f] into a [*float64]: [doScanf] skips spaces, and so does
    [scanOne]. *)
Definition scanFloat : ss math.float64 :=
  _ <- SkipSpace ;;
  _ <- SkipSpace ;;
  _ <- notEOF ;;
  tok <- floatToken ;;
  convertFloat tok.

(** A literal of the format: [advance] on one rune. *)
Definition literal (fmtc : byte) : ss unit :=
  inputc <- mustReadRune ;;
  if Byte.eqb fmtc inputc then ret tt
  else _ <- UnreadRune inputc ;; fail (errors.New "input does not match format").

(** ["[%f,%f,%f]"] *)
Definition scanTriple : ss (math.float64 * math.float64 * math.float64) :=
  _ <- literal "[" ;;
  a <- scanFloat ;;
  _ <- literal "," ;;
  b <- scanFloat ;;
  _ <- literal "," ;;
  c <- scanFloat ;;
  _ <- literal "]" ;;
  ret (a, b, c).

Definition Scanned : Type :=
  (math.float64 * math.float64 * math.float64)
  * (math.float64 * math.float64 * math.float64)
  * (math.float64 * math.float64 * math.float64).

Definition noScan : Scanned :=
  let z := (math.zero, math.zero, math.zero) in (z, z, z).

(** What [mesh.go] asks of [Fscanf]: from the reader, the three triples of
    the format ["[%f,%f,%f][%f,%f,%f][%f,%f,%f]"] or the error. *)
Definition Scanner : Type := bufio.Reader -> bufio.Reader * Scanned * option error.

(** [Fscanf] with that format, for input in ASCII and the decimal notation
    [ParseFloat] above covers. *)
Definition Fscanf : Scanner :=
  fun b =>
    match (p <- scanTriple ;; n <- scanTriple ;; t <- scanTriple ;; ret (p, n, t))
            (b, false) with
    | (inl v, (b', _)) => (b', v, None)
    | (inr e, (b', _)) => (b', noScan, Some e)
    end.
End fmt.

(** ** The data model of [mesh.go] *)

Definition Version : Type := Z.

Definition VersionUnknown : Version := -1.
Definition Version2_00 : Version := 0.
Definition Version1_00 : Version := 1.
Definition Version1_01 : Version := 2.

Definition Version_String (v : Version) : string :=
  if v =? Version1_00 then "version 1.00"
  else if v =? Version1_01 then "version 1.01"
  else if v =? Version2_00 then "version 2.00"
  else "version x.xx".

Definition VersionFromString (s : bytes) : Version :=
  if bytes_eqb s (list_byte_of_string (Version_String Version1_00)) then Version1_00
  else if bytes_eqb s (list_byte_of_string (Version_String Version1_01)) then Version1_01
  else if bytes_eqb s (list_byte_of_string (Version_String Version2_00)) then Version2_00
  else VersionUnknown.

Definition vec3 : Type := math.float64 * math.float64 * math.float64.

Record MeshVertex : Type := {
  Position : vec3;
  Normal : vec3;
  Texture : vec3;
  Color : byte * byte * byte * byte
}.

Definition MeshFace : Type := Z * Z * Z.

Record Mesh : Type := {
  Version_ : Version;
  HasColor : bool;
  Vertices : list MeshVertex;
  Faces : list MeshFace
}.

Definition zeroVec : vec3 := (math.zero, math.zero, math.zero).
Definition zeroVertex : MeshVertex :=
  {| Position := zeroVec; Normal := zeroVec; Texture := zeroVec;
     Color := (x00, x00, x00, x00) |}.
Definition zeroFace : MeshFace := (0, 0, 0).

Definition nHeaderSize : Z := 2.
Definition nHeader : Z := nHeaderSize + 1 + 1 + 4 + 4.
Definition nVertex : Z := (4 + 4 + 4) + (4 + 4 + 4) + (4 + 4 + 4).
Definition nColor : Z := nVertex + (1 + 1 + 1 + 1).
Definition nFace : Z := 4 + 4 + 4.

(** ** [WriteTo] *)

Definition WriteResult : Type := io.Writer * Z * option error.

Definition vec32 (v : vec3) : math.float32 * math.float32 * math.float32 :=
  let '(a, b, c) := v in (math.to_float32 a, math.to_float32 b, math.to_float32 c).

Definition ErrIndexOutOfRange : error := errors.New "index out of range".
Definition ErrUnknownVersion : error := errors.New "unknown version".

(** One pass of the inner loop of the text encoder: the bounds check, the
    scaling of version 1.00, the formatted write and the byte count. *)
Definition writeCorner (m : Mesh) (index : Z) (w : io.Writer) (n : Z) : WriteResult :=
  if (index <? 0) || (index >=? len (Vertices m)) then (w, n, Some ErrIndexOutOfRange)
  else
    let v := nth (Z.to_nat index) (Vertices m) zeroVertex in
    let '(p0, p1, p2) := Position v in
    let pos :=
      if Version_ m =? Version1_00
      then (math.mul p0 math.two, math.mul p1 math.two, math.mul p2 math.two)
      else (p0, p1, p2) in
    let '(t0, t1, t2) := Texture v in
    let '(w', nn, err) :=
      fmt.Fprintf w (vec32 pos) (vec32 (Normal v)) (vec32 (t0, math.sub math.one t1, t2)) in
    (w', int64 (n + nn), err).

Fixpoint writeCorners (m : Mesh) (face : list Z) (w : io.Writer) (n : Z) : WriteResult :=
  match face with
  | [] => (w, n, None)
  | index :: rest =>
      match writeCorner m index w n with
      | (w', n', Some err) => (w', n', Some err)
      | (w', n', None) => writeCorners m rest w' n'
      end
  end.

Definition indices (face : MeshFace) : list Z :=
  let '(a, b, c) := face in [a; b; c].

Fixpoint writeFaces (m : Mesh) (faces : list MeshFace) (w : io.Writer) (n : Z) : WriteResult :=
  match faces with
  | [] => (w, n, None)
  | face :: rest =>
      match writeCorners m (indices face) w n with
      | (w', n', Some err) => (w', n', Some err)
      | (w', n', None) => writeFaces m rest w' n'
      end
  end.

Definition putvec (b : bytes) (off : nat) (v : vec3) : bytes :=
  let '(v0, v1, v2) := v in
  let b := store b off (binary.PutUint32 (math.Float32bits (math.to_float32 v0))) in
  let b := store b (off + 4) (binary.PutUint32 (math.Float32bits (math.to_float32 v1))) in
  store b (off + 8) (binary.PutUint32 (math.Float32bits (math.to_float32 v2))).

Definition colorBytes (c : byte * byte * byte * byte) : bytes :=
  let '(r, g, b, a) := c in [r; g; b; a].

(** A vertex put into the scratch buffer [b]. *)
Definition putVertex (hasColor : bool) (vertex : MeshVertex) (b : bytes) : bytes :=
  let b := putvec b 0 (Position vertex) in
  let b := putvec b 12 (Normal vertex) in
  let b := putvec b 24 (Texture vertex) in
  if hasColor then store b 36 (colorBytes (Color vertex)) else b.

(** A face put into the scratch buffer [b]. *)
Definition putFace (face : MeshFace) (b : bytes) : bytes :=
  let '(f0, f1, f2) := face in
  let b := store b 0 (binary.PutUint32 (uint32 f0)) in
  let b := store b 4 (binary.PutUint32 (uint32 f1)) in
  store b 8 (binary.PutUint32 (uint32 f2)).

(** The vertex loop of the binary encoder; of the scratch buffer [b] the
    first [nColor] or [nVertex] bytes are written per vertex. *)
Fixpoint writeVertices (hasColor : bool) (vs : list MeshVertex) (b : bytes)
    (w : io.Writer) (n : Z) : bytes * WriteResult :=
  match vs with
  | [] => (b, (w, n, None))
  | vertex :: rest =>
      let b := putVertex hasColor vertex b in
      let '(w', nn, err) :=
        io.Write w (firstn (Z.to_nat (if hasColor then nColor else nVertex)) b) in
      let n' := int64 (n + nn) in
      match err with
      | Some e => (b, (w', n', Some e))
      | None => writeVertices hasColor rest b w' n'
      end
  end.

(** The face loop of the binary encoder. *)
Fixpoint writeFaceRecords (fs : list MeshFace) (b : bytes)
    (w : io.Writer) (n : Z) : WriteResult :=
  match fs with
  | [] => (w, n, None)
  | face :: rest =>
      let b := putFace face b in
      let '(w', nn, err) := io.Write w (firstn (Z.to_nat nFace) b) in
      let n' := int64 (n + nn) in
      match err with
      | Some e => (w', n', Some e)
      | None => writeFaceRecords rest b w' n'
      end
  end.

Definition newline : byte := x0a.

Definition WriteTo (m : Mesh) (w : io.Writer) : WriteResult :=
  let '(w, nn, err) :=
    io.Write w (list_byte_of_string (Version_String (Version_ m)) ++ [newline]) in
  let n := int64 (0 + nn) in
  match err with
  | Some e => (w, n, Some e)
  | None =>
      if (Version_ m =? Version1_00) || (Version_ m =? Version1_01) then
        let b := strconv.AppendUint [] (len (Faces m)) 32 in
        let b := b ++ [newline] in
        let '(w, nn, err) := io.Write w b in
        let n := int64 (n + nn) in
        match err with
        | Some e => (w, n, Some e)
        | None => writeFaces m (Faces m) w n
        end
      else if Version_ m =? Version2_00 then
        let b := repeat x00 (Z.to_nat nColor) in
        (* Header *)
        let b := store b 0 (binary.PutUint16 (uint16 nHeader)) in
        let b :=
          if HasColor m then store b 2 (binary.PutUint16 (uint16 nColor))
          else store b 2 (binary.PutUint16 (uint16 nVertex)) in
        let b := store b 4 (binary.PutUint16 (uint16 nFace)) in
        let b := store b 6 (binary.PutUint32 (uint32 (len (Vertices m)))) in
        let b := store b 10 (binary.PutUint32 (uint32 (len (Faces m)))) in
        let '(w, nn, err) := io.Write w (firstn (Z.to_nat nHeader) b) in
        let n := int64 (n + nn) in
        match err with
        | Some e => (w, n, Some e)
        | None =>
            (* Vertices *)
            match writeVertices (HasColor m) (Vertices m) b w n with
            | (_, (w, n, Some e)) => (w, n, Some e)
            | (b, (w, n, None)) =>
                (* Faces *)
                writeFaceRecords (Faces m) b w n
            end
        end
      else (w, 0, Some ErrUnknownVersion)
  end.


(** ** [ReadFrom] *)

(** The repository holds [ReadFrom] twice.  The two copies differ in two
    assignments only: the copy of [part_000] stores the version it has read
    in [m.Version] and clears [m.HasColor] on the text path; the copy of
    [mesh.go] does neither. *)
Inductive Copy : Type := MeshGo | Part000.

Definition setVersion (m : Mesh) (v : Version) : Mesh :=
  {| Version_ := v; HasColor := HasColor m; Vertices := Vertices m; Faces := Faces m |}.
Definition setHasColor (m : Mesh) (c : bool) : Mesh :=
  {| Version_ := Version_ m; HasColor := c; Vertices := Vertices m; Faces := Faces m |}.
Definition setVertices (m : Mesh) (vs : list MeshVertex) : Mesh :=
  {| Version_ := Version_ m; HasColor := HasColor m; Vertices := vs; Faces := Faces m |}.
Definition setFaces (m : Mesh) (fs : list MeshFace) : Mesh :=
  {| Version_ := Version_ m; HasColor := HasColor m; Vertices := Vertices m; Faces := fs |}.

(** The operator [==] on [[3]float64], [[4]byte] and [MeshVertex]: on a
    float it is the comparison of IEEE 754, under which a NaN differs from
    itself and the two zeros are equal. *)
Definition vec3_eqb (a b : vec3) : bool :=
  let '(a0, a1, a2) := a in
  let '(b0, b1, b2) := b in
  math.eqb a0 b0 && math.eqb a1 b1 && math.eqb a2 b2.

Definition Color_eqb (a b : byte * byte * byte * byte) : bool :=
  bytes_eqb (colorBytes a) (colorBytes b).

Definition MeshVertex_eqb (a b : MeshVertex) : bool :=
  vec3_eqb (Position a) (Position b) && vec3_eqb (Normal a) (Normal b)
  && vec3_eqb (Texture a) (Texture b) && Color_eqb (Color a) (Color b).

(** The map [verts] of the text decoder, [map[MeshVertex]int]: the entries
    in the order they were added.  A key that is not [==] to itself is never
    found and is added again each time. *)
Definition VertexMap : Type := list (MeshVertex * Z).

Fixpoint lookup (verts : VertexMap) (v : MeshVertex) : option Z :=
  match verts with
  | [] => None
  | (k, index) :: rest => if MeshVertex_eqb k v then Some index else lookup rest v
  end.

(** The vertex a scanned corner stands for: [v.Texture[1] = 1 - v.Texture[1]]
    and, for version 1.00, the position halved. *)
Definition corner (version : Version) (s : fmt.Scanned) : MeshVertex :=
  let '((p0, p1, p2), n, (t0, t1, t2)) := s in
  {| Position :=
       if version =? Version1_00
       then (math.mul p0 math.half, math.mul p1 math.half, math.mul p2 math.half)
       else (p0, p1, p2);
     Normal := n;
     Texture := (t0, math.sub math.one t1, t2);
     Color := (x00, x00, x00, x00) |}.

(** [m.Vertices[index] = vert]; the index is in range wherever this is used. *)
Fixpoint setNth {A : Type} (l : list A) (i : nat) (x : A) : list A :=
  match l, i with
  | [], _ => []
  | _ :: l', O => x :: l'
  | y :: l', S i' => y :: setNth l' i' x
  end.

(** The last loop of the text decoder.  Go ranges over a map in no fixed
    order; the entries are taken in the order they were added, and
    [rangeVerts_Permutation] shows that the order does not matter. *)
Definition rangeVerts (verts : VertexMap) : list MeshVertex :=
  fold_left (fun vs '(vert, index) => setNth vs (Z.to_nat index) vert) verts
            (repeat zeroVertex (length verts)).

(** The run of digits the second line starts with. *)
Fixpoint digitRun (line : bytes) : nat :=
  match line with
  | c :: line' => if strconv.isDigit c then S (digitRun line') else O
  | [] => O
  end.

Definition ErrHeaderSize : error := errors.New "unexpected header size".
Definition ErrVertexSize : error := errors.New "unexpected vertex size".
Definition ErrFaceSize : error := errors.New "unexpected face size".

Definition vec (b : bytes) : vec3 :=
  (math.to_float64 (math.Float32frombits (binary.Uint32 (slice b 0 4))),
   math.to_float64 (math.Float32frombits (binary.Uint32 (slice b 4 8))),
   math.to_float64 (math.Float32frombits (binary.Uint32 (slice b 8 12)))).

Definition color4 (b : bytes) : byte * byte * byte * byte :=
  (nth 0 b x00, nth 1 b x00, nth 2 b x00, nth 3 b x00).

(** The vertex loop of the binary decoder over the slice just made; [b] is
    the scratch buffer, into whose first [size] bytes each record is read.
    A read that returns fewer bytes leaves the rest of [b] as it was. *)
Fixpoint readVertices (hasColor : bool) (vs : list MeshVertex) (buf : bufio.Reader)
    (b : bytes) : list MeshVertex * bufio.Reader * bytes * option error :=
  match vs with
  | [] => ([], buf, b, None)
  | v :: rest =>
      let size := Z.to_nat (if hasColor then nColor else nVertex) in
      match bufio.Read buf size with
      | (_, Some e, buf) => (v :: rest, buf, b, Some e)
      | (p, None, buf) =>
          let b := store b 0 p in
          let v :=
            {| Position := vec (slice b 0 12);
               Normal := vec (slice b 12 24);
               Texture := vec (slice b 24 36);
               Color := if hasColor then color4 (slice b 36 40) else Color v |} in
          let '(rest, buf, b, e) := readVertices hasColor rest buf b in
          (v :: rest, buf, b, e)
      end
  end.

(** The face loop of the binary decoder. *)
Fixpoint readFaceRecords (fs : list MeshFace) (buf : bufio.Reader) (b : bytes)
    : list MeshFace * bufio.Reader * option error :=
  match fs with
  | [] => ([], buf, None)
  | f :: rest =>
      match bufio.Read buf (Z.to_nat nFace) with
      | (_, Some e, buf) => (f :: rest, buf, Some e)
      | (p, None, buf) =>
          let b := store b 0 p in
          let f :=
            (binary.Uint32 (slice b 0 4), binary.Uint32 (slice b 4 8),
             binary.Uint32 (slice b 8 12)) in
          let '(rest, buf, e) := readFaceRecords rest buf b in
          (f :: rest, buf, e)
      end
  end.

Definition ReadResult : Type := Mesh * Z * option error.

Section Decoder.
(** [fmt.Fscanf] as the decoder uses it.  The decoder is defined, and its
    properties are proved, for any scanner; [fmt.Fscanf] above is one. *)
Variable Fscanf : fmt.Scanner.

(** The body of the inner loop of the text decoder: scan a corner, look
    its vertex up, add it when it is new; the index goes into the face. *)
Definition readCorner (version : Version) (buf : bufio.Reader) (verts : VertexMap)
  : bufio.Reader * VertexMap * Z * option error :=
  match Fscanf buf with
  | (buf, _, Some e) => (buf, verts, 0, Some e)
  | (buf, s, None) =>
      let v := corner version s in
      match lookup verts v with
      | Some index => (buf, verts, index, None)
      | None =>
          let index := len verts in
          (buf, verts ++ [(v, index)], index, None)
      end
  end.

(** The inner loop, [f] from 0 to 2, on the face [m.Faces[i]]. *)
Definition readFace (version : Version) (face : MeshFace) (buf : bufio.Reader)
    (verts : VertexMap) : MeshFace * bufio.Reader * VertexMap * option error :=
  let '(f0, f1, f2) := face in
  match readCorner version buf verts with
  | (buf, verts, _, Some e) => ((f0, f1, f2), buf, verts, Some e)
  | (buf, verts, i0, None) =>
      match readCorner version buf verts with
      | (buf, verts, _, Some e) => ((i0, f1, f2), buf, verts, Some e)
      | (buf, verts, i1, None) =>
          match readCorner version buf verts with
          | (buf, verts, _, Some e) => ((i0, i1, f2), buf, verts, Some e)
          | (buf, verts, i2, None) => ((i0, i1, i2), buf, verts, None)
          end
      end
  end.

(** The outer loop over the faces of the slice just made. *)
Fixpoint readFaces (version : Version) (faces : list MeshFace) (buf : bufio.Reader)
    (verts : VertexMap) : list MeshFace * bufio.Reader * VertexMap * option error :=
  match faces with
  | [] => ([], buf, verts, None)
  | face :: rest =>
      match readFace version face buf verts with
      | (face, buf, verts, Some e) => (face :: rest, buf, verts, Some e)
      | (face, buf, verts, None) =>
          let '(rest, buf, verts, e) := readFaces version rest buf verts in
          (face :: rest, buf, verts, e)
      end
  end.

Definition BytesRead (buf : bufio.Reader) : Z := readReporter.BytesRead (bufio.rd buf).

Definition readText (copy : Copy) (version : Version) (m : Mesh) (buf : bufio.Reader)
  : ReadResult :=
  let m := match copy with Part000 => setHasColor m false | MeshGo => m end in
  match bufio.ReadLine buf with
  | (_, _, Some e, buf) => (m, BytesRead buf, Some e)
  | (line, _, None, buf) =>
      let i := digitRun line in
      let '(n, _) := strconv.Atoi (firstn i line) in
      let verts : VertexMap := [] in
      let m := setFaces m (repeat zeroFace (Z.to_nat n)) in
      match readFaces version (Faces m) buf verts with
      | (faces, buf, _, Some e) => (setFaces m faces, BytesRead buf, Some e)
      | (faces, buf, verts, None) =>
          let m := setFaces m faces in
          let m := setVertices m (rangeVerts verts) in
          (m, BytesRead buf, None)
      end
  end.

Definition readBinary (m : Mesh) (buf : bufio.Reader) : ReadResult :=
  let b := repeat x00 (Z.to_nat nColor) in
  (* Header size *)
  match bufio.Read buf (Z.to_nat nHeaderSize) with
  | (_, Some e, buf) => (m, BytesRead buf, Some e)
  | (p, None, buf) =>
      let b := store b 0 p in
      if binary.Uint16 (slice b 0 2) =? nHeader then
        match bufio.Read buf (Z.to_nat (nHeader - nHeaderSize) - Z.to_nat nHeaderSize) with
        | (_, Some e, buf) => (m, BytesRead buf, Some e)
        | (p, None, buf) =>
            let b := store b (Z.to_nat nHeaderSize) p in
            let size := Z_of_byte (nth 2 b x00) in
            if negb ((size =? nVertex) || (size =? nColor))
            then (m, BytesRead buf, Some ErrVertexSize)
            else
              let m := setHasColor m (negb (size =? nVertex)) in
              if negb (Z_of_byte (nth 3 b x00) =? nFace)
              then (m, BytesRead buf, Some ErrFaceSize)
              else
                let m := setVertices m
                  (repeat zeroVertex (Z.to_nat (binary.Uint32 (slice b 4 8)))) in
                let m := setFaces m
                  (repeat zeroFace (Z.to_nat (binary.Uint32 (slice b 8 12)))) in
                (* Vertices *)
                match readVertices (HasColor m) (Vertices m) buf b with
                | (vs, buf, _, Some e) => (setVertices m vs, BytesRead buf, Some e)
                | (vs, buf, b, None) =>
                    let m := setVertices m vs in
                    (* Faces *)
                    match readFaceRecords (Faces m) buf b with
                    | (fs, buf, Some e) => (setFaces m fs, BytesRead buf, Some e)
                    | (fs, buf, None) => (setFaces m fs, BytesRead buf, None)
                    end
                end
        end
      else (m, BytesRead buf, Some ErrHeaderSize)
  end.

Definition ReadFrom (copy : Copy) (m : Mesh) (r : io.Reader) : ReadResult :=
  let rr := {| readReporter.r := r; readReporter.n := 0 |} in
  let buf := bufio.NewReader rr in
  match bufio.ReadLine buf with
  | (_, _, Some e, buf) => (m, BytesRead buf, Some e)
  | (line, _, None, buf) =>
      let version := VersionFromString line in
      let m := match copy with Part000 => setVersion m version | MeshGo => m end in
      if (version =? Version1_00) || (version =? Version1_01) then
        readText copy version m buf
      else if version =? Version2_00 then readBinary m buf
      else (m, BytesRead buf, Some ErrUnknownVersion)
  end.
End Decoder.

(** ** Meshes and inputs used as examples *)

Definition mkMesh (v : Version) (c : bool) (vs : list MeshVertex) (fs : list MeshFace) : Mesh :=
  {| Version_ := v; HasColor := c; Vertices := vs; Faces := fs |}.

Definition sampleVertex : MeshVertex :=
  {| Position := (math.one, math.two, math.half);
     Normal := (math.zero, math.one, math.zero);
     Texture := (math.half, math.one, math.zero);
     Color := (x01, x02, x03, x04) |}.

Definition str (s : string) : bytes := list_byte_of_string s.

(** ** What the text encoder writes, as the specification words it *)

Definition signatureLine (v : Version) : bytes := str (Version_String v) ++ [newline].

Definition inRange (m : Mesh) (index : Z) : bool :=
  (0 <=? index) && (index <? len (Vertices m)).

(** The text of one corner: the vertex the index resolves to, rendered. *)
Definition cornerText (m : Mesh) (index : Z) : bytes :=
  let v := nth (Z.to_nat index) (Vertices m) zeroVertex in
  let '(p0, p1, p2) := Position v in
  let pos :=
    if Version_ m =? Version1_00
    then (math.mul p0 math.two, math.mul p1 math.two, math.mul p2 math.two)
    else (p0, p1, p2) in
  let '(t0, t1, t2) := Texture v in
  fmt.Sprintf (vec32 pos) (vec32 (Normal v)) (vec32 (t0, math.sub math.one t1, t2)).

Fixpoint takeWhile {A : Type} (f : A -> bool) (l : list A) : list A :=
  match l with
  | x :: l' => if f x then x :: takeWhile f l' else []
  | [] => []
  end.

(** The corners of all faces, in the order the encoder visits them. *)
Definition cornerIndices (m : Mesh) : list Z := flat_map indices (Faces m).

(** ** What the binary encoder writes, as the specification words it *)

Definition vec3Record (v : vec3) : bytes :=
  let '(v0, v1, v2) := v in
  binary.PutUint32 (math.Float32bits (math.to_float32 v0))
  ++ binary.PutUint32 (math.Float32bits (math.to_float32 v1))
  ++ binary.PutUint32 (math.Float32bits (math.to_float32 v2)).

Definition vertexRecord (hasColor : bool) (v : MeshVertex) : bytes :=
  vec3Record (Position v) ++ vec3Record (Normal v) ++ vec3Record (Texture v)
  ++ (if hasColor then colorBytes (Color v) else []).

(** Three little-endian 4-byte integers. *)
Definition faceRecord (f : MeshFace) : bytes :=
  let '(f0, f1, f2) := f in
  binary.PutUint32 (uint32 f0) ++ binary.PutUint32 (uint32 f1)
  ++ binary.PutUint32 (uint32 f2).

(** The twelve bytes the encoder writes as the header: three 2-byte fields,
    the vertex count, and the low half of the face count. *)
Definition headerRecord (hasColor : bool) (nv nf : Z) : bytes :=
  binary.PutUint16 (uint16 nHeader)
  ++ binary.PutUint16 (uint16 (if hasColor then nColor else nVertex))
  ++ binary.PutUint16 (uint16 nFace)
  ++ binary.PutUint32 (uint32 nv)
  ++ firstn 2 (binary.PutUint32 (uint32 nf)).

(** The writer that takes everything, holding [o] already. *)
Definition sink (o : bytes) : io.Writer := {| io.out := o; io.room := None |}.

(** The count line, as the encoder writes it. *)
Definition countLine (m : Mesh) : bytes :=
  strconv.AppendUint [] (len (Faces m)) 32 ++ [newline].

(** What the binary encoder hands to a writer that takes everything. *)
Definition binaryImage (hasColor : bool) (vs : list MeshVertex) (fs : list MeshFace) : bytes :=
  signatureLine Version2_00 ++ headerRecord hasColor (len vs) (len fs)
  ++ flat_map (vertexRecord hasColor) vs ++ flat_map faceRecord fs.

(** The index-bounds property of the text encoder as the specification
    states it: with [face] the first face that has an index out of range,
    the encoder fails having written the faces before it and nothing of
    [face], and returns that many bytes. *)
Definition text_bounds_as_stated (m : Mesh) : Prop :=
  forall pre face post,
    Faces m = pre ++ face :: post ->
    forallb (inRange m) (flat_map indices pre) = true ->
    forallb (inRange m) (indices face) = false ->
    let '(w, n, e) := WriteTo m (sink []) in
    e = Some ErrIndexOutOfRange
    /\ io.out w = signatureLine (Version_ m) ++ countLine m
                  ++ flat_map (cornerText m) (flat_map indices pre)
    /\ n = len (io.out w).

Definition writerError (e : option error) : Prop :=
  e = None \/ e = Some io.ErrShortWrite.

(** ** Inputs of the decoder *)

(** The state of the buffered reader a decoder starts from. *)
Definition open (r : io.Reader) : bufio.Reader :=
  bufio.NewReader {| readReporter.r := r; readReporter.n := 0 |}.

(** The version the first line of an input names, if the line can be read. *)
Definition sniff (r : io.Reader) : option Version :=
  match bufio.ReadLine (open r) with
  | (line, _, None, _) => Some (VersionFromString line)
  | (_, _, Some _, _) => None
  end.

(** The two line ends [ReadLine] takes. *)
Definition lineEnd (eol : bytes) : Prop := eol = [x0a] \/ eol = [x0d; x0a].

(** The mesh a decoder leaves when it fails before it has read any content. *)
Definition stamped (copy : Copy) (m : Mesh) (v : Version) : Mesh :=
  match copy with Part000 => setVersion m v | MeshGo => m end.

(** The header-rejection property as the specification states it: the count
    returned with the header-size error is the number of bytes up to and
    including the 2-byte field. *)
Definition header_count_as_stated (Fscanf : fmt.Scanner) (copy : Copy) (m : Mesh)
    (h0 h1 : byte) (rest : bytes) : Prop :=
  binary.Uint16 [h0; h1] <> nHeader ->
  let '(_, n, e) := ReadFrom Fscanf copy m (signatureLine Version2_00 ++ h0 :: h1 :: rest) in
  e = Some ErrHeaderSize /\ n = len (signatureLine Version2_00 ++ [h0; h1]).

(** The reader after the signature line, and after the count line: the
    corners of a text input come next. *)
Definition afterSignature (r : io.Reader) : bufio.Reader :=
  let '(_, _, _, buf) := bufio.ReadLine (open r) in buf.

Definition body (r : io.Reader) : bufio.Reader :=
  let '(_, _, _, buf) := bufio.ReadLine (afterSignature r) in buf.

(** The corners [k] scans of [Fscanf] deliver from [buf], each as the vertex
    it stands for; the stream ends with the first scan that fails. *)
Fixpoint scanCorners (Fscanf : fmt.Scanner) (version : Version) (k : nat)
    (buf : bufio.Reader) : list MeshVertex :=
  match k with
  | O => []
  | S k' =>
      match Fscanf buf with
      | (buf', s, None) => corner version s :: scanCorners Fscanf version k' buf'
      | (_, _, Some _) => []
      end
  end.

(** The face-corner stream of a text input: its first [k] corners. *)
Definition cornerStream (Fscanf : fmt.Scanner) (r : io.Reader) (k : nat) : list MeshVertex :=
  match sniff r with
  | Some version => scanCorners Fscanf version k (body r)
  | None => []
  end.

(** ** Deduplication, as the specification words it *)

Definition occurs (vs : list MeshVertex) (v : MeshVertex) : bool :=
  existsb (fun k => MeshVertex_eqb k v) vs.

(** The vertices of a corner stream in the order of their first occurrence:
    a corner is left out when a vertex [==] to it has been kept. *)
Fixpoint firstOccurrences (kept : list MeshVertex) (cs : list MeshVertex)
    : list MeshVertex :=
  match cs with
  | [] => kept
  | c :: cs' =>
      if occurs kept c then firstOccurrences kept cs'
      else firstOccurrences (kept ++ [c]) cs'
  end.

(** The index of the first vertex of [vs] that is [==] to [v]. *)
Fixpoint position (vs : list MeshVertex) (v : MeshVertex) : option Z :=
  match vs with
  | [] => None
  | k :: vs' =>
      if MeshVertex_eqb k v then Some 0
      else match position vs' v with Some i => Some (i + 1) | None => None end
  end.

(** The indices the faces of a mesh hold, corner by corner. *)
Definition faceIndices (m : Mesh) : list Z := flat_map indices (Faces m).

(** The deduplication property as the specification states it: two corners
    of the stream with the same content hold the same index. *)
Definition dedup_as_stated (Fscanf : fmt.Scanner) (copy : Copy) (m0 : Mesh)
    (r : io.Reader) : Prop :=
  forall m n,
    ReadFrom Fscanf copy m0 r = (m, n, None) ->
    let cs := cornerStream Fscanf r (3 * length (Faces m)) in
    forall j1 j2 c,
      nth_error cs j1 = Some c -> nth_error cs j2 = Some c ->
      nth_error (faceIndices m) j1 = nth_error (faceIndices m) j2.

(** ** The map of the text decoder *)

(** Entry number [i] of the map holds the index [i]. *)
Definition wfMap (verts : VertexMap) : Prop :=
  forall i v index, nth_error verts i = Some (v, index) -> index = Z.of_nat i.

(** Lookup and insertion, as the inner loop does them on a scanned vertex. *)
Definition intern (verts : VertexMap) (c : MeshVertex) : VertexMap * Z :=
  match lookup verts c with
  | Some index => (verts, index)
  | None => (verts ++ [(c, len verts)], len verts)
  end.

Fixpoint internAll (verts : VertexMap) (cs : list MeshVertex) : VertexMap * list Z :=
  match cs with
  | [] => (verts, [])
  | c :: cs' =>
      let '(verts1, i) := intern verts c in
      let '(verts2, rest) := internAll verts1 cs' in
      (verts2, i :: rest)
  end.

(** No two vertices of a list are [==], the earlier compared with the
    later. *)
Definition distinct (vs : list MeshVertex) : Prop :=
  forall i j vi vj,
    (i < j)%nat -> nth_error vs i = Some vi -> nth_error vs j = Some vj ->
    MeshVertex_eqb vi vj = false.

(** ** Inputs used as examples *)

(** One corner of a text input. *)
Definition cornerA : bytes := str "[0,0,0][0,0,1][0,0,0]".
Definition cornerB : bytes := str "[1,0,0][0,0,1][1,0,0]".
Definition cornerC : bytes := str "[0,1,0][0,0,1][0,1,0]".
Definition cornerD : bytes := str "[1,1,0][0,0,1][1,1,0]".
Definition cornerNaN : bytes := str "[NaN,0,0][0,0,1][0,0,0]".

(** Two triangles that share the edge from B to C. *)
Definition quadInput : bytes :=
  str "version 1.01" ++ [newline] ++ str "2" ++ [newline]
  ++ cornerA ++ cornerB ++ cornerC ++ cornerB ++ cornerD ++ cornerC.

(** One triangle whose three corners are the same vertex, with a NaN. *)
Definition nanInput : bytes :=
  str "version 1.01" ++ [newline] ++ str "1" ++ [newline]
  ++ cornerNaN ++ cornerNaN ++ cornerNaN.

(** A text input of version 1.00 with no face. *)
Definition emptyInput : bytes :=
  str "version 1.00" ++ [newline] ++ str "0" ++ [newline].

(** A mesh a caller may hand to the decoder: it carries a colour flag. *)
Definition usedMesh : Mesh := mkMesh Version2_00 true [] [].

(** The passes [ReadSlice] can still make on a reader: none after an error,
    else one per free byte of the buffer and one more. *)
Definition passes (b : bufio.Reader) : nat :=
  match bufio.err b with
  | Some _ => O
  | None => S (bufio.defaultBufSize - bufio.Buffered b)
  end.

(** ** Versions with a signature *)

(** One of the three versions that have a signature line. *)
Definition knownb (v : Version) : bool :=
  (v =? Version1_00) || (v =? Version1_01) || (v =? Version2_00).

(** One of the two versions of the text format. *)
Definition textb (v : Version) : bool :=
  (v =? Version1_00) || (v =? Version1_01).

(** ** The encoder as a sequence of writes *)

(** The chunks [cs] written one after the other to [w], the way every loop
    of the encoder goes about it: the count grows with each write and the
    first error ends the sequence. *)
Fixpoint writeAll (cs : list bytes) (w : io.Writer) (n : Z) : WriteResult :=
  match cs with
  | [] => (w, n, None)
  | c :: cs' =>
      let '(w', nn, err) := io.Write w c in
      match err with
      | Some e => (w', int64 (n + nn), Some e)
      | None => writeAll cs' w' (int64 (n + nn))
      end
  end.

(** What the encoder hands to its writer, write by write: the signature
    line; then the count line and a text per corner, up to the first corner
    that is out of range; or the header, a record per vertex and a record
    per face. *)
Definition chunks (m : Mesh) : list bytes :=
  signatureLine (Version_ m)
  :: (if textb (Version_ m) then
        countLine m :: map (cornerText m) (takeWhile (inRange m) (cornerIndices m))
      else if Version_ m =? Version2_00 then
        headerRecord (HasColor m) (len (Vertices m)) (len (Faces m))
        :: map (vertexRecord (HasColor m)) (Vertices m) ++ map faceRecord (Faces m)
      else []).

(** The error the encoder ends with once its writer has taken every chunk. *)
Definition verdict (m : Mesh) : option error :=
  if textb (Version_ m) then
    if forallb (inRange m) (cornerIndices m) then None else Some ErrIndexOutOfRange
  else if Version_ m =? Version2_00 then None
  else Some ErrUnknownVersion.

(** What the encoder writes to a writer that takes everything. *)
Definition encoding (m : Mesh) : bytes := io.out (fst (fst (WriteTo m (sink [])))).

(** ** A binary stream as the decoder reads it *)

(** The size of a vertex record. *)
Definition recordSize (hasColor : bool) : nat :=
  Z.to_nat (if hasColor then nColor else nVertex).

(** The ten bytes the decoder takes for the header: the header size on two
    bytes, the size of a vertex record and that of a face record on one
    byte each, the vertex count on four bytes, and two bytes for the face
    count. *)
Definition wireHeader (hasColor : bool) (nv nf : Z) : bytes :=
  binary.PutUint16 nHeader
  ++ [byte_of_Z (if hasColor then nColor else nVertex); byte_of_Z nFace]
  ++ binary.PutUint32 nv ++ binary.PutUint16 nf.

(** The scratch buffer of the decoder once the header is in it. *)
Definition headerScratch (hasColor : bool) (nv nf : Z) : bytes :=
  wireHeader hasColor nv nf ++ repeat x00 30.

(** The vertex and the face the decoder makes of the scratch buffer [b]. *)
Definition decodeVertex (hasColor : bool) (b : bytes) : MeshVertex :=
  {| Position := vec (slice b 0 12);
     Normal := vec (slice b 12 24);
     Texture := vec (slice b 24 36);
     Color := if hasColor then color4 (slice b 36 40) else (x00, x00, x00, x00) |}.

Definition decodeFace (b : bytes) : MeshFace :=
  (binary.Uint32 (slice b 0 4), binary.Uint32 (slice b 4 8), binary.Uint32 (slice b 8 12)).

(** The scratch buffer after the records [recs] have been read into it one
    after the other. *)
Definition scratchAfter (recs : list bytes) (b : bytes) : bytes :=
  fold_left (fun b rec => store b 0 rec) recs b.

(** ** The indices of the binary encoder, as the specification words them *)

(** The face records of the binary encoder as the specification states
    them: the encoder succeeds, and behind the signature line, the header
    and the vertex records the output holds one record of twelve bytes per
    face, in list order, whose three little-endian integers of four bytes
    are the indices of the face as they are. *)
Definition binary_indices_as_stated (m : Mesh) : Prop :=
  let '(w, _, e) := WriteTo m (sink []) in
  let base := Z.to_nat (13 + 12 + (if HasColor m then nColor else nVertex) * len (Vertices m)) in
  e = None
  /\ length (io.out w) = (base + 12 * length (Faces m))%nat
  /\ forall i f, nth_error (Faces m) i = Some f ->
       decodeFace (slice (io.out w) (base + 12 * i) (base + 12 * i + 12)) = f.

(** ** The bytes a decoder has fetched *)

(** The reader [rd] counts what it has taken from [input]: it has counted
    the bytes of [input] that it no longer holds, and they are [lo] or
    more. *)
Definition counted (input : bytes) (lo : Z) (rd : readReporter.t) : Prop :=
  exists pre,
    input = pre ++ readReporter.r rd /\ readReporter.n rd = len pre /\ lo <= len pre.

Definition accounted (input : bytes) (lo : Z) (b : bufio.Reader) : Prop :=
  counted input lo (bufio.rd b).

(** A scanner that takes its bytes from the buffered reader it is given, as
    [fmt.Fscanf] does. *)
Definition fetches (F : fmt.Scanner) : Prop :=
  forall input lo b,
    len input < 2 ^ 63 -> accounted input lo b -> accounted input lo (fst (fst (F b))).

(** The same of an operation of the scan state. *)
Definition keeps (input : bytes) (lo : Z) {A : Type} (m : fmt.ss A) : Prop :=
  forall st, accounted input lo (fst st) -> accounted input lo (fst (snd (m st))).

(** ** The floats of a vertex record *)

(** The words of 32 bits that stand for a NaN: an exponent of ones and a
    fraction that is not zero. *)
Definition isNaNbits (u : Z) : bool :=
  (Z.land (Z.shiftr u 23) 255 =? 255) && negb (Z.land u (2 ^ 23 - 1) =? 0).

(** The nine fields of four bytes of a vertex record that hold a float. *)
Definition floatFields (rec : bytes) : list bytes :=
  map (fun i => slice rec (4 * i) (4 * i + 4)) (seq 0 9).

Definition noNaN (rec : bytes) : bool :=
  forallb (fun f => negb (isNaNbits (binary.Uint32 f))) (floatFields rec).

(** ** The scaling of version 1.00 *)

(** A float whose double is no infinity. *)
Definition doubles (p : math.float64) : bool :=
  match p with
  | S754_finite _ _ e => e <? 971
  | _ => true
  end.

(** A float of 64 bits, in its one representation, whose double is no
    infinity. *)
Definition scalable (p : math.float64) : bool := valid_binary 53 1024 p && doubles p.

(** ** What the text format keeps of a vertex *)

(** Two vertices with the same position, normal and texture. *)
Definition sameShape (v w : MeshVertex) : Prop :=
  Position v = Position w /\ Normal v = Normal w /\ Texture v = Texture w.

(** ** Arithmetic of the byte counters *)

Lemma int64_small (z : Z) : - 2 ^ 63 <= z < 2 ^ 63 -> int64 z = z.
Proof.
  intros H. unfold int64.
  rewrite Z.mod_small by lia. lia.
Qed.

Lemma int64_add_l (a b : Z) : int64 (int64 a + b) = int64 (a + b).
Proof.
  unfold int64.
  replace (((a + 2 ^ 63) mod 2 ^ 64 - 2 ^ 63 + b + 2 ^ 63))
    with ((a + 2 ^ 63) mod 2 ^ 64 + b) by lia.
  rewrite Zplus_mod_idemp_l.
  f_equal. f_equal. lia.
Qed.

Lemma len_app {A : Type} (a b : list A) : len (a ++ b) = len a + len b.
Proof. unfold len. rewrite length_app. lia. Qed.

Lemma len_nonneg {A : Type} (a : list A) : 0 <= len a.
Proof. unfold len. lia. Qed.

(** ** The writer that takes everything *)

Lemma Write_sink (o p : bytes) : io.Write (sink o) p = (sink (o ++ p), len p, None).
Proof. reflexivity. Qed.

(** ** The text encoder, loop by loop *)

Lemma writeCorner_sink (m : Mesh) (index : Z) (o : bytes) (n : Z) :
  writeCorner m index (sink o) n =
  if inRange m index
  then (sink (o ++ cornerText m index), int64 (n + len (cornerText m index)), None)
  else (sink o, n, Some ErrIndexOutOfRange).
Proof.
  unfold writeCorner, inRange, cornerText.
  destruct (index <? 0) eqn:Hlo; destruct (index >=? len (Vertices m)) eqn:Hhi;
    destruct (0 <=? index) eqn:Hlo'; destruct (index <? len (Vertices m)) eqn:Hhi';
    try lia; cbv [orb andb]; try reflexivity.
  destruct (Position _) as [[p0 p1] p2]. destruct (Texture _) as [[t0 t1] t2].
  unfold fmt.Fprintf. rewrite Write_sink. reflexivity.
Qed.

Lemma writeCorners_sink (m : Mesh) (idxs : list Z) (o : bytes) (n : Z) :
  writeCorners m idxs (sink o) (int64 n) =
  let text := flat_map (cornerText m) (takeWhile (inRange m) idxs) in
  (sink (o ++ text), int64 (n + len text),
   if forallb (inRange m) idxs then None else Some ErrIndexOutOfRange).
Proof.
  revert o n. induction idxs as [|index rest IH]; intros o n; cbn [writeCorners].
  - cbn. rewrite app_nil_r, Z.add_0_r. reflexivity.
  - rewrite writeCorner_sink. cbn [takeWhile forallb flat_map].
    destruct (inRange m index).
    + rewrite int64_add_l, IH. cbn [flat_map andb]. cbn zeta.
      rewrite <- app_assoc, len_app, Z.add_assoc. reflexivity.
    + cbn. rewrite app_nil_r, Z.add_0_r. reflexivity.
Qed.

Lemma writeFaces_flat (m : Mesh) (faces : list MeshFace) (w : io.Writer) (n : Z) :
  writeFaces m faces w n = writeCorners m (flat_map indices faces) w n.
Proof.
  revert w n. induction faces as [|[[a b] c] rest IH]; intros w n; [reflexivity|].
  cbn [writeFaces flat_map indices app writeCorners].
  destruct (writeCorner m a w n) as [[w1 n1] [e1|]]; [reflexivity|].
  destruct (writeCorner m b w1 n1) as [[w2 n2] [e2|]]; [reflexivity|].
  destruct (writeCorner m c w2 n2) as [[w3 n3] [e3|]]; [reflexivity|].
  apply IH.
Qed.

Lemma WriteTo_text_sink (m : Mesh) (o : bytes) :
  Version_ m = Version1_00 \/ Version_ m = Version1_01 ->
  WriteTo m (sink o) =
  let text := signatureLine (Version_ m) ++ countLine m
              ++ flat_map (cornerText m) (takeWhile (inRange m) (cornerIndices m)) in
  (sink (o ++ text), int64 (len text),
   if forallb (inRange m) (cornerIndices m) then None else Some ErrIndexOutOfRange).
Proof.
  intros Hv. unfold WriteTo. rewrite Write_sink.
  replace ((Version_ m =? Version1_00) || (Version_ m =? Version1_01)) with true
    by (destruct Hv as [-> | ->]; reflexivity).
  rewrite Write_sink, int64_add_l, writeFaces_flat, writeCorners_sink.
  cbn zeta. unfold signatureLine, countLine, cornerIndices, str.
  rewrite <- !app_assoc, !len_app. do 3 f_equal. lia.
Qed.

(** ** The binary encoder, loop by loop *)

Ltac explode b H :=
  repeat (destruct b as [|? b]; [discriminate H|]);
  destruct b; [|discriminate H].

Lemma store_length (b : bytes) (off : nat) (p : bytes) :
  length (store b off p) = length b.
Proof.
  revert off p. induction b as [|y b IH]; intros off p.
  - destruct off; destruct p; reflexivity.
  - destruct off.
    + destruct p; cbn; [reflexivity|]. f_equal. apply (IH O).
    + cbn. f_equal. apply IH.
Qed.

Lemma putvec_length (b : bytes) (off : nat) (v : vec3) :
  length (putvec b off v) = length b.
Proof.
  destruct v as [[v0 v1] v2]. unfold putvec. now rewrite !store_length.
Qed.

Lemma vertex_scratch (hasColor : bool) (v : MeshVertex) (b : bytes) :
  length b = 40%nat ->
  firstn (Z.to_nat (if hasColor then nColor else nVertex)) (putVertex hasColor v b)
  = vertexRecord hasColor v.
Proof.
  intros H. explode b H.
  destruct v as [[[p0 p1] p2] [[n0 n1] n2] [[t0 t1] t2] [[[c0 c1] c2] c3]].
  destruct hasColor; reflexivity.
Qed.

Lemma face_scratch (f : MeshFace) (b : bytes) :
  length b = 40%nat -> firstn (Z.to_nat nFace) (putFace f b) = faceRecord f.
Proof. intros H. explode b H. destruct f as [[f0 f1] f2]. reflexivity. Qed.

Lemma putVertex_length (hasColor : bool) (v : MeshVertex) (b : bytes) :
  length (putVertex hasColor v b) = length b.
Proof.
  unfold putVertex. destruct hasColor; now rewrite ?store_length, !putvec_length.
Qed.

Lemma putFace_length (f : MeshFace) (b : bytes) : length (putFace f b) = length b.
Proof. destruct f as [[f0 f1] f2]. unfold putFace. now rewrite !store_length. Qed.

Lemma writeVertices_sink (hasColor : bool) (vs : list MeshVertex) (b o : bytes) (n : Z) :
  length b = 40%nat ->
  exists b',
    length b' = 40%nat /\
    writeVertices hasColor vs b (sink o) (int64 n) =
    (b', (sink (o ++ flat_map (vertexRecord hasColor) vs),
          int64 (n + len (flat_map (vertexRecord hasColor) vs)), None)).
Proof.
  revert b o n. induction vs as [|v vs IH]; intros b o n Hb.
  - exists b. cbn. now rewrite app_nil_r, Z.add_0_r.
  - cbn [writeVertices flat_map].
    rewrite (vertex_scratch hasColor v b Hb), Write_sink, int64_add_l.
    destruct (IH (putVertex hasColor v b) (o ++ vertexRecord hasColor v)
                 (n + len (vertexRecord hasColor v))) as [b' [Hb' Heq]].
    { now rewrite putVertex_length. }
    exists b'. split; [exact Hb'|]. rewrite Heq, <- app_assoc, len_app, Z.add_assoc.
    reflexivity.
Qed.

Lemma writeFaceRecords_sink (fs : list MeshFace) (b o : bytes) (n : Z) :
  length b = 40%nat ->
  writeFaceRecords fs b (sink o) (int64 n) =
  (sink (o ++ flat_map faceRecord fs), int64 (n + len (flat_map faceRecord fs)), None).
Proof.
  revert b o n. induction fs as [|f fs IH]; intros b o n Hb.
  - cbn. now rewrite app_nil_r, Z.add_0_r.
  - cbn [writeFaceRecords flat_map].
    rewrite (face_scratch f b Hb), Write_sink, int64_add_l, IH
      by now rewrite putFace_length.
    rewrite <- app_assoc, len_app, Z.add_assoc. reflexivity.
Qed.

Lemma WriteTo_binary_sink (hasColor : bool) (vs : list MeshVertex) (fs : list MeshFace)
    (o : bytes) :
  WriteTo (mkMesh Version2_00 hasColor vs fs) (sink o) =
  (sink (o ++ binaryImage hasColor vs fs), int64 (len (binaryImage hasColor vs fs)), None).
Proof.
  unfold WriteTo. rewrite Write_sink.
  cbn [Version_ HasColor Vertices Faces mkMesh].
  change ((Version2_00 =? Version1_00) || (Version2_00 =? Version1_01)) with false.
  change (Version2_00 =? Version2_00) with true. cbv iota.
  set (b := store _ 10 _).
  assert (Hb : length b = 40%nat).
  { subst b. destruct hasColor; now rewrite !store_length. }
  assert (Hh : firstn (Z.to_nat nHeader) b = headerRecord hasColor (len vs) (len fs)).
  { subst b. destruct hasColor; reflexivity. }
  rewrite Hh, Write_sink, int64_add_l.
  match goal with
  | |- context [writeVertices _ _ _ (sink ?o1) (int64 ?n1)] =>
      destruct (writeVertices_sink hasColor vs b o1 n1 Hb) as [b' [Hb' Heq]]
  end.
  rewrite Heq, writeFaceRecords_sink by exact Hb'.
  unfold binaryImage, signatureLine, str.
  rewrite <- !app_assoc, !len_app. do 3 f_equal. lia.
Qed.

(** ** Bytes and little-endian words *)

Lemma Z_of_byte_of_Z (z : Z) : Z_of_byte (byte_of_Z z) = z mod 256.
Proof.
  unfold Z_of_byte, byte_of_Z.
  assert (Hr : 0 <= z mod 256 < 256) by (apply Z.mod_pos_bound; lia).
  destruct (Byte.of_N (Z.to_N (z mod 256))) as [b|] eqn:Hb.
  - apply Byte.to_of_N in Hb. rewrite Hb. rewrite Z2N.id; lia.
  - apply Byte.of_N_None_iff in Hb. lia.
Qed.

Lemma Z_of_byte_range (b : byte) : 0 <= Z_of_byte b < 256.
Proof.
  unfold Z_of_byte. pose proof (Byte.to_N_bounded b). lia.
Qed.

Lemma Uint32_PutUint32 (v : Z) :
  0 <= v < 2 ^ 32 -> binary.Uint32 (binary.PutUint32 v) = v.
Proof.
  intros Hv. unfold binary.Uint32, binary.PutUint32. cbn [nth].
  rewrite !Z_of_byte_of_Z.
  change 256 with (2 ^ 8).
  apply Z.bits_inj'. intros k Hk.
  rewrite !Z.lor_spec, !Z.shiftl_spec by lia.
  destruct (Z.ltb_spec k 8).
  { rewrite Z.mod_pow2_bits_low by lia.
    rewrite !(Z.testbit_neg_r _ (k - _)) by lia.
    now rewrite !orb_false_r. }
  rewrite (Z.mod_pow2_bits_high v) by lia.
  destruct (Z.ltb_spec k 16).
  { rewrite Z.mod_pow2_bits_low, Z.shiftr_spec by lia.
    rewrite !(Z.testbit_neg_r _ (k - _)) by lia.
    rewrite !orb_false_r. cbn [orb]. f_equal. lia. }
  rewrite (Z.mod_pow2_bits_high _ 8 (k - 8)) by lia.
  destruct (Z.ltb_spec k 24).
  { rewrite Z.mod_pow2_bits_low, Z.shiftr_spec by lia.
    rewrite !(Z.testbit_neg_r _ (k - _)) by lia.
    rewrite !orb_false_r. cbn [orb]. f_equal. lia. }
  rewrite (Z.mod_pow2_bits_high _ 8 (k - 16)) by lia.
  destruct (Z.ltb_spec k 32).
  { rewrite Z.mod_pow2_bits_low, Z.shiftr_spec by lia.
    cbn [orb]. f_equal. lia. }
  rewrite (Z.mod_pow2_bits_high _ 8 (k - 24)) by lia.
  cbn [orb]. symmetry.
  apply Z.bits_above_log2; [lia|].
  destruct (Z.eq_dec v 0) as [->|Hnz]; [cbn; lia|].
  apply Z.log2_lt_pow2; [lia|].
  apply Z.lt_le_trans with (2 ^ 32); [lia|].
  apply Z.pow_le_mono_r; lia.
Qed.

Lemma uint32_range (z : Z) : 0 <= uint32 z < 2 ^ 32.
Proof. unfold uint32. apply Z.mod_pos_bound. lia. Qed.

(** ** No writer makes the binary encoder report an index *)

Lemma Write_error (w : io.Writer) (p : bytes) : writerError (snd (io.Write w p)).
Proof.
  unfold io.Write. destruct (io.room w) as [k|]; [|now left].
  destruct (length p <=? k)%nat; [now left | now right].
Qed.

Lemma writeVertices_error (hasColor : bool) (vs : list MeshVertex) (b : bytes)
    (w : io.Writer) (n : Z) :
  writerError (snd (snd (writeVertices hasColor vs b w n))).
Proof.
  revert b w n. induction vs as [|v vs IH]; intros b w n; [now left|].
  cbn [writeVertices].
  pose proof (Write_error w
    (firstn (Z.to_nat (if hasColor then nColor else nVertex)) (putVertex hasColor v b))) as H.
  destruct (io.Write w _) as [[w' nn] [e|]]; [exact H | apply IH].
Qed.

Lemma writeFaceRecords_error (fs : list MeshFace) (b : bytes) (w : io.Writer) (n : Z) :
  writerError (snd (writeFaceRecords fs b w n)).
Proof.
  revert b w n. induction fs as [|f fs IH]; intros b w n; [now left|].
  cbn [writeFaceRecords].
  pose proof (Write_error w (firstn (Z.to_nat nFace) (putFace f b))) as H.
  destruct (io.Write w _) as [[w' nn] [e|]]; [exact H | apply IH].
Qed.

Lemma WriteTo_binary_error (hasColor : bool) (vs : list MeshVertex) (fs : list MeshFace)
    (w : io.Writer) :
  writerError (snd (WriteTo (mkMesh Version2_00 hasColor vs fs) w)).
Proof.
  unfold WriteTo. cbn [Version_ HasColor Vertices Faces mkMesh].
  pose proof (Write_error w (list_byte_of_string (Version_String Version2_00) ++ [newline])) as H1.
  destruct (io.Write w _) as [[w1 n1] [e1|]]; [exact H1|].
  change ((Version2_00 =? Version1_00) || (Version2_00 =? Version1_01)) with false.
  change (Version2_00 =? Version2_00) with true. cbv iota.
  set (b := store _ 10 _).
  pose proof (Write_error w1 (firstn (Z.to_nat nHeader) b)) as H2.
  destruct (io.Write w1 _) as [[w2 n2] [e2|]]; [exact H2|].
  pose proof (writeVertices_error hasColor vs b w2 (int64 (int64 (0 + n1) + n2))) as H3.
  destruct (writeVertices _ _ _ _ _) as [b' [[w3 n3] [e3|]]]; [exact H3|].
  apply writeFaceRecords_error.
Qed.

Lemma WriteTo_unknown_version (m : Mesh) (o : bytes) :
  Version_ m <> Version1_00 -> Version_ m <> Version1_01 -> Version_ m <> Version2_00 ->
  WriteTo m (sink o) = (sink (o ++ str "version x.xx" ++ [newline]), 0, Some ErrUnknownVersion).
Proof.
  intros H0 H1 H2. unfold WriteTo, Version_String.
  apply Z.eqb_neq in H0, H1, H2. rewrite H0, H1, H2, Write_sink. reflexivity.
Qed.

(** ** The buffered reader *)

Lemma IndexByte_app (a l : bytes) (c : byte) (i : nat) :
  bufio.IndexByte a c = Some i -> bufio.IndexByte (a ++ l) c = Some i.
Proof.
  revert i. induction a as [|x a IH]; intros i H; [discriminate|].
  cbn in *. destruct (Byte.eqb x c); [exact H|].
  destruct (bufio.IndexByte a c) as [j|]; [|discriminate].
  now rewrite (IH j eq_refl).
Qed.

Lemma IndexByte_lt (a : bytes) (c : byte) (i : nat) :
  bufio.IndexByte a c = Some i -> (i < length a)%nat.
Proof.
  revert i. induction a as [|x a IH]; intros i H; [discriminate|].
  cbn in *. destruct (Byte.eqb x c).
  - injection H as <-. lia.
  - destruct (bufio.IndexByte a c) as [j|]; [|discriminate].
    injection H as <-. specialize (IH j eq_refl). lia.
Qed.

Lemma firstn_prefix {A : Type} (k : nat) (a l : list A) :
  (length a <= k)%nat -> firstn k (a ++ l) = a ++ firstn (k - length a) l.
Proof.
  intros H. rewrite firstn_app, firstn_all2 by lia. reflexivity.
Qed.

Lemma int64_len_firstn (k : nat) (l : bytes) :
  (k <= bufio.defaultBufSize)%nat ->
  int64 (0 + len (firstn k l)) = Z.min (len l) (Z.of_nat k).
Proof.
  intros Hk. unfold len. rewrite length_firstn.
  assert (Hs : Z.of_nat bufio.defaultBufSize = 4096) by reflexivity.
  rewrite int64_small by lia. lia.
Qed.

Lemma fillLoop_S (i : nat) (b : bufio.Reader) :
  bufio.fillLoop (S i) b =
  let '(p, e, rd') :=
    readReporter.Read (bufio.rd b) (bufio.defaultBufSize - bufio.Buffered b) in
  let b' := {| bufio.buf := bufio.buf b ++ p; bufio.rd := rd'; bufio.err := bufio.err b |} in
  match e with
  | Some _ => {| bufio.buf := bufio.buf b'; bufio.rd := rd'; bufio.err := e |}
  | None => if (0 <? length p)%nat then b' else bufio.fillLoop i b'
  end.
Proof. reflexivity. Qed.

Lemma ReadSliceLoop_eq (fuel : nat) (b : bufio.Reader) (delim : byte) :
  bufio.ReadSliceLoop fuel b delim =
  match bufio.IndexByte (bufio.buf b) delim with
  | Some i =>
      (firstn (S i) (bufio.buf b), None,
       {| bufio.buf := skipn (S i) (bufio.buf b); bufio.rd := bufio.rd b;
          bufio.err := bufio.err b |})
  | None =>
      match bufio.err b with
      | Some e =>
          (bufio.buf b, Some e, {| bufio.buf := []; bufio.rd := bufio.rd b; bufio.err := None |})
      | None =>
          if (bufio.defaultBufSize <=? bufio.Buffered b)%nat
          then (bufio.buf b, Some bufio.ErrBufferFull,
                {| bufio.buf := []; bufio.rd := bufio.rd b; bufio.err := None |})
          else
            match fuel with
            | O => (bufio.buf b, Some io.ErrNoProgress, b)
            | S fuel' => bufio.ReadSliceLoop fuel' (bufio.fill b) delim
            end
      end
  end.
Proof. destruct fuel; reflexivity. Qed.

(** One [fill] of a buffer that has room, from a reader that has bytes. *)
Lemma fill_data (b : bufio.Reader) (c : byte) (r' : bytes) :
  readReporter.r (bufio.rd b) = c :: r' ->
  (bufio.Buffered b < bufio.defaultBufSize)%nat ->
  bufio.fill b =
  let k := (bufio.defaultBufSize - bufio.Buffered b)%nat in
  {| bufio.buf := bufio.buf b ++ firstn k (c :: r');
     bufio.rd := {| readReporter.r := skipn k (c :: r');
                    readReporter.n :=
                      int64 (readReporter.n (bufio.rd b) + len (firstn k (c :: r'))) |};
     bufio.err := bufio.err b |}.
Proof.
  intros Hr Hroom. unfold bufio.fill.
  change bufio.maxConsecutiveEmptyReads with (S 99).
  rewrite fillLoop_S. unfold readReporter.Read, io.Read. rewrite Hr.
  destruct (bufio.defaultBufSize - bufio.Buffered b)%nat as [|k] eqn:Hk; [lia|].
  reflexivity.
Qed.

(** One [fill] from a reader that has nothing left. *)
Lemma fill_eof (b : bufio.Reader) :
  readReporter.r (bufio.rd b) = [] ->
  bufio.fill b =
  {| bufio.buf := bufio.buf b ++ [];
     bufio.rd := {| readReporter.r := [];
                    readReporter.n := int64 (readReporter.n (bufio.rd b) + len (@nil byte)) |};
     bufio.err := Some io.EOF |}.
Proof.
  intros Hr. unfold bufio.fill.
  change bufio.maxConsecutiveEmptyReads with (S 99).
  rewrite fillLoop_S. unfold readReporter.Read, io.Read. rewrite Hr. reflexivity.
Qed.

(** The first [ReadLine] of a decoder: the raw line [raw], newline included,
    is in the first bufferful. *)
Lemma ReadLine_first (raw rest : bytes) :
  bufio.IndexByte raw x0a = Some (pred (length raw)) ->
  (length raw <= bufio.defaultBufSize)%nat ->
  bufio.ReadLine (bufio.NewReader {| readReporter.r := raw ++ rest; readReporter.n := 0 |}) =
  (bufio.dropEOL raw, false, None,
   {| bufio.buf := firstn (bufio.defaultBufSize - length raw) rest;
      bufio.rd := {| readReporter.r := skipn bufio.defaultBufSize (raw ++ rest);
                     readReporter.n := Z.min (len (raw ++ rest)) 4096 |};
      bufio.err := None |}).
Proof.
  intros Hidx Hlen.
  pose proof (IndexByte_lt _ _ _ Hidx) as Hpos.
  destruct raw as [|c raw]; [cbn in Hpos; lia|].
  unfold bufio.ReadLine, bufio.ReadSlice, bufio.NewReader.
  rewrite ReadSliceLoop_eq.
  cbn [bufio.buf bufio.err bufio.IndexByte bufio.Buffered length].
  change (bufio.defaultBufSize <=? 0)%nat with false. cbv iota.
  rewrite (fill_data _ c (raw ++ rest))
    by first [reflexivity | cbn [bufio.Buffered bufio.buf length]; unfold bufio.defaultBufSize; lia].
  cbn [bufio.Buffered bufio.buf bufio.rd bufio.err length readReporter.n app].
  rewrite Nat.sub_0_r.
  change (c :: raw ++ rest) with ((c :: raw) ++ rest).
  rewrite (firstn_prefix _ (c :: raw) rest Hlen).
  rewrite ReadSliceLoop_eq. cbn [bufio.buf bufio.rd bufio.err].
  rewrite (IndexByte_app _ _ _ _ Hidx).
  replace (S (pred (length (c :: raw)))) with (length (c :: raw)) by (cbn; lia).
  rewrite firstn_app, Nat.sub_diag, firstn_all, firstn_O, app_nil_r.
  rewrite skipn_app, Nat.sub_diag, skipn_all, skipn_O. cbn [app].
  cbn [bufio.isErr].
  change (c :: raw ++ firstn (bufio.defaultBufSize - length (c :: raw)) rest)
    with ((c :: raw) ++ firstn (bufio.defaultBufSize - length (c :: raw)) rest).
  rewrite <- (firstn_prefix _ (c :: raw) rest Hlen).
  rewrite int64_len_firstn by lia.
  reflexivity.
Qed.

(** ** The binary decoder at the header *)

Lemma Read_buffered (b : bufio.Reader) (c : byte) (tl : bytes) (k : nat) :
  bufio.buf b = c :: tl ->
  bufio.Read b (S k) =
  (firstn (S k) (c :: tl), None,
   {| bufio.buf := skipn (S k) (c :: tl); bufio.rd := bufio.rd b; bufio.err := bufio.err b |}).
Proof. intros H. unfold bufio.Read. rewrite H. reflexivity. Qed.

Lemma readBinary_header_size (m : Mesh) (b : bufio.Reader) (h0 h1 : byte) (tl : bytes) :
  bufio.buf b = h0 :: h1 :: tl ->
  binary.Uint16 [h0; h1] <> nHeader ->
  readBinary m b = (m, BytesRead b, Some ErrHeaderSize).
Proof.
  intros Hb Hh. unfold readBinary.
  change (Z.to_nat nHeaderSize) with 2%nat.
  rewrite (Read_buffered b h0 (h1 :: tl) 1 Hb).
  cbn [firstn].
  change (slice (store (repeat x00 (Z.to_nat nColor)) 0 [h0; h1]) 0 2) with [h0; h1].
  apply Z.eqb_neq in Hh. rewrite Hh. reflexivity.
Qed.

Lemma readBinary_face_size (m : Mesh) (b : bufio.Reader)
    (h0 h1 sz fsz c0 c1 c2 c3 x y : byte) (tl : bytes) :
  bufio.buf b = h0 :: h1 :: sz :: fsz :: c0 :: c1 :: c2 :: c3 :: x :: y :: tl ->
  binary.Uint16 [h0; h1] = nHeader ->
  Z_of_byte sz = nVertex \/ Z_of_byte sz = nColor ->
  Z_of_byte fsz <> nFace ->
  readBinary m b =
  (setHasColor m (negb (Z_of_byte sz =? nVertex)), BytesRead b, Some ErrFaceSize).
Proof.
  intros Hb Hh Hsz Hf. unfold readBinary.
  change (Z.to_nat nHeaderSize) with 2%nat.
  rewrite (Read_buffered b h0 _ 1 Hb).
  cbn [firstn skipn].
  change (slice (store (repeat x00 (Z.to_nat nColor)) 0 [h0; h1]) 0 2) with [h0; h1].
  apply Z.eqb_eq in Hh. rewrite Hh.
  change (Z.to_nat (nHeader - nHeaderSize) - 2)%nat with 8%nat.
  rewrite (Read_buffered
             {| bufio.buf := sz :: fsz :: c0 :: c1 :: c2 :: c3 :: x :: y :: tl;
                bufio.rd := bufio.rd b; bufio.err := bufio.err b |}
             sz (fsz :: c0 :: c1 :: c2 :: c3 :: x :: y :: tl) 7 eq_refl).
  cbn [firstn skipn].
  change (nth 2 (store (store (repeat x00 (Z.to_nat nColor)) 0 [h0; h1]) 2
                       [sz; fsz; c0; c1; c2; c3; x; y]) x00) with sz.
  change (nth 3 (store (store (repeat x00 (Z.to_nat nColor)) 0 [h0; h1]) 2
                       [sz; fsz; c0; c1; c2; c3; x; y]) x00) with fsz.
  apply Z.eqb_neq in Hf. rewrite Hf.
  replace ((Z_of_byte sz =? nVertex) || (Z_of_byte sz =? nColor)) with true
    by (destruct Hsz as [-> | ->]; reflexivity).
  reflexivity.
Qed.

(** The decoder on an input that opens with the signature line of the binary
    format. *)
Lemma ReadFrom_binary (Fscanf : fmt.Scanner) (copy : Copy) (m : Mesh) (eol body : bytes) :
  lineEnd eol ->
  ReadFrom Fscanf copy m (str "version 2.00" ++ eol ++ body) =
  readBinary (stamped copy m Version2_00)
    {| bufio.buf := firstn (bufio.defaultBufSize - length (str "version 2.00" ++ eol)) body;
       bufio.rd :=
         {| readReporter.r := skipn bufio.defaultBufSize (str "version 2.00" ++ eol ++ body);
            readReporter.n := Z.min (len (str "version 2.00" ++ eol ++ body)) 4096 |};
       bufio.err := None |}.
Proof.
  intros Heol. unfold ReadFrom. rewrite app_assoc.
  rewrite ReadLine_first;
    [| destruct Heol as [-> | ->]; reflexivity
     | destruct Heol as [-> | ->]; cbn; unfold bufio.defaultBufSize; lia].
  replace (VersionFromString (bufio.dropEOL (str "version 2.00" ++ eol))) with Version2_00
    by (destruct Heol as [-> | ->]; reflexivity).
  destruct copy; reflexivity.
Qed.

Lemma firstn_cons2 {A : Type} (k : nat) (a b : A) (l : list A) :
  (2 <= k)%nat -> firstn k (a :: b :: l) = a :: b :: firstn (k - 2) l.
Proof.
  intros H. destruct k as [|[|k]]; try lia.
  replace (S (S k) - 2)%nat with k by lia. reflexivity.
Qed.

Lemma ReadFrom_header_size (Fscanf : fmt.Scanner) (copy : Copy) (m : Mesh)
    (eol : bytes) (h0 h1 : byte) (rest : bytes) :
  lineEnd eol ->
  binary.Uint16 [h0; h1] <> nHeader ->
  ReadFrom Fscanf copy m (str "version 2.00" ++ eol ++ h0 :: h1 :: rest) =
  (stamped copy m Version2_00,
   Z.min (len (str "version 2.00" ++ eol ++ h0 :: h1 :: rest)) 4096,
   Some ErrHeaderSize).
Proof.
  intros Heol Hh. rewrite ReadFrom_binary by exact Heol.
  rewrite firstn_cons2
    by (destruct Heol as [-> | ->]; cbn; unfold bufio.defaultBufSize; lia).
  erewrite readBinary_header_size; [reflexivity | reflexivity | exact Hh].
Qed.

(** What the binary decoder makes of what the binary encoder wrote: it takes
    the high byte of the 2-byte vertex size for the face size. *)
Lemma ReadFrom_binaryImage (Fscanf : fmt.Scanner) (copy : Copy) (m0 : Mesh)
    (hasColor : bool) (vs : list MeshVertex) (fs : list MeshFace) :
  ReadFrom Fscanf copy m0 (binaryImage hasColor vs fs) =
  (setHasColor (stamped copy m0 Version2_00) hasColor,
   Z.min (len (binaryImage hasColor vs fs)) 4096, Some ErrFaceSize).
Proof.
  unfold binaryImage, signatureLine, headerRecord, binary.PutUint16, binary.PutUint32.
  cbn [firstn app]. rewrite <- app_assoc.
  rewrite ReadFrom_binary by (left; reflexivity).
  change (bufio.defaultBufSize - length (str "version 2.00" ++ [newline]))%nat
    with (12 + 4071)%nat.
  cbn [app].
  match goal with
  | |- context [firstn (12 + 4071) (?b0 :: ?b1 :: ?b2 :: ?b3 :: ?b4 :: ?b5 :: ?b6
                                     :: ?b7 :: ?b8 :: ?b9 :: ?b10 :: ?b11 :: ?tl)] =>
      change (firstn (12 + 4071) (b0 :: b1 :: b2 :: b3 :: b4 :: b5 :: b6
                                     :: b7 :: b8 :: b9 :: b10 :: b11 :: tl))
        with (b0 :: b1 :: b2 :: b3 :: b4 :: b5 :: b6
                 :: b7 :: b8 :: b9 :: b10 :: b11 :: firstn 4071 tl)
  end.
  erewrite readBinary_face_size; [| reflexivity | reflexivity | | ].
  - destruct hasColor; reflexivity.
  - destruct hasColor; [right | left]; reflexivity.
  - destruct hasColor; discriminate.
Qed.

(** ** A line read from a buffer that holds bytes *)

Lemma fillLoop_buf (i : nat) (b : bufio.Reader) :
  exists p, bufio.buf (bufio.fillLoop i b) = bufio.buf b ++ p.
Proof.
  revert b. induction i as [|i IH]; intros b.
  - exists []. cbn. now rewrite app_nil_r.
  - rewrite fillLoop_S.
    destruct (readReporter.Read _ _) as [[p e] rd']. cbv zeta.
    destruct e as [e|].
    + exists p. reflexivity.
    + destruct (0 <? length p)%nat.
      * exists p. reflexivity.
      * destruct (IH {| bufio.buf := bufio.buf b ++ p; bufio.rd := rd';
                        bufio.err := bufio.err b |}) as [q Hq].
        exists (p ++ q). rewrite Hq. cbn. now rewrite app_assoc.
Qed.

Lemma ReadSliceLoop_head (fuel : nat) (b : bufio.Reader) (c : byte) (tl : bytes) :
  bufio.buf b = c :: tl ->
  exists t, fst (fst (bufio.ReadSliceLoop fuel b x0a)) = c :: t.
Proof.
  revert b tl. induction fuel as [|fuel IH]; intros b tl Hb.
  - rewrite ReadSliceLoop_eq, Hb.
    destruct (bufio.IndexByte (c :: tl) x0a) as [i|]; [now eexists|].
    destruct (bufio.err b); [now eexists|].
    destruct (bufio.defaultBufSize <=? _)%nat; now eexists.
  - rewrite ReadSliceLoop_eq, Hb.
    destruct (bufio.IndexByte (c :: tl) x0a) as [i|]; [now eexists|].
    destruct (bufio.err b); [now eexists|].
    destruct (bufio.defaultBufSize <=? _)%nat; [now eexists|].
    destruct (fillLoop_buf bufio.maxConsecutiveEmptyReads b) as [p Hp].
    apply (IH (bufio.fill b) (tl ++ p)).
    unfold bufio.fill. rewrite Hp, Hb. reflexivity.
Qed.

Lemma prefix_head {A : Type} (p s t : list A) (c : A) :
  p ++ s = c :: t -> p = [] \/ exists t', p = c :: t'.
Proof.
  destruct p as [|x p]; [now left|]. cbn. intros H. injection H as -> _. right. now eexists.
Qed.

Lemma dropEOL_prefix (raw : bytes) : exists s, raw = bufio.dropEOL raw ++ s.
Proof.
  unfold bufio.dropEOL.
  pose proof (rev_involutive raw) as Hr.
  destruct (rev raw) as [|x l].
  - exists []. now rewrite app_nil_r.
  - destruct x; try (exists []; now rewrite app_nil_r).
    destruct l as [|y front].
    + exists [x0a]. now rewrite <- Hr.
    + cbn [rev] in Hr.
      destruct y; try (exists [x0a]; cbn [rev]; now rewrite <- Hr).
      exists [x0d; x0a]. rewrite <- Hr. now rewrite <- app_assoc.
Qed.

Lemma dropEOL_head (raw t : bytes) (c : byte) :
  raw = c :: t -> bufio.dropEOL raw = [] \/ exists t', bufio.dropEOL raw = c :: t'.
Proof.
  intros Hraw. destruct (dropEOL_prefix raw) as [s Hs].
  rewrite Hraw in Hs at 1. symmetry in Hs. apply (prefix_head _ _ _ _ Hs).
Qed.

(** [ReadLine] on a buffer that holds at least the byte [c] returns without
    error, and the line it returns is empty or starts with [c]. *)
Lemma ReadLine_head (b : bufio.Reader) (c : byte) (tl : bytes) :
  bufio.buf b = c :: tl ->
  exists line pfx b',
    bufio.ReadLine b = (line, pfx, None, b')
    /\ (line = [] \/ exists t, line = c :: t).
Proof.
  intros Hb. unfold bufio.ReadLine, bufio.ReadSlice.
  destruct (ReadSliceLoop_head (S (S bufio.defaultBufSize)) b c tl Hb) as [t Ht].
  destruct (bufio.ReadSliceLoop _ b x0a) as [[raw e] b']. cbn [fst] in Ht. subst raw.
  destruct (bufio.isErr e bufio.ErrBufferFull).
  - destruct (rev (c :: t)) as [|x front] eqn:Hrev.
    + do 3 eexists. split; [reflexivity|]. right. now eexists.
    + apply (f_equal (@rev byte)) in Hrev. rewrite rev_involutive in Hrev. cbn in Hrev.
      symmetry in Hrev.
      destruct x; try (do 3 eexists; split; [reflexivity|]; right; now eexists).
      do 3 eexists. split; [reflexivity|]. apply (prefix_head _ _ _ _ Hrev).
  - do 3 eexists. split; [reflexivity|]. apply (dropEOL_head _ t c eq_refl).
Qed.

Lemma digitRun_head (line : bytes) (c : byte) :
  strconv.isDigit c = false ->
  line = [] \/ (exists t, line = c :: t) -> digitRun line = O.
Proof.
  intros Hc [-> | [t ->]]; [reflexivity|]. cbn. now rewrite Hc.
Qed.

(** ** The comparison [==] *)

Lemma SFcompare_finite_Eq (s1 s2 : bool) (m1 m2 : positive) (e1 e2 : Z) :
  SFcompare (S754_finite s1 m1 e1) (S754_finite s2 m2 e2) = Some Eq ->
  s1 = s2 /\ m1 = m2 /\ e1 = e2.
Proof.
  cbn. destruct s1, s2; try discriminate;
    destruct (Z.compare_spec e1 e2) as [He | He | He]; try discriminate; intros H;
    injection H as H.
  - apply (f_equal CompOpp) in H. rewrite CompOpp_involutive in H. cbn in H.
    apply Pos.compare_eq in H. auto.
  - apply Pos.compare_eq in H. auto.
Qed.

(** Two floats that compare equal are the same float or are both zero. *)
Lemma eqb_true (a b : math.float64) :
  math.eqb a b = true ->
  (exists s t, a = S754_zero s /\ b = S754_zero t) \/ (a = b /\ a <> S754_nan).
Proof.
  unfold math.eqb, SFeqb.
  destruct (SFcompare a b) as [[| |]|] eqn:Hc; try discriminate. intros _.
  destruct a as [s | s | | s m e], b as [t | t | | t n f];
    try (cbn in Hc; discriminate Hc);
    try (cbn in Hc; destruct s; discriminate Hc);
    try (cbn in Hc; destruct t; discriminate Hc).
  - left. now exists s, t.
  - right. destruct s, t; try (cbn in Hc; discriminate Hc); (split; [reflexivity|discriminate]).
  - apply SFcompare_finite_Eq in Hc. destruct Hc as (-> & -> & ->).
    right. split; [reflexivity|discriminate].
Qed.

Lemma eqb_zero (k : math.float64) (s t : bool) :
  math.eqb k (S754_zero s) = math.eqb k (S754_zero t).
Proof. destruct k as [u | u | | u m e]; try reflexivity; destruct u; reflexivity. Qed.

(** A float that compares equal to some float compares equal to itself. *)
Lemma eqb_refl_of (a b : math.float64) : math.eqb a b = true -> math.eqb b b = true.
Proof.
  intros H. destruct (eqb_true a b H) as [(s & t & -> & ->) | [-> _]]; [reflexivity|exact H].
Qed.

(** Floats that compare equal compare alike with every float. *)
Lemma eqb_cong (a b k : math.float64) :
  math.eqb a b = true -> math.eqb k a = math.eqb k b.
Proof.
  intros H. destruct (eqb_true a b H) as [(s & t & -> & ->) | [-> _]];
    [apply eqb_zero | reflexivity].
Qed.

Lemma vec3_eqb_refl_of (a b : vec3) : vec3_eqb a b = true -> vec3_eqb b b = true.
Proof.
  destruct a as [[a0 a1] a2], b as [[b0 b1] b2]. cbn.
  intros H. apply andb_true_iff in H. destruct H as [H H2].
  apply andb_true_iff in H. destruct H as [H0 H1].
  now rewrite (eqb_refl_of _ _ H0), (eqb_refl_of _ _ H1), (eqb_refl_of _ _ H2).
Qed.

Lemma vec3_eqb_cong (a b k : vec3) : vec3_eqb a b = true -> vec3_eqb k a = vec3_eqb k b.
Proof.
  destruct a as [[a0 a1] a2], b as [[b0 b1] b2], k as [[k0 k1] k2]. cbn.
  intros H. apply andb_true_iff in H. destruct H as [H H2].
  apply andb_true_iff in H. destruct H as [H0 H1].
  now rewrite (eqb_cong _ _ k0 H0), (eqb_cong _ _ k1 H1), (eqb_cong _ _ k2 H2).
Qed.

Lemma bytes_eqb_eq (a b : bytes) : bytes_eqb a b = true -> a = b.
Proof.
  revert b. induction a as [|x a IH]; intros [|y b] H; try discriminate; [reflexivity|].
  cbn in H. apply andb_true_iff in H. destruct H as [Hx Hab].
  apply Byte.byte_dec_bl in Hx. subst y. now rewrite (IH b Hab).
Qed.

Lemma bytes_eqb_refl (a : bytes) : bytes_eqb a a = true.
Proof.
  induction a as [|x a IH]; [reflexivity|]. cbn. rewrite IH.
  now rewrite (Byte.byte_dec_lb (eq_refl x)).
Qed.

Lemma MeshVertex_eqb_refl_of (a b : MeshVertex) :
  MeshVertex_eqb a b = true -> MeshVertex_eqb b b = true.
Proof.
  unfold MeshVertex_eqb. intros H.
  apply andb_true_iff in H. destruct H as [H Hc].
  apply andb_true_iff in H. destruct H as [H Ht].
  apply andb_true_iff in H. destruct H as [Hp Hn].
  rewrite (vec3_eqb_refl_of _ _ Hp), (vec3_eqb_refl_of _ _ Hn), (vec3_eqb_refl_of _ _ Ht).
  unfold Color_eqb. now rewrite bytes_eqb_refl.
Qed.

Lemma MeshVertex_eqb_cong (a b k : MeshVertex) :
  MeshVertex_eqb a b = true -> MeshVertex_eqb k a = MeshVertex_eqb k b.
Proof.
  unfold MeshVertex_eqb. intros H.
  apply andb_true_iff in H. destruct H as [H Hc].
  apply andb_true_iff in H. destruct H as [H Ht].
  apply andb_true_iff in H. destruct H as [Hp Hn].
  rewrite (vec3_eqb_cong _ _ (Position k) Hp), (vec3_eqb_cong _ _ (Normal k) Hn),
    (vec3_eqb_cong _ _ (Texture k) Ht).
  unfold Color_eqb in *. apply bytes_eqb_eq in Hc. now rewrite Hc.
Qed.

(** ** Positions in a list of vertices *)

Lemma position_range (vs : list MeshVertex) (c : MeshVertex) (i : Z) :
  position vs c = Some i -> 0 <= i < len vs.
Proof.
  revert i. induction vs as [|k vs IH]; intros i H; [discriminate|].
  cbn [position] in H. unfold len in *. cbn [length].
  destruct (MeshVertex_eqb k c).
  - injection H as <-. lia.
  - destruct (position vs c) as [j|]; [|discriminate].
    injection H as <-. specialize (IH j eq_refl). lia.
Qed.

Lemma position_app_found (vs ws : list MeshVertex) (c : MeshVertex) (i : Z) :
  position vs c = Some i -> position (vs ++ ws) c = Some i.
Proof.
  revert i. induction vs as [|k vs IH]; intros i H; [discriminate|].
  cbn [position app] in *. destruct (MeshVertex_eqb k c); [exact H|].
  destruct (position vs c) as [j|]; [|discriminate].
  now rewrite (IH j eq_refl).
Qed.

Lemma position_app_new (vs : list MeshVertex) (c : MeshVertex) :
  position vs c = None -> MeshVertex_eqb c c = true ->
  position (vs ++ [c]) c = Some (len vs).
Proof.
  intros H Hc. induction vs as [|k vs IH].
  - cbn. now rewrite Hc.
  - cbn [position app] in *. destruct (MeshVertex_eqb k c); [discriminate|].
    destruct (position vs c) as [j|]; [discriminate|].
    rewrite (IH eq_refl). unfold len. cbn [length]. f_equal. lia.
Qed.

Lemma position_occurs (vs : list MeshVertex) (c : MeshVertex) :
  occurs vs c = match position vs c with Some _ => true | None => false end.
Proof.
  induction vs as [|k vs IH]; [reflexivity|].
  unfold occurs in *. cbn [existsb position].
  destruct (MeshVertex_eqb k c); [reflexivity|]. cbn [orb]. rewrite IH.
  now destruct (position vs c).
Qed.

Lemma position_cong (vs : list MeshVertex) (a b : MeshVertex) :
  MeshVertex_eqb a b = true -> position vs a = position vs b.
Proof.
  intros H. induction vs as [|k vs IH]; [reflexivity|].
  cbn [position]. now rewrite (MeshVertex_eqb_cong a b k H), IH.
Qed.

Lemma position_first (vs : list MeshVertex) (c : MeshVertex) (i : Z) :
  position vs c = Some i ->
  exists v, nth_error vs (Z.to_nat i) = Some v /\ MeshVertex_eqb v c = true.
Proof.
  revert i. induction vs as [|k vs IH]; intros i H; [discriminate|].
  cbn [position] in H. destruct (MeshVertex_eqb k c) eqn:Hk.
  - injection H as <-. exists k. now split.
  - destruct (position vs c) as [j|] eqn:Hj; [|discriminate].
    injection H as <-. destruct (IH j eq_refl) as [v [Hv Hvc]].
    pose proof (position_range vs c j Hj).
    exists v. split; [|exact Hvc].
    replace (Z.to_nat (j + 1)) with (S (Z.to_nat j)) by lia. exact Hv.
Qed.

(** ** The map of the text decoder *)

Lemma lookup_position_from (verts : VertexMap) (c : MeshVertex) (off : Z) :
  (forall i v index, nth_error verts i = Some (v, index) -> index = off + Z.of_nat i) ->
  lookup verts c =
  match position (map fst verts) c with Some i => Some (off + i) | None => None end.
Proof.
  revert off. induction verts as [|[k index] verts IH]; intros off Hwf; [reflexivity|].
  cbn [lookup map fst position].
  pose proof (Hwf O k index eq_refl) as H0. cbn in H0.
  destruct (MeshVertex_eqb k c).
  - f_equal. lia.
  - rewrite (IH (off + 1)).
    + destruct (position (map fst verts) c); [f_equal; lia | reflexivity].
    + intros i v idx Hi. rewrite (Hwf (S i) v idx Hi). lia.
Qed.

Lemma lookup_position (verts : VertexMap) (c : MeshVertex) :
  wfMap verts -> lookup verts c = position (map fst verts) c.
Proof.
  intros Hwf. rewrite (lookup_position_from verts c 0).
  - now destruct (position (map fst verts) c).
  - intros i v idx Hi. now rewrite (Hwf i v idx Hi).
Qed.

Lemma wfMap_snoc (verts : VertexMap) (c : MeshVertex) :
  wfMap verts -> wfMap (verts ++ [(c, len verts)]).
Proof.
  intros Hwf i v idx Hi.
  destruct (Nat.lt_ge_cases i (length verts)) as [Hlt | Hge].
  - rewrite nth_error_app1 in Hi by exact Hlt. now apply (Hwf i v idx).
  - rewrite nth_error_app2 in Hi by exact Hge.
    destruct (i - length verts)%nat as [|d] eqn:Hd.
    + cbn in Hi. injection Hi as _ <-. unfold len. lia.
    + cbn in Hi. now destruct d.
Qed.

Lemma len_map {A B : Type} (f : A -> B) (l : list A) : len (map f l) = len l.
Proof. unfold len. now rewrite length_map. Qed.

(** What one lookup-or-insert does to a well-formed map. *)
Lemma intern_spec (verts verts' : VertexMap) (c : MeshVertex) (i : Z) :
  wfMap verts ->
  intern verts c = (verts', i) ->
  wfMap verts'
  /\ (exists ext, verts' = verts ++ ext)
  /\ 0 <= i < len verts'
  /\ map fst verts' = (if occurs (map fst verts) c then map fst verts
                       else map fst verts ++ [c])
  /\ (MeshVertex_eqb c c = true -> position (map fst verts') c = Some i).
Proof.
  intros Hwf. unfold intern. rewrite (lookup_position verts c Hwf), position_occurs.
  destruct (position (map fst verts) c) as [j|] eqn:Hj; intros H; injection H as <- <-.
  - pose proof (position_range _ _ _ Hj) as Hr. rewrite len_map in Hr.
    repeat split; try lia; try assumption; try (intros _; exact Hj).
    exists []. now rewrite app_nil_r.
  - repeat split.
    + now apply wfMap_snoc.
    + now eexists.
    + apply len_nonneg.
    + rewrite len_app. unfold len. cbn [length]. lia.
    + now rewrite map_app.
    + intros Hc. rewrite map_app. cbn [map fst].
      rewrite (position_app_new _ _ Hj Hc). now rewrite len_map.
Qed.

Lemma internAll_spec (cs : list MeshVertex) (verts verts' : VertexMap) (idx : list Z) :
  wfMap verts ->
  internAll verts cs = (verts', idx) ->
  wfMap verts'
  /\ (exists ext, verts' = verts ++ ext)
  /\ length idx = length cs
  /\ Forall (fun i => 0 <= i < len verts') idx
  /\ map fst verts' = firstOccurrences (map fst verts) cs
  /\ (forall j c, nth_error cs j = Some c -> MeshVertex_eqb c c = true ->
        exists k, nth_error idx j = Some k /\ position (map fst verts') c = Some k).
Proof.
  revert verts verts' idx. induction cs as [|c cs IH]; intros verts verts' idx Hwf H.
  - cbn in H. injection H as <- <-. repeat split; try assumption.
    + exists []. now rewrite app_nil_r.
    + constructor.
    + intros [|j] c H; discriminate H.
  - cbn [internAll] in H.
    destruct (intern verts c) as [verts1 i] eqn:Hi.
    destruct (internAll verts1 cs) as [verts2 rest] eqn:Hrest.
    injection H as <- <-.
    destruct (intern_spec _ _ _ _ Hwf Hi) as (Hwf1 & [e1 He1] & Hi1 & Hk1 & Hp1).
    destruct (IH _ _ _ Hwf1 Hrest) as (Hwf2 & [e2 He2] & Hl2 & Hr2 & Hk2 & Hp2).
    repeat split.
    + exact Hwf2.
    + exists (e1 ++ e2). now rewrite He2, He1, app_assoc.
    + cbn [length]. now rewrite Hl2.
    + constructor; [|exact Hr2].
      rewrite He2, len_app. pose proof (len_nonneg e2). lia.
    + cbn [firstOccurrences]. rewrite Hk2, Hk1.
      now destruct (occurs (map fst verts) c).
    + intros [|j] c' Hc' Hrefl.
      * cbn in Hc'. injection Hc' as <-. exists i. split; [reflexivity|].
        rewrite He2, map_app. apply position_app_found. now apply Hp1.
      * cbn [nth_error] in *. now apply Hp2.
Qed.

Lemma occurs_false (vs : list MeshVertex) (c v : MeshVertex) :
  occurs vs c = false -> In v vs -> MeshVertex_eqb v c = false.
Proof.
  unfold occurs. intros H Hin.
  destruct (MeshVertex_eqb v c) eqn:Hv; [|reflexivity].
  assert (Hex : existsb (fun k => MeshVertex_eqb k c) vs = true).
  { apply existsb_exists. now exists v. }
  congruence.
Qed.

Lemma distinct_snoc (vs : list MeshVertex) (c : MeshVertex) :
  distinct vs -> occurs vs c = false -> distinct (vs ++ [c]).
Proof.
  intros Hd Hc i j vi vj Hij Hi Hj.
  destruct (Nat.lt_ge_cases j (length vs)) as [Hlt | Hge].
  - rewrite nth_error_app1 in Hi, Hj by lia. now apply (Hd i j).
  - rewrite nth_error_app2 in Hj by exact Hge.
    destruct (j - length vs)%nat as [|d] eqn:Hd'; [|now destruct d].
    cbn in Hj. injection Hj as <-.
    rewrite nth_error_app1 in Hi by lia.
    apply (occurs_false vs c vi Hc). now apply nth_error_In with i.
Qed.

Lemma firstOccurrences_distinct (kept cs : list MeshVertex) :
  distinct kept -> distinct (firstOccurrences kept cs).
Proof.
  revert kept. induction cs as [|c cs IH]; intros kept Hd; [exact Hd|].
  cbn [firstOccurrences]. destruct (occurs kept c) eqn:Hc.
  - now apply IH.
  - apply IH. now apply distinct_snoc.
Qed.

Lemma distinct_nil : distinct [].
Proof. intros i j vi vj _ Hi. now destruct i. Qed.

(** ** The loops of the text decoder *)

Section TextLoops.
Variable Fscanf : fmt.Scanner.
Variable version : Version.

Lemma readCorner_ok (buf buf' : bufio.Reader) (verts verts' : VertexMap) (i : Z) :
  readCorner Fscanf version buf verts = (buf', verts', i, None) ->
  exists s, Fscanf buf = (buf', s, None) /\ intern verts (corner version s) = (verts', i).
Proof.
  unfold readCorner, intern.
  destruct (Fscanf buf) as [[b1 s] [e|]]; [discriminate|].
  destruct (lookup verts (corner version s)) eqn:Hl; intros H; injection H as <- <- <-;
    exists s; rewrite Hl; now split.
Qed.

Lemma readFace_ok (face face' : MeshFace) (buf buf' : bufio.Reader)
    (verts verts' : VertexMap) :
  readFace Fscanf version face buf verts = (face', buf', verts', None) ->
  exists c0 c1 c2,
    (forall n, scanCorners Fscanf version (3 + n) buf
               = c0 :: c1 :: c2 :: scanCorners Fscanf version n buf')
    /\ internAll verts [c0; c1; c2] = (verts', indices face').
Proof.
  unfold readFace. destruct face as [[f0 f1] f2].
  destruct (readCorner Fscanf version buf verts) as [[[b1 v1] i0] [e|]] eqn:H0;
    [discriminate|].
  destruct (readCorner Fscanf version b1 v1) as [[[b2 v2] i1] [e|]] eqn:H1;
    [discriminate|].
  destruct (readCorner Fscanf version b2 v2) as [[[b3 v3] i2] [e|]] eqn:H2;
    [discriminate|].
  intros H. injection H as <- <- <-.
  apply readCorner_ok in H0, H1, H2.
  destruct H0 as [s0 [Hs0 Hi0]], H1 as [s1 [Hs1 Hi1]], H2 as [s2 [Hs2 Hi2]].
  exists (corner version s0), (corner version s1), (corner version s2).
  split.
  - intros n. cbn [Nat.add scanCorners]. now rewrite Hs0, Hs1, Hs2.
  - cbn [internAll indices]. now rewrite Hi0, Hi1, Hi2.
Qed.

Lemma internAll_app (verts verts1 verts2 : VertexMap) (cs ds : list MeshVertex)
    (ks js : list Z) :
  internAll verts cs = (verts1, ks) ->
  internAll verts1 ds = (verts2, js) ->
  internAll verts (cs ++ ds) = (verts2, ks ++ js).
Proof.
  revert verts ks. induction cs as [|c cs IH]; intros verts ks H1 H2.
  - cbn in H1. injection H1 as <- <-. exact H2.
  - cbn [internAll app] in *.
    destruct (intern verts c) as [va i].
    destruct (internAll va cs) as [vb rest] eqn:Hb.
    injection H1 as <- <-.
    now rewrite (IH va rest Hb H2).
Qed.

Lemma readFaces_ok (faces faces' : list MeshFace) (buf buf' : bufio.Reader)
    (verts verts' : VertexMap) :
  readFaces Fscanf version faces buf verts = (faces', buf', verts', None) ->
  length faces' = length faces
  /\ length (scanCorners Fscanf version (3 * length faces) buf) = (3 * length faces)%nat
  /\ internAll verts (scanCorners Fscanf version (3 * length faces) buf)
     = (verts', flat_map indices faces').
Proof.
  revert faces' buf buf' verts verts'.
  induction faces as [|face faces IH]; intros faces' buf buf' verts verts' H.
  - cbn in H. injection H as <- <- <-. now repeat split.
  - cbn [readFaces] in H.
    destruct (readFace Fscanf version face buf verts) as [[[face1 b1] v1] [e|]] eqn:Hf;
      [discriminate|].
    destruct (readFaces Fscanf version faces b1 v1) as [[[rest b2] v2] e2] eqn:Hr.
    injection H as <- <- <- ->.
    destruct (readFace_ok _ _ _ _ _ _ Hf) as (c0 & c1 & c2 & Hscan & Hint).
    destruct (IH _ _ _ _ _ Hr) as (Hlen & Hcs & Hall).
    replace (3 * length (face :: faces))%nat with (3 + 3 * length faces)%nat
      by (cbn [length]; lia).
    rewrite Hscan. cbn [length flat_map]. repeat split.
    + now rewrite Hlen.
    + rewrite Hcs. lia.
    + change (c0 :: c1 :: c2 :: ?l) with ([c0; c1; c2] ++ l).
      now apply (internAll_app _ v1 _ _ _ _ _ Hint).
Qed.
End TextLoops.

(** ** The vertex list the text decoder builds from its map *)

Lemma setNth_app {A : Type} (a b : list A) (x y : A) :
  setNth (a ++ x :: b) (length a) y = a ++ y :: b.
Proof. induction a as [|z a IH]; [reflexivity|]. cbn. now rewrite IH. Qed.

Lemma rangeVerts_from (pre post : VertexMap) :
  wfMap (pre ++ post) ->
  fold_left (fun vs '(vert, index) => setNth vs (Z.to_nat index) vert) post
            (map fst pre ++ repeat zeroVertex (length post))
  = map fst (pre ++ post).
Proof.
  revert pre. induction post as [|[v index] post IH]; intros pre Hwf.
  - cbn. now rewrite !app_nil_r.
  - cbn [fold_left length repeat].
    assert (Hi : index = Z.of_nat (length pre)).
    { apply (Hwf (length pre) v index). rewrite nth_error_app2 by lia.
      now rewrite Nat.sub_diag. }
    subst index. rewrite Nat2Z.id.
    assert (Hset : setNth (map fst pre ++ zeroVertex :: repeat zeroVertex (length post))
                          (length pre) v
                   = map fst pre ++ v :: repeat zeroVertex (length post)).
    { rewrite <- (length_map fst pre). apply setNth_app. }
    rewrite Hset.
    change (map fst pre ++ v :: repeat zeroVertex (length post))
      with (map fst pre ++ [v] ++ repeat zeroVertex (length post)).
    rewrite app_assoc.
    change (map fst pre ++ [v])
      with (map fst pre ++ map fst [(v, Z.of_nat (length pre))]).
    rewrite <- map_app, IH by (now rewrite <- app_assoc).
    now rewrite <- app_assoc.
Qed.

Lemma rangeVerts_wf (verts : VertexMap) : wfMap verts -> rangeVerts verts = map fst verts.
Proof. intros Hwf. apply (rangeVerts_from [] verts Hwf). Qed.

Lemma wfMap_nil : wfMap [].
Proof. intros i v index H. now destruct i. Qed.

(** ** The text decoder as a whole *)

Section TextDecoder.
Variable Fscanf : fmt.Scanner.

Lemma ReadFrom_text (copy : Copy) (m : Mesh) (r : io.Reader) (v : Version) :
  sniff r = Some v ->
  v = Version1_00 \/ v = Version1_01 ->
  ReadFrom Fscanf copy m r = readText Fscanf copy v (stamped copy m v) (afterSignature r).
Proof.
  unfold sniff, ReadFrom, afterSignature, open.
  destruct (bufio.ReadLine _) as [[[line pfx] [e|]] b1]; [discriminate|].
  intros H Hv. injection H as ->.
  replace ((v =? Version1_00) || (v =? Version1_01)) with true
    by (destruct Hv as [-> | ->]; reflexivity).
  now destruct copy.
Qed.

(** What a text decode that succeeds leaves in the mesh, in terms of the
    reader [b2] it scans the corners from. *)
Lemma readText_success (copy : Copy) (v : Version) (m m' : Mesh)
    (b : bufio.Reader) (n : Z) :
  readText Fscanf copy v m b = (m', n, None) ->
  let b2 := let '(_, _, _, buf) := bufio.ReadLine b in buf in
  let cs := scanCorners Fscanf v (3 * length (Faces m')) b2 in
  exists verts,
    length cs = (3 * length (Faces m'))%nat
    /\ internAll [] cs = (verts, faceIndices m')
    /\ Vertices m' = rangeVerts verts
    /\ HasColor m' = match copy with Part000 => false | MeshGo => HasColor m end
    /\ Version_ m' = Version_ m.
Proof.
  unfold readText.
  destruct (bufio.ReadLine b) as [[[line pfx] [e|]] b2]; [discriminate|].
  destruct (strconv.Atoi _) as [k ek].
  cbn [Faces setFaces].
  destruct (readFaces Fscanf v (repeat zeroFace (Z.to_nat k)) b2 [])
    as [[[faces b3] verts] [e|]] eqn:Hrf; [discriminate|].
  intros H. injection H as <- _. cbv zeta. cbn [Faces Vertices HasColor Version_
    setFaces setVertices setHasColor].
  destruct (readFaces_ok _ _ _ _ _ _ _ _ Hrf) as (Hlen & Hcs & Hall).
  rewrite <- Hlen in Hcs, Hall.
  exists verts. unfold faceIndices. cbn [Faces].
  repeat split; try assumption; now destruct copy.
Qed.

(** What a decode of a text input that succeeds leaves in the mesh. *)
Lemma ReadFrom_text_success (copy : Copy) (m0 m : Mesh) (r : io.Reader)
    (v : Version) (n : Z) :
  sniff r = Some v ->
  v = Version1_00 \/ v = Version1_01 ->
  ReadFrom Fscanf copy m0 r = (m, n, None) ->
  let cs := cornerStream Fscanf r (3 * length (Faces m)) in
  exists verts,
    wfMap verts
    /\ length cs = (3 * length (Faces m))%nat
    /\ internAll [] cs = (verts, faceIndices m)
    /\ Vertices m = map fst verts
    /\ HasColor m = match copy with Part000 => false | MeshGo => HasColor m0 end.
Proof.
  intros Hs Hv H. rewrite (ReadFrom_text copy m0 r v Hs Hv) in H.
  destruct (readText_success _ _ _ _ _ _ H) as (verts & Hlen & Hall & Hvs & Hc & _).
  unfold cornerStream, body. rewrite Hs. cbv zeta.
  destruct (internAll_spec _ _ _ _ wfMap_nil Hall) as (Hwf & _).
  exists verts. repeat split; try assumption.
  - now rewrite Hvs, rangeVerts_wf.
  - rewrite Hc. now destruct copy.
Qed.
End TextDecoder.

(** ** The loop of [ReadSlice] ends within its fuel *)

Lemma fill_passes (b : bufio.Reader) :
  bufio.err b = None ->
  (bufio.Buffered b < bufio.defaultBufSize)%nat ->
  (passes (bufio.fill b) < passes b)%nat.
Proof.
  intros He Hroom. unfold passes at 2. rewrite He.
  destruct (readReporter.r (bufio.rd b)) as [|c r'] eqn:Hr.
  - rewrite (fill_eof b Hr). unfold passes. cbn [bufio.err]. lia.
  - rewrite (fill_data b c r' Hr Hroom). cbv zeta. unfold passes, bufio.Buffered.
    cbn [bufio.err bufio.buf]. rewrite He, length_app, length_firstn.
    cbn [length]. unfold bufio.Buffered in Hroom. lia.
Qed.

Lemma ReadSliceLoop_fuel (fuel1 fuel2 : nat) (b : bufio.Reader) (delim : byte) :
  (passes b <= fuel1)%nat -> (passes b <= fuel2)%nat ->
  bufio.ReadSliceLoop fuel1 b delim = bufio.ReadSliceLoop fuel2 b delim.
Proof.
  revert fuel2 b. induction fuel1 as [|fuel1 IH]; intros fuel2 b H1 H2;
    rewrite (ReadSliceLoop_eq _ b), (ReadSliceLoop_eq fuel2 b);
    destruct (bufio.IndexByte (bufio.buf b) delim); try reflexivity;
    destruct (bufio.err b) eqn:He; try reflexivity;
    destruct (bufio.defaultBufSize <=? bufio.Buffered b)%nat eqn:Hfull; try reflexivity;
    apply Nat.leb_gt in Hfull;
    pose proof (fill_passes b He Hfull) as Hp.
  - lia.
  - destruct fuel2 as [|fuel2]; [lia|]. apply IH; lia.
Qed.

(** More fuel than [ReadSlice] gives its loop changes nothing. *)
Lemma ReadSlice_fuel (fuel : nat) (b : bufio.Reader) (delim : byte) :
  (S (S bufio.defaultBufSize) <= fuel)%nat ->
  bufio.ReadSliceLoop fuel b delim = bufio.ReadSlice b delim.
Proof.
  intros H. unfold bufio.ReadSlice.
  assert (Hp : (passes b <= S bufio.defaultBufSize)%nat).
  { unfold passes. destruct (bufio.err b); lia. }
  apply ReadSliceLoop_fuel; lia.
Qed.

(** ** The order in which the map is ranged over does not matter *)

Lemma setNth_comm {A : Type} (l : list A) (i j : nat) (x y : A) :
  i <> j -> setNth (setNth l i x) j y = setNth (setNth l j y) i x.
Proof.
  revert i j. induction l as [|z l IH]; intros i j Hij; [now destruct i, j|].
  destruct i as [|i], j as [|j]; try reflexivity; [lia|].
  cbn [setNth]. f_equal. apply IH. lia.
Qed.

Lemma range_Permutation (es es' : VertexMap) :
  Permutation es es' ->
  NoDup (map (fun e => Z.to_nat (snd e)) es) ->
  forall init,
    fold_left (fun vs '(vert, index) => setNth vs (Z.to_nat index) vert) es init
    = fold_left (fun vs '(vert, index) => setNth vs (Z.to_nat index) vert) es' init.
Proof.
  induction 1 as [| [v i] l l' Hp IH | [v i] [w j] l | l l' l'' Hp1 IH1 Hp2 IH2];
    intros Hnd init.
  - reflexivity.
  - cbn [fold_left]. apply IH. now inversion Hnd.
  - cbn [fold_left]. f_equal. apply setNth_comm.
    cbn [map snd] in Hnd. inversion Hnd as [|? ? Hnotin _]. subst.
    intros Heq. apply Hnotin. left. now symmetry.
  - rewrite IH1 by exact Hnd. apply IH2.
    apply (Permutation_NoDup (l := map (fun e => Z.to_nat (snd e)) l));
      [now apply Permutation_map | exact Hnd].
Qed.

Lemma wfMap_indices_from (verts : VertexMap) (off : nat) :
  (forall i v index, nth_error verts i = Some (v, index) -> index = Z.of_nat (off + i)) ->
  map (fun e => Z.to_nat (snd e)) verts = seq off (length verts).
Proof.
  revert off. induction verts as [|[v index] verts IH]; intros off Hwf; [reflexivity|].
  cbn [map snd length seq]. f_equal.
  - rewrite (Hwf O v index eq_refl). lia.
  - apply IH. intros i w idx Hi. rewrite (Hwf (S i) w idx Hi). f_equal. lia.
Qed.

(** Whatever the order in which the entries of a well-formed map are visited,
    the last loop of the text decoder builds the same vertex list. *)
Lemma rangeVerts_Permutation (verts es : VertexMap) :
  wfMap verts ->
  Permutation es verts ->
  fold_left (fun vs '(vert, index) => setNth vs (Z.to_nat index) vert) es
            (repeat zeroVertex (length verts))
  = rangeVerts verts.
Proof.
  intros Hwf Hp. unfold rangeVerts. apply range_Permutation; [exact Hp|].
  apply (Permutation_NoDup (l := map (fun e => Z.to_nat (snd e)) verts)).
  - apply Permutation_map. now apply Permutation_sym.
  - rewrite (wfMap_indices_from verts 0); [apply seq_NoDup|].
    intros i v index Hi. now rewrite (Hwf i v index Hi).
Qed.

(** ** The loops of the scanner end within their fuel *)

Lemma fill_pending (b : bufio.Reader) :
  (bufio.Buffered b < bufio.defaultBufSize)%nat ->
  bufio.pending (bufio.fill b) = bufio.pending b.
Proof.
  intros Hroom. unfold bufio.pending.
  destruct (readReporter.r (bufio.rd b)) as [|c r'] eqn:Hr.
  - rewrite (fill_eof b Hr). cbn [bufio.buf bufio.rd readReporter.r].
    now rewrite app_nil_r.
  - rewrite (fill_data b c r' Hr Hroom). cbv zeta.
    cbn [bufio.buf bufio.rd readReporter.r].
    rewrite length_app, <- Nat.add_assoc, <- length_app, firstn_skipn. reflexivity.
Qed.

Lemma ReadRune_pending (b b' : bufio.Reader) (c : byte) (e : option error) :
  bufio.ReadRune b = (Some c, e, b') -> bufio.pending b = S (bufio.pending b').
Proof.
  unfold bufio.ReadRune.
  assert (Hf : forall b0, bufio.pending
             (match bufio.buf b0, bufio.err b0 with
              | [], None => bufio.fill b0
              | _, _ => b0
              end) = bufio.pending b0).
  { intros b0. destruct (bufio.buf b0) eqn:Hb; [|reflexivity].
    destruct (bufio.err b0); [reflexivity|].
    apply fill_pending. unfold bufio.Buffered. rewrite Hb.
    unfold bufio.defaultBufSize. cbn [length]. lia. }
  rewrite <- (Hf b).
  destruct (match bufio.buf b, bufio.err b with
            | [], None => bufio.fill b
            | _, _ => b
            end) as [bf rdr er].
  cbn [bufio.buf bufio.rd bufio.err]. destruct bf as [|x bf]; [discriminate|].
  intros H. injection H as <- _ <-. reflexivity.
Qed.

Lemma getRune_pending (st st' : bufio.Reader * bool) (c : byte) :
  fmt.getRune st = (inl (Some c), st') ->
  bufio.pending (fst st) = S (bufio.pending (fst st')).
Proof.
  destruct st as [b atEOF]. unfold fmt.getRune.
  destruct atEOF; [discriminate|].
  destruct (bufio.ReadRune b) as [[[x|] e] b1] eqn:Hr.
  - intros H. injection H as <- <-. apply (ReadRune_pending _ _ _ _ Hr).
  - destruct e as [e|]; [|discriminate]. now destruct (errors.eqb e io.EOF).
Qed.

Lemma accept_pending (ok : string) (tok tok' : bytes) (st st' : bufio.Reader * bool) :
  fmt.accept ok tok st = (inl (true, tok'), st') ->
  bufio.pending (fst st) = S (bufio.pending (fst st')).
Proof.
  unfold fmt.accept, fmt.bind.
  destruct (fmt.getRune st) as [[[c|]|e] st1] eqn:Hg; try discriminate.
  destruct (fmt.member c ok).
  - intros H. injection H as _ <-. apply (getRune_pending _ _ _ Hg).
  - destruct st1 as [b1 f1]. discriminate.
Qed.

Lemma acceptLoop_fuel (fuel1 fuel2 : nat) (ok : string) (tok : bytes)
    (st : bufio.Reader * bool) :
  (bufio.pending (fst st) < fuel1)%nat -> (bufio.pending (fst st) < fuel2)%nat ->
  fmt.acceptLoop fuel1 ok tok st = fmt.acceptLoop fuel2 ok tok st.
Proof.
  revert fuel2 tok st. induction fuel1 as [|fuel1 IH]; intros fuel2 tok st H1 H2; [lia|].
  destruct fuel2 as [|fuel2]; [lia|].
  cbn [fmt.acceptLoop]. unfold fmt.bind.
  destruct (fmt.accept ok tok st) as [[[[|] tok']|e] st'] eqn:Ha; try reflexivity.
  pose proof (accept_pending _ _ _ _ _ Ha). apply IH; lia.
Qed.

Lemma peek_pending (ok : string) (st st' : bufio.Reader * bool) (x : bool) :
  fmt.peek ok st = (inl x, st') -> bufio.pending (fst st') = bufio.pending (fst st).
Proof.
  unfold fmt.peek, fmt.bind.
  destruct (fmt.getRune st) as [[[c|]|e] st1] eqn:Hg; try discriminate.
  - pose proof (getRune_pending _ _ _ Hg) as Hp. destruct st1 as [b1 f1].
    cbn [fmt.UnreadRune fmt.ret]. intros H. injection H as _ <-.
    rewrite Hp. reflexivity.
  - destruct st as [b [|]]; unfold fmt.getRune in Hg.
    + injection Hg as <-. intros H. now injection H as _ <-.
    + destruct (bufio.ReadRune b) as [[[y|] e] b1] eqn:Hr; [discriminate|].
      assert (Hb : bufio.pending b1 = bufio.pending b).
      { revert Hr. unfold bufio.ReadRune.
        destruct (bufio.buf b) as [|z bf] eqn:Hbuf.
        - destruct (bufio.err b) eqn:Herr.
          + rewrite Hbuf. intros H. injection H as _ <-.
            unfold bufio.pending. now rewrite Hbuf.
          + pose proof (fill_pending b) as Hf.
            destruct (bufio.fill b) as [fb frd fe]. cbn [bufio.buf bufio.rd bufio.err].
            destruct fb; [|discriminate]. intros H. injection H as _ <-.
            rewrite <- Hf; [reflexivity|].
            unfold bufio.Buffered. rewrite Hbuf. unfold bufio.defaultBufSize.
            cbn [length]. lia.
        - rewrite Hbuf. discriminate. }
      destruct e as [e|].
      * destruct (errors.eqb e io.EOF); [|discriminate].
        injection Hg as <-. intros H. now injection H as _ <-.
      * injection Hg as <-. intros H. now injection H as _ <-.
Qed.

Lemma SkipSpaceLoop_fuel (fuel1 fuel2 : nat) (st : bufio.Reader * bool) :
  (bufio.pending (fst st) < fuel1)%nat -> (bufio.pending (fst st) < fuel2)%nat ->
  fmt.SkipSpaceLoop fuel1 st = fmt.SkipSpaceLoop fuel2 st.
Proof.
  revert fuel2 st. induction fuel1 as [|fuel1 IH]; intros fuel2 st H1 H2; [lia|].
  destruct fuel2 as [|fuel2]; [lia|].
  cbn [fmt.SkipSpaceLoop]. unfold fmt.bind at 1 3.
  destruct (fmt.getRune st) as [[[c|]|e] st1] eqn:Hg; try reflexivity.
  pose proof (getRune_pending _ _ _ Hg) as Hp.
  destruct (Byte.eqb c x0d).
  - unfold fmt.bind.
    destruct (fmt.peek _ st1) as [[x|e] st2] eqn:Hpk; [|reflexivity].
    pose proof (peek_pending _ _ _ _ Hpk). apply IH; lia.
  - destruct (Byte.eqb c x0a); [reflexivity|].
    destruct (fmt.isSpace c); [|reflexivity]. apply IH; lia.
Qed.

(** ** The model at work *)

Example Version_String_unknown : Version_String VersionUnknown = "version x.xx"%string.
Proof. reflexivity. Qed.

Lemma VersionFromString_String (v : Version) :
  v = Version1_00 \/ v = Version1_01 \/ v = Version2_00 ->
  VersionFromString (str (Version_String v)) = v.
Proof. intros [-> | [-> | ->]]; reflexivity. Qed.

Example AppendUint_base_32 :
  strconv.AppendUint [] 9 32 = str "9"
  /\ strconv.AppendUint [] 10 32 = str "a"
  /\ strconv.AppendUint [] 1000 32 = str "v8"
  /\ strconv.AppendUint [] 1000 10 = str "1000".
Proof. repeat split. Qed.

Example Atoi_examples :
  strconv.Atoi (str "42") = (42, None)
  /\ strconv.Atoi [] = (0, Some strconv.ErrSyntax)
  /\ strconv.Atoi (str "9223372036854775808") = (maxInt64, Some strconv.ErrRange).
Proof. repeat split. Qed.

Example ParseFloat_examples :
  strconv.ParseFloat (str "0.1") = (S754_finite false 7205759403792794 (-56), None)
  /\ strconv.ParseFloat (str "-2.5e-1") = (S754_finite true 4503599627370496 (-54), None)
  /\ strconv.ParseFloat (str "NaN") = (S754_nan, None)
  /\ strconv.ParseFloat (str "1e400") = (S754_infinity false, Some strconv.ErrRange)
  /\ strconv.ParseFloat (str "1e") = (math.zero, Some strconv.ErrSyntax).
Proof. repeat split. Qed.

Example Float32bits_examples :
  math.Float32bits (math.to_float32 math.one) = 1065353216
  /\ math.Float32frombits 1065353216 = S754_finite false 8388608 (-23)
  /\ math.to_float64 (math.Float32frombits 1065353216) = math.one
  /\ math.Float32bits (math.to_float32 (fst (strconv.ParseFloat (str "0.1")))) = 1036831949.
Proof. repeat split. Qed.

Example fmtFloat_examples :
  fmt.fmtFloat (math.to_float32 math.half) = str "0.500000"
  /\ fmt.fmtFloat (math.to_float32 (fst (strconv.ParseFloat (str "0.1")))) = str "0.100000"
  /\ fmt.fmtFloat (math.to_float32 (fst (strconv.ParseFloat (str "-0.0078125")))) = str "-0.007812"
  /\ fmt.fmtFloat (math.to_float32 (fst (strconv.ParseFloat (str "16777217")))) = str "16777216.000000"
  /\ fmt.fmtFloat S754_nan = str "NaN".
Proof. repeat split. Qed.

Example WriteTo_text_example :
  WriteTo (mkMesh Version1_00 false [sampleVertex] [(0, 0, 0)]) (sink []) =
  (sink (str "version 1.00" ++ [newline] ++ str "1" ++ [newline]
         ++ str "[2.000000,4.000000,1.000000][0.000000,1.000000,0.000000][0.500000,0.000000,0.000000]"
         ++ str "[2.000000,4.000000,1.000000][0.000000,1.000000,0.000000][0.500000,0.000000,0.000000]"
         ++ str "[2.000000,4.000000,1.000000][0.000000,1.000000,0.000000][0.500000,0.000000,0.000000]"),
   267, None).
Proof. vm_compute. reflexivity. Qed.

Example ReadFrom_text_example :
  let '(m, n, e) := ReadFrom fmt.Fscanf Part000 usedMesh quadInput in
  e = None /\ n = len quadInput /\ Version_ m = Version1_01 /\ HasColor m = false
  /\ length (Vertices m) = 4%nat /\ Faces m = [(0, 1, 2); (1, 3, 2)].
Proof. vm_compute. repeat split. Qed.

(** A write to a full writer is cut short, and the count says by how much. *)
Example WriteTo_short_write :
  WriteTo (mkMesh Version1_01 false [] []) {| io.out := []; io.room := Some 5%nat |} =
  ({| io.out := str "versi"; io.room := Some O |}, 5, Some io.ErrShortWrite).
Proof. reflexivity. Qed.

(** The header the binary encoder writes, and what the binary decoder makes
    of the encoder's output. *)
Example binary_header_example :
  let '(w, n, e) := WriteTo (mkMesh Version2_00 true [sampleVertex] [(0, 0, 0)]) (sink []) in
  e = None /\ n = 77
  /\ firstn 25 (io.out w)
     = str "version 2.00"
       ++ [x0a; x0c; x00; x28; x00; x0c; x00; x01; x00; x00; x00; x01; x00]
  /\ ReadFrom fmt.Fscanf MeshGo (mkMesh Version2_00 false [] []) (io.out w)
     = (mkMesh Version2_00 true [] [], 77, Some ErrFaceSize).
Proof. vm_compute. repeat split. Qed.

(** Below ten the count line reads the same in base 32 and in base 10. *)
Lemma countLine_below_ten (m : Mesh) :
  len (Faces m) < 10 ->
  countLine m = strconv.AppendUint [] (len (Faces m)) 10 ++ [newline].
Proof.
  intros H. pose proof (len_nonneg (Faces m)) as H0.
  unfold countLine, strconv.AppendUint, strconv.FormatUint.
  cbn [strconv.formatBits app].
  destruct (Z.ltb_spec (len (Faces m)) 32); [|lia].
  destruct (Z.ltb_spec (len (Faces m)) 10); [|lia].
  reflexivity.
Qed.

(** ** The colour flag after a text decode *)

(** The copy of [part_000] clears the colour flag on the text path, the copy
    of [mesh.go] leaves it as the caller set it. *)
Lemma ReadFrom_text_color (Fscanf : fmt.Scanner) (copy : Copy) (m0 m : Mesh)
    (r : io.Reader) (v : Version) (n : Z) :
  sniff r = Some v ->
  v = Version1_00 \/ v = Version1_01 ->
  ReadFrom Fscanf copy m0 r = (m, n, None) ->
  HasColor m = match copy with Part000 => false | MeshGo => HasColor m0 end.
Proof.
  intros Hs Hv H.
  destruct (ReadFrom_text_success Fscanf copy m0 m r v n Hs Hv H) as (verts & _ & _ & _ & _ & Hc).
  exact Hc.
Qed.

(** * The claims *)

(** C1, which the code breaks: no binary mesh survives the round trip.  The
    encoder writes the vertex size and the face size as 2-byte fields, the
    decoder reads them as 1-byte fields of a 12-byte header; so on the bytes
    [WriteTo] has written for a version-2.00 mesh, whatever its vertices and
    faces, [ReadFrom] takes the high byte of the vertex size, 0, for the face
    size and fails with "unexpected face size", having set only the colour
    flag. *)
Theorem C1_binary_round_trip_fails_at_header
    (Fscanf : fmt.Scanner) (copy : Copy) (m0 : Mesh)
    (hasColor : bool) (vs : list MeshVertex) (fs : list MeshFace) :
  let '(w, n, e) := WriteTo (mkMesh Version2_00 hasColor vs fs) (sink []) in
  e = None
  /\ n = int64 (len (io.out w))
  /\ ReadFrom Fscanf copy m0 (io.out w) =
     (setHasColor (stamped copy m0 Version2_00) hasColor,
      Z.min (len (io.out w)) 4096, Some ErrFaceSize).
Proof.
  rewrite WriteTo_binary_sink. cbn [app io.out sink].
  split; [reflexivity|]. split; [reflexivity|].
  apply ReadFrom_binaryImage.
Qed.

(** C2, which the code breaks: the face count is written in base 32, not in
    decimal.  A version-1.01 mesh of ten faces gets the count line [a], where
    the specification wants [10]; and so does the decoder, which reads a run
    of decimal digits: it takes what the encoder wrote for a mesh with no
    face. *)
Theorem C2_face_count_is_written_in_base_32 :
  let m := mkMesh Version1_01 false [sampleVertex] (repeat (0, 0, 0) 10) in
  countLine m = str "a" ++ [newline]
  /\ countLine m <> str "10" ++ [newline]
  /\ (exists corners,
        WriteTo m (sink []) =
        (sink (signatureLine Version1_01 ++ str "a" ++ [newline] ++ corners),
         int64 (len (signatureLine Version1_01 ++ str "a" ++ [newline] ++ corners)), None))
  /\ (let '(w, _, _) := WriteTo m (sink []) in
      let '(m', _, e) := ReadFrom fmt.Fscanf MeshGo usedMesh (io.out w) in
      e = None /\ Faces m' = [] /\ Vertices m' = []).
Proof.
  cbv zeta. split; [reflexivity|]. split; [discriminate|]. split.
  - eexists. rewrite WriteTo_text_sink by (right; reflexivity).
    cbv zeta. cbn [app Version_ mkMesh].
    change (countLine _) with (str "a" ++ [newline]).
    rewrite <- !app_assoc. reflexivity.
  - vm_compute. repeat split.
Qed.

(** C3 as the specification states it fails on a vertex with a NaN: the map
    of the decoder compares keys with [==], under which a NaN differs from
    itself, so such a vertex is never found again.  The three corners of
    [nanInput] have the same content and get the three indices 0, 1, 2 and
    three entries in the vertex list. *)
Lemma C3_counterexample : ~ dedup_as_stated fmt.Fscanf MeshGo usedMesh nanInput.
Proof.
  intros H.
  specialize (H (fst (fst (ReadFrom fmt.Fscanf MeshGo usedMesh nanInput)))
                (snd (fst (ReadFrom fmt.Fscanf MeshGo usedMesh nanInput)))).
  assert (Hres : ReadFrom fmt.Fscanf MeshGo usedMesh nanInput =
                 (fst (fst (ReadFrom fmt.Fscanf MeshGo usedMesh nanInput)),
                  snd (fst (ReadFrom fmt.Fscanf MeshGo usedMesh nanInput)), None))
    by (vm_compute; reflexivity).
  specialize (H Hres O 1%nat
                {| Position := (S754_nan, math.zero, math.zero);
                   Normal := (math.zero, math.zero, math.one);
                   Texture := (math.zero, math.one, math.zero);
                   Color := (x00, x00, x00, x00) |}).
  cbv zeta in H.
  assert (H0 : Some 0 = Some 1); [|discriminate H0].
  apply H; vm_compute; reflexivity.
Qed.

(** C3, amended: a text decode that succeeds deduplicates vertices by the
    equality [==] of all components, under which the two zeros are equal and
    a NaN differs from itself.  The vertex list is the corner stream with
    every corner left out that is [==] to a vertex already kept, so it is in
    the order of first occurrence and no two of its entries are [==]; every
    corner that is [==] to itself holds the index of the one entry [==] to
    it, which is the index first assigned to its value; and two corners that
    are [==] hold the same index.  (A corner with a NaN component is [==] to
    nothing.) *)
Theorem C3_text_decode_interns_vertices (Fscanf : fmt.Scanner) (copy : Copy)
    (m0 m : Mesh) (r : io.Reader) (v : Version) (n : Z) :
  sniff r = Some v ->
  v = Version1_00 \/ v = Version1_01 ->
  ReadFrom Fscanf copy m0 r = (m, n, None) ->
  let cs := cornerStream Fscanf r (3 * length (Faces m)) in
  length cs = (3 * length (Faces m))%nat
  /\ length (faceIndices m) = length cs
  /\ Vertices m = firstOccurrences [] cs
  /\ distinct (Vertices m)
  /\ (forall j c,
        nth_error cs j = Some c -> MeshVertex_eqb c c = true ->
        exists k, nth_error (faceIndices m) j = Some k
                  /\ position (Vertices m) c = Some k)
  /\ (forall j1 j2 c1 c2,
        nth_error cs j1 = Some c1 -> nth_error cs j2 = Some c2 ->
        MeshVertex_eqb c1 c2 = true ->
        nth_error (faceIndices m) j1 = nth_error (faceIndices m) j2).
Proof.
  intros Hs Hv H. cbv zeta.
  destruct (ReadFrom_text_success Fscanf copy m0 m r v n Hs Hv H)
    as (verts & Hwf & Hlen & Hall & Hvs & _).
  destruct (internAll_spec _ _ _ _ wfMap_nil Hall) as (_ & _ & Hl & _ & Hk & Hp).
  cbn [map] in Hk. rewrite <- Hvs in Hk, Hp.
  assert (Hpos : forall j c,
             nth_error (cornerStream Fscanf r (3 * length (Faces m))) j = Some c ->
             MeshVertex_eqb c c = true ->
             exists k, nth_error (faceIndices m) j = Some k
                       /\ position (Vertices m) c = Some k) by exact Hp.
  repeat split; try assumption.
  - rewrite Hk. apply firstOccurrences_distinct, distinct_nil.
  - intros j1 j2 c1 c2 H1 H2 He.
    pose proof (MeshVertex_eqb_refl_of _ _ He) as Hr2.
    assert (Hr1 : MeshVertex_eqb c1 c1 = true)
      by now rewrite (MeshVertex_eqb_cong c1 c2 c1 He).
    destruct (Hpos j1 c1 H1 Hr1) as (k1 & -> & Hk1).
    destruct (Hpos j2 c2 H2 Hr2) as (k2 & -> & Hk2).
    rewrite (position_cong _ _ _ He) in Hk1. congruence.
Qed.

(** The amended C3 at work on [quadInput]: two triangles that share two
    vertices decode to four vertices. *)
Lemma C3_witness :
  let res := ReadFrom fmt.Fscanf MeshGo usedMesh quadInput in
  let m := fst (fst res) in
  snd res = None
  /\ Vertices m = firstOccurrences [] (cornerStream fmt.Fscanf quadInput 6)
  /\ length (Vertices m) = 4%nat
  /\ Faces m = [(0, 1, 2); (1, 3, 2)].
Proof.
  cbv zeta.
  pose proof (C3_text_decode_interns_vertices fmt.Fscanf MeshGo usedMesh
           (fst (fst (ReadFrom fmt.Fscanf MeshGo usedMesh quadInput))) quadInput Version1_01
           (snd (fst (ReadFrom fmt.Fscanf MeshGo usedMesh quadInput)))) as H.
  cbv zeta in H.
  destruct H as (_ & _ & Hv & _).
  - vm_compute; reflexivity.
  - right; reflexivity.
  - vm_compute; reflexivity.
  - split; [vm_compute; reflexivity|]. split; [|split; vm_compute; reflexivity].
    rewrite Hv. vm_compute; reflexivity.
Defined.

(** C4, which the copy of [ReadFrom] in [mesh.go] breaks: it never assigns
    [m.HasColor] on the text path (nor [m.Version]), so a mesh that had the
    flag set keeps it after a successful decode of a version-1.00 input.
    The copy in [part_000] has the assignment: see [ReadFrom_text_color]. *)
Theorem C4_mesh_go_keeps_the_color_flag :
  sniff emptyInput = Some Version1_00
  /\ ReadFrom fmt.Fscanf MeshGo usedMesh emptyInput = (usedMesh, 15, None)
  /\ HasColor usedMesh = true
  /\ ReadFrom fmt.Fscanf Part000 usedMesh emptyInput
     = (mkMesh Version1_00 false [] [], 15, None).
Proof. repeat split; vm_compute; reflexivity. Qed.

(** C5, which the code breaks: on a version that is none of the three, the
    encoder does write the placeholder signature line and does fail with
    "unknown version" before any payload, but the count it returns is 0 and
    not the 13 bytes it has written. *)
Theorem C5_unknown_version_returns_zero_bytes :
  let m := mkMesh VersionUnknown false [] [] in
  let '(w, n, e) := WriteTo m (sink []) in
  io.out w = str "version x.xx" ++ [newline]
  /\ e = Some ErrUnknownVersion
  /\ n = 0
  /\ len (io.out w) = 13.
Proof.
  cbv zeta. rewrite WriteTo_unknown_version by discriminate.
  repeat split.
Qed.

(** C6 as the specification states it fails: the count is kept below the
    buffered reader, so it is the number of bytes the reader has fetched,
    not the number the decoder has used.  With one byte after the 2-byte
    field the count is 16, not 15. *)
Lemma C6_counterexample :
  ~ header_count_as_stated fmt.Fscanf MeshGo (mkMesh Version2_00 false [] []) x0d x00 [x00].
Proof.
  unfold header_count_as_stated. intros H.
  assert (Hh : binary.Uint16 [x0d; x00] <> nHeader) by discriminate.
  specialize (H Hh). vm_compute in H. destruct H as [_ H]. discriminate H.
Qed.

(** C6, amended: a binary-format input whose 2-byte little-endian
    header-size field is not 12 makes the decoder fail with "unexpected
    header size", and the count it returns is the number of bytes the
    buffered reader has fetched from the input by then: the whole input, or
    4096 bytes of it if it is longer.  That is never less than the bytes up
    to and including the field, and equal to them only when the input ends
    there. *)
Theorem C6_header_size_rejected (Fscanf : fmt.Scanner) (copy : Copy) (m : Mesh)
    (eol : bytes) (h0 h1 : byte) (rest : bytes) :
  lineEnd eol ->
  binary.Uint16 [h0; h1] <> nHeader ->
  let input := str "version 2.00" ++ eol ++ h0 :: h1 :: rest in
  let field := len (str "version 2.00" ++ eol ++ [h0; h1]) in
  ReadFrom Fscanf copy m input =
    (stamped copy m Version2_00, Z.min (len input) 4096, Some ErrHeaderSize)
  /\ field <= Z.min (len input) 4096
  /\ (Z.min (len input) 4096 = field <-> rest = []).
Proof.
  intros Heol Hh. cbv zeta. split; [now apply ReadFrom_header_size|].
  assert (Hlen : len (str "version 2.00" ++ eol ++ h0 :: h1 :: rest)
                 = len (str "version 2.00" ++ eol ++ [h0; h1]) + len rest).
  { rewrite !len_app. unfold len. cbn [length]. lia. }
  assert (Hf : len (str "version 2.00" ++ eol ++ [h0; h1]) <= 16).
  { destruct Heol as [-> | ->]; cbn; lia. }
  pose proof (len_nonneg rest) as Hr.
  split; [lia|]. split.
  - intros H. destruct rest; [reflexivity|]. unfold len in *. cbn [length] in *. lia.
  - intros ->. unfold len in *. cbn [length] in *. lia.
Qed.

(** The amended C6 at work: one byte after a header-size field of 13. *)
Lemma C6_witness :
  ReadFrom fmt.Fscanf Part000 (mkMesh Version1_00 true [] [])
    (str "version 2.00" ++ [x0a] ++ x0d :: x00 :: [x00]) =
  (mkMesh Version2_00 true [] [], 16, Some ErrHeaderSize).
Proof.
  apply (C6_header_size_rejected fmt.Fscanf Part000 (mkMesh Version1_00 true [] [])
           [x0a] x0d x00 [x00] (or_introl eq_refl)).
  discriminate.
Defined.

(** C7 as the specification states it fails: the bounds check is made corner
    by corner, so the corners of the offending face that come before the
    offending index are written.  Here the face [(0, 0, 7)] of a mesh with
    one vertex has its first two corners written. *)
Lemma C7_counterexample :
  ~ text_bounds_as_stated (mkMesh Version1_01 false [sampleVertex] [(0, 0, 7)]).
Proof.
  intros H. specialize (H [] (0, 0, 7) [] eq_refl eq_refl eq_refl).
  rewrite WriteTo_text_sink in H by (right; reflexivity).
  cbv zeta in H. destruct H as (_ & Hout & _).
  apply (f_equal (@length byte)) in Hout. vm_compute in Hout. discriminate Hout.
Qed.

(** C7, amended: a text-format mesh that has an index out of range makes the
    encoder fail with the out-of-range error before it writes anything of
    the first offending corner; what it has written is the signature line,
    the count line and every corner before that one, corners of the same
    face included, and the count it returns is the number of those bytes. *)
Theorem C7_text_encode_stops_at_first_bad_corner (m : Mesh) (o : bytes) :
  Version_ m = Version1_00 \/ Version_ m = Version1_01 ->
  forallb (inRange m) (cornerIndices m) = false ->
  let written := signatureLine (Version_ m) ++ countLine m
                 ++ flat_map (cornerText m) (takeWhile (inRange m) (cornerIndices m)) in
  WriteTo m (sink o) = (sink (o ++ written), int64 (len written), Some ErrIndexOutOfRange).
Proof.
  intros Hv Hbad. rewrite WriteTo_text_sink by exact Hv. cbv zeta. now rewrite Hbad.
Qed.

(** The amended C7 at work on the face [(0, 0, 7)]: two corners are written. *)
Lemma C7_witness :
  let m := mkMesh Version1_01 false [sampleVertex] [(0, 0, 7)] in
  WriteTo m (sink []) =
  (sink (signatureLine Version1_01 ++ countLine m ++ cornerText m 0 ++ cornerText m 0),
   int64 (len (signatureLine Version1_01 ++ countLine m ++ cornerText m 0 ++ cornerText m 0)),
   Some ErrIndexOutOfRange).
Proof.
  cbv zeta.
  rewrite (C7_text_encode_stops_at_first_bad_corner
             (mkMesh Version1_01 false [sampleVertex] [(0, 0, 7)]) []
             (or_intror eq_refl) eq_refl).
  reflexivity.
Defined.

(** C8 as the specification states it fails: an index is written as a
    [uint32], so one that is negative or not below 2^32 is not written as
    it is.  The face [(2^32 + 5, -1, 2^32)] is written as the twelve bytes
    of the face [(5, 2^32 - 1, 0)]. *)
Lemma C8_counterexample :
  ~ binary_indices_as_stated (mkMesh Version2_00 false [] [(2 ^ 32 + 5, -1, 2 ^ 32)]).
Proof.
  unfold binary_indices_as_stated. rewrite WriteTo_binary_sink.
  intros (_ & _ & H). specialize (H O _ eq_refl).
  vm_compute in H. discriminate H.
Qed.

Lemma faceRecord_length (f : MeshFace) : length (faceRecord f) = 12%nat.
Proof. now destruct f as [[f0 f1] f2]. Qed.

Lemma decodeFace_faceRecord (f0 f1 f2 : Z) :
  decodeFace (faceRecord (f0, f1, f2)) = (f0 mod 2 ^ 32, f1 mod 2 ^ 32, f2 mod 2 ^ 32).
Proof.
  unfold decodeFace. f_equal; [f_equal|].
  - exact (Uint32_PutUint32 _ (uint32_range f0)).
  - exact (Uint32_PutUint32 _ (uint32_range f1)).
  - exact (Uint32_PutUint32 _ (uint32_range f2)).
Qed.

Lemma faceRecords_length (fs : list MeshFace) :
  length (flat_map faceRecord fs) = (12 * length fs)%nat.
Proof.
  induction fs as [|f fs IH]; [reflexivity|].
  cbn [flat_map]. rewrite length_app, faceRecord_length, IH. cbn [length]. lia.
Qed.

Lemma skipn_faceRecords (i : nat) (fs : list MeshFace) :
  skipn (12 * i) (flat_map faceRecord fs) = flat_map faceRecord (skipn i fs).
Proof.
  revert fs. induction i as [|i IH]; intros fs; [reflexivity|].
  destruct fs as [|f fs]; [now rewrite skipn_nil|].
  replace (12 * S i)%nat with (12 * i + 12)%nat by lia.
  rewrite <- skipn_skipn. cbn [flat_map skipn]. rewrite <- IH. f_equal.
  now destruct f as [[f0 f1] f2].
Qed.

Lemma skipn_nth_error {A : Type} (l : list A) (i : nat) (x : A) :
  nth_error l i = Some x -> skipn i l = x :: skipn (S i) l.
Proof.
  revert l. induction i as [|i IH]; intros [|y l] H; try discriminate H.
  - now injection H as ->.
  - exact (IH l H).
Qed.

Lemma vertexRecords_length (hasColor : bool) (vs : list MeshVertex) :
  len (flat_map (vertexRecord hasColor) vs) = (if hasColor then nColor else nVertex) * len vs.
Proof.
  induction vs as [|v vs IH]; [destruct hasColor; reflexivity|].
  cbn [flat_map]. rewrite len_app, IH.
  replace (len (v :: vs)) with (1 + len vs) by (unfold len; cbn [length]; lia).
  assert (Hv : len (vertexRecord hasColor v) = if hasColor then nColor else nVertex).
  { destruct v as [[[p0 p1] p2] [[n0 n1] n2] [[t0 t1] t2] [[[c0 c1] c2] c3]].
    destruct hasColor; reflexivity. }
  rewrite Hv. lia.
Qed.

(** C8, amended: the binary encoder checks no face index.  Whatever the
    writer, the error it returns is the writer's and never the out-of-range
    error; and to a writer that takes everything it writes, after the
    signature line, the header and the vertex records, one record of twelve
    bytes per face in list order.  An index is written as a [uint32]: the
    little-endian integer of four bytes in its place is the index modulo
    2^32.  So the indices are in the output as they are when every one of
    them is in [[0, 2^32)], whether it is below the number of vertices or
    not; an index that is negative, or 2^32 or more, is written as its low
    32 bits. *)
Theorem C8_binary_encode_checks_no_index
    (hasColor : bool) (vs : list MeshVertex) (fs : list MeshFace) :
  let m := mkMesh Version2_00 hasColor vs fs in
  (forall w, snd (WriteTo m w) <> Some ErrIndexOutOfRange)
  /\ (forall o, exists head,
        len head = 13 + 12 + (if hasColor then nColor else nVertex) * len vs
        /\ WriteTo m (sink o) =
           (sink (o ++ head ++ flat_map faceRecord fs),
            int64 (len (head ++ flat_map faceRecord fs)), None))
  /\ (forall f0 f1 f2,
        let r := faceRecord (f0, f1, f2) in
        length r = 12%nat
        /\ binary.Uint32 (slice r 0 4) = f0 mod 2 ^ 32
        /\ binary.Uint32 (slice r 4 8) = f1 mod 2 ^ 32
        /\ binary.Uint32 (slice r 8 12) = f2 mod 2 ^ 32)
  /\ (Forall (fun face => Forall (fun index => 0 <= index < 2 ^ 32) (indices face)) fs ->
      binary_indices_as_stated m).
Proof.
  cbv zeta.
  set (head := signatureLine Version2_00 ++ headerRecord hasColor (len vs) (len fs)
               ++ flat_map (vertexRecord hasColor) vs).
  assert (Hhead : len head = 13 + 12 + (if hasColor then nColor else nVertex) * len vs).
  { unfold head. rewrite !len_app, vertexRecords_length.
    change (len (signatureLine Version2_00)) with 13.
    change (len (headerRecord hasColor (len vs) (len fs))) with 12. lia. }
  assert (Himg : binaryImage hasColor vs fs = head ++ flat_map faceRecord fs).
  { unfold binaryImage, head. now rewrite <- !app_assoc. }
  clearbody head.
  split; [|split; [|split]].
  - intros w. destruct (WriteTo_binary_error hasColor vs fs w) as [-> | ->]; discriminate.
  - intros o. exists head. split; [exact Hhead|].
    rewrite WriteTo_binary_sink. now rewrite Himg.
  - intros f0 f1 f2. split; [reflexivity|].
    pose proof (Uint32_PutUint32 _ (uint32_range f0)) as H0.
    pose proof (Uint32_PutUint32 _ (uint32_range f1)) as H1.
    pose proof (Uint32_PutUint32 _ (uint32_range f2)) as H2.
    repeat split; assumption.
  - intros Hr. unfold binary_indices_as_stated. rewrite WriteTo_binary_sink, Himg.
    cbn [io.out sink app HasColor Vertices Faces mkMesh].
    rewrite <- Hhead.
    replace (Z.to_nat (len head)) with (length head) by (unfold len; now rewrite Nat2Z.id).
    split; [reflexivity|]. split.
    + now rewrite length_app, faceRecords_length.
    + intros i f Hf. unfold slice.
      replace (length head + 12 * i + 12 - (length head + 12 * i))%nat with 12%nat by lia.
      rewrite skipn_app, (skipn_all2 head) by lia.
      replace (length head + 12 * i - length head)%nat with (12 * i)%nat by lia.
      rewrite skipn_faceRecords, (skipn_nth_error _ _ _ Hf). cbn [flat_map app].
      assert (Hin : In f fs) by exact (nth_error_In _ _ Hf).
      pose proof (proj1 (Forall_forall _ _) Hr f Hin) as Hi.
      destruct f as [[f0 f1] f2]. cbn [indices] in Hi.
      inversion Hi as [|? ? H0 Hi1]; subst. inversion Hi1 as [|? ? H1 Hi2]; subst.
      inversion Hi2 as [|? ? H2 _]; subst.
      change (firstn 12 (faceRecord (f0, f1, f2) ++ flat_map faceRecord (skipn (S i) fs)))
        with (faceRecord (f0, f1, f2)).
      rewrite decodeFace_faceRecord, !Z.mod_small by assumption. reflexivity.
Qed.

(** The amended C8 at work on a mesh with no vertex: the indices 7, 2^32 - 1
    and 0 are written as they are. *)
Lemma C8_witness :
  binary_indices_as_stated (mkMesh Version2_00 false [] [(7, 2 ^ 32 - 1, 0)]).
Proof.
  apply (C8_binary_encode_checks_no_index false [] [(7, 2 ^ 32 - 1, 0)]).
  repeat constructor; lia.
Defined.

(** C9: after a text decode that succeeds, every index of every face is in
    [[0, len(m.Vertices))]. *)
Theorem C9_text_decode_indices_in_range (Fscanf : fmt.Scanner) (copy : Copy)
    (m0 m : Mesh) (r : io.Reader) (v : Version) (n : Z) :
  sniff r = Some v ->
  v = Version1_00 \/ v = Version1_01 ->
  ReadFrom Fscanf copy m0 r = (m, n, None) ->
  Forall (fun face => Forall (fun index => 0 <= index < len (Vertices m)) (indices face))
         (Faces m).
Proof.
  intros Hs Hv H.
  destruct (ReadFrom_text_success Fscanf copy m0 m r v n Hs Hv H)
    as (verts & _ & _ & Hall & Hvs & _).
  destruct (internAll_spec _ _ _ _ wfMap_nil Hall) as (_ & _ & _ & Hr & _).
  apply Forall_flat_map. rewrite Hvs, len_map. exact Hr.
Qed.

(** C9 at work on [quadInput]. *)
Lemma C9_witness :
  let res := ReadFrom fmt.Fscanf MeshGo usedMesh quadInput in
  snd res = None
  /\ Forall (fun face =>
               Forall (fun index => 0 <= index < len (Vertices (fst (fst res))))
                      (indices face))
            (Faces (fst (fst res))).
Proof.
  cbv zeta. split; [vm_compute; reflexivity|].
  apply (C9_text_decode_indices_in_range fmt.Fscanf MeshGo usedMesh
           (fst (fst (ReadFrom fmt.Fscanf MeshGo usedMesh quadInput))) quadInput Version1_01
           (snd (fst (ReadFrom fmt.Fscanf MeshGo usedMesh quadInput)))).
  - vm_compute; reflexivity.
  - right; reflexivity.
  - vm_compute; reflexivity.
Defined.

(** C10: a text input whose second line starts with a byte that is no digit
    decodes without error to a mesh with no face and no vertex: the digit
    run is empty, [Atoi] fails on it, its error is dropped and its 0 is the
    face count. *)
Theorem C10_count_line_without_digits (Fscanf : fmt.Scanner) (copy : Copy) (m0 : Mesh)
    (v : Version) (eol : bytes) (c : byte) (rest : bytes) :
  v = Version1_00 \/ v = Version1_01 ->
  lineEnd eol ->
  strconv.isDigit c = false ->
  exists m n,
    ReadFrom Fscanf copy m0 (str (Version_String v) ++ eol ++ c :: rest) = (m, n, None)
    /\ Faces m = [] /\ Vertices m = [].
Proof.
  intros Hv Heol Hc. unfold ReadFrom. rewrite app_assoc.
  rewrite ReadLine_first;
    [| destruct Hv as [-> | ->], Heol as [-> | ->]; reflexivity
     | destruct Hv as [-> | ->], Heol as [-> | ->]; cbn; unfold bufio.defaultBufSize; lia].
  replace (VersionFromString (bufio.dropEOL (str (Version_String v) ++ eol))) with v
    by (destruct Hv as [-> | ->], Heol as [-> | ->]; reflexivity).
  replace ((v =? Version1_00) || (v =? Version1_01)) with true
    by (destruct Hv as [-> | ->]; reflexivity).
  destruct (bufio.defaultBufSize - length (str (Version_String v) ++ eol))%nat
    as [|k] eqn:Hk.
  { exfalso. destruct Hv as [-> | ->], Heol as [-> | ->]; discriminate Hk. }
  cbn [firstn]. unfold readText.
  match goal with
  | |- context [bufio.ReadLine ?b] =>
      destruct (ReadLine_head b c (firstn k rest) eq_refl) as (line & pfx & b2 & Hl & Hhd)
  end.
  rewrite Hl. rewrite (digitRun_head line c Hc Hhd).
  cbn [firstn]. change (strconv.Atoi []) with (0, Some strconv.ErrSyntax).
  cbn [Z.to_nat repeat Faces setFaces readFaces].
  do 2 eexists. split; [reflexivity|]. split; reflexivity.
Qed.

(** C10 at work on a count line that reads [faces]. *)
Lemma C10_witness :
  exists m n,
    ReadFrom fmt.Fscanf Part000 usedMesh (str "version 1.01" ++ [x0d; x0a] ++ x66 :: str "aces")
    = (m, n, None)
    /\ Faces m = [] /\ Vertices m = [].
Proof.
  apply (C10_count_line_without_digits fmt.Fscanf Part000 usedMesh Version1_01
           [x0d; x0a] x66 (str "aces")).
  - right; reflexivity.
  - right; reflexivity.
  - reflexivity.
Defined.

(** * Further properties of the codec

    What follows is read off the code alone: the two functions on versions,
    the decoder at the ends of its input and on its error paths, the two
    copies of the decoder against each other, the binary decoder on a
    stream laid out as it reads one, the byte counts, and the encoder on a
    writer that fails. *)

(** ** [Version.String] and [VersionFromString] *)

(** X1: [VersionFromString] undoes [Version.String] on the three versions
    that have a signature, and sends the string of any other version, the
    placeholder, to [VersionUnknown]. *)
Theorem X1_VersionFromString_inverts_String (v : Version) :
  VersionFromString (str (Version_String v)) = if knownb v then v else VersionUnknown.
Proof.
  unfold knownb, Version_String.
  destruct (v =? Version1_00) eqn:H1; [apply Z.eqb_eq in H1; subst; reflexivity|].
  destruct (v =? Version1_01) eqn:H2; [apply Z.eqb_eq in H2; subst; reflexivity|].
  destruct (v =? Version2_00) eqn:H3; [apply Z.eqb_eq in H3; subst; reflexivity|].
  reflexivity.
Qed.

(** X2: [VersionFromString] matches exactly: a string it gives a version
    other than [VersionUnknown] is that version's signature, byte for
    byte. *)
Theorem X2_VersionFromString_is_exact (s : bytes) :
  VersionFromString s <> VersionUnknown ->
  str (Version_String (VersionFromString s)) = s.
Proof.
  unfold VersionFromString. intros H.
  destruct (bytes_eqb s (list_byte_of_string (Version_String Version1_00))) eqn:E1;
    [apply bytes_eqb_eq in E1; subst; reflexivity|].
  destruct (bytes_eqb s (list_byte_of_string (Version_String Version1_01))) eqn:E2;
    [apply bytes_eqb_eq in E2; subst; reflexivity|].
  destruct (bytes_eqb s (list_byte_of_string (Version_String Version2_00))) eqn:E3;
    [apply bytes_eqb_eq in E3; subst; reflexivity|].
  contradiction H; reflexivity.
Qed.

(** X2 at work on the signature of version 1.01. *)
Lemma X2_witness :
  str (Version_String (VersionFromString (str "version 1.01"))) = str "version 1.01".
Proof.
  apply (X2_VersionFromString_is_exact (str "version 1.01")).
  vm_compute. discriminate.
Defined.

(** ** The decoder at the ends of its input *)

(** X3: on an empty input the decoder fails with [io.EOF], reports no byte
    read and leaves the mesh as it was. *)
Theorem X3_ReadFrom_empty_input (Fscanf : fmt.Scanner) (copy : Copy) (m : Mesh) :
  ReadFrom Fscanf copy m [] = (m, 0, Some io.EOF).
Proof. vm_compute. reflexivity. Qed.

(** X4: a signature that ends the input without a line end is taken for a
    signature all the same; the decoder then fails with [io.EOF] having read
    its 12 bytes.  The copy of [part_000] has stored the version by then,
    and cleared the colour flag if the version is one of the text format. *)
Theorem X4_signature_without_line_end (Fscanf : fmt.Scanner) (copy : Copy) (m : Mesh)
    (v : Version) :
  knownb v = true ->
  ReadFrom Fscanf copy m (str (Version_String v)) =
  (match copy with
   | Part000 => if textb v then setHasColor (setVersion m v) false else setVersion m v
   | MeshGo => m
   end, 12, Some io.EOF).
Proof.
  unfold knownb. intros H.
  apply orb_true_iff in H. destruct H as [H | H];
    [apply orb_true_iff in H; destruct H as [H | H]|];
    apply Z.eqb_eq in H; subst v; destruct copy; vm_compute; reflexivity.
Qed.

(** X4 at work on the signature of the binary format. *)
Lemma X4_witness :
  ReadFrom fmt.Fscanf Part000 usedMesh (str "version 2.00") =
  (usedMesh, 12, Some io.EOF).
Proof.
  exact (X4_signature_without_line_end fmt.Fscanf Part000 usedMesh Version2_00 eq_refl).
Defined.

Lemma IndexByte_end (line : bytes) (c : byte) :
  ~ In c line -> bufio.IndexByte (line ++ [c]) c = Some (length line).
Proof.
  induction line as [|x line IH]; intros Hin; cbn [app bufio.IndexByte length].
  - rewrite (Byte.byte_dec_lb (eq_refl c)). reflexivity.
  - destruct (Byte.eqb x c) eqn:E.
    + apply Byte.byte_dec_bl in E. subst x. contradiction Hin. left; reflexivity.
    + rewrite IH; [reflexivity|]. intros Hc. apply Hin. right; exact Hc.
Qed.

(** X5: a first line that is none of the three signatures makes the decoder
    fail with the error of an unknown version.  The count it returns is that
    of the bytes fetched, the whole input up to 4096 bytes, and not the
    length of the line. *)
Theorem X5_unknown_signature (Fscanf : fmt.Scanner) (copy : Copy) (m : Mesh)
    (line rest : bytes) :
  ~ In x0a line ->
  (length line < bufio.defaultBufSize)%nat ->
  VersionFromString (bufio.dropEOL (line ++ [x0a])) = VersionUnknown ->
  ReadFrom Fscanf copy m (line ++ x0a :: rest) =
  (stamped copy m VersionUnknown, Z.min (len (line ++ x0a :: rest)) 4096,
   Some ErrUnknownVersion).
Proof.
  intros Hin Hlen Hv.
  replace (line ++ x0a :: rest) with ((line ++ [x0a]) ++ rest)
    by (rewrite <- app_assoc; reflexivity).
  unfold ReadFrom.
  rewrite ReadLine_first.
  - rewrite Hv. destruct copy; reflexivity.
  - rewrite IndexByte_end by exact Hin.
    rewrite length_app. cbn [length]. f_equal. lia.
  - rewrite length_app. cbn [length]. lia.
Qed.

(** X5 at work on a line that is not a signature, followed by more input. *)
Lemma X5_witness :
  ReadFrom fmt.Fscanf Part000 usedMesh (str "version 3.00" ++ x0a :: str "12345") =
  (mkMesh VersionUnknown true [] [], 18, Some ErrUnknownVersion).
Proof.
  apply (X5_unknown_signature fmt.Fscanf Part000 usedMesh (str "version 3.00") (str "12345")).
  - cbn. intros H. repeat (destruct H as [H | H]; [discriminate H|]). exact H.
  - cbn. unfold bufio.defaultBufSize. lia.
  - reflexivity.
Defined.

(** ** The version field and the two copies of the decoder *)

Ltac split_match :=
  match goal with
  | |- context [match ?x with _ => _ end] => destruct x
  end.

Lemma readBinary_Version (m : Mesh) (b : bufio.Reader) :
  Version_ (fst (fst (readBinary m b))) = Version_ m.
Proof. unfold readBinary. repeat split_match; reflexivity. Qed.

Lemma readText_Version (Fscanf : fmt.Scanner) (copy : Copy) (v : Version) (m : Mesh)
    (b : bufio.Reader) :
  Version_ (fst (fst (readText Fscanf copy v m b))) = Version_ m.
Proof. unfold readText. repeat split_match; reflexivity. Qed.

(** X6: the decoder of [mesh.go] never stores the version it has read: on
    every input, and whether it fails or not, the mesh keeps the version it
    came with. *)
Theorem X6_mesh_go_keeps_the_version (Fscanf : fmt.Scanner) (m : Mesh) (r : io.Reader) :
  Version_ (fst (fst (ReadFrom Fscanf MeshGo m r))) = Version_ m.
Proof.
  unfold ReadFrom.
  destruct (bufio.ReadLine _) as [[[line pfx] [e|]] b]; [reflexivity|].
  destruct ((VersionFromString line =? Version1_00) || (VersionFromString line =? Version1_01)).
  - apply readText_Version.
  - destruct (VersionFromString line =? Version2_00); [apply readBinary_Version | reflexivity].
Qed.

(** X7: the decoder of [part_000] stores the version of the first line as
    soon as it has read that line, so the mesh holds it however the call
    ends; and a call that succeeds has read one of the three signatures. *)
Theorem X7_part_000_stores_the_version (Fscanf : fmt.Scanner) (m : Mesh) (r : io.Reader)
    (v : Version) :
  sniff r = Some v ->
  Version_ (fst (fst (ReadFrom Fscanf Part000 m r))) = v
  /\ (snd (ReadFrom Fscanf Part000 m r) = None -> knownb v = true).
Proof.
  unfold sniff, open, ReadFrom, knownb.
  destruct (bufio.ReadLine _) as [[[line pfx] [e|]] b]; [discriminate|].
  intros H. injection H as H. rewrite H.
  destruct ((v =? Version1_00) || (v =? Version1_01)).
  - split; [rewrite readText_Version; reflexivity | reflexivity].
  - destruct (v =? Version2_00).
    + split; [rewrite readBinary_Version; reflexivity | reflexivity].
    + split; [reflexivity | discriminate].
Qed.

(** X7 at work on a text input of two faces. *)
Lemma X7_witness :
  Version_ (fst (fst (ReadFrom fmt.Fscanf Part000 usedMesh quadInput))) = Version1_01
  /\ (snd (ReadFrom fmt.Fscanf Part000 usedMesh quadInput) = None
      -> knownb Version1_01 = true).
Proof.
  apply (X7_part_000_stores_the_version fmt.Fscanf usedMesh quadInput Version1_01).
  vm_compute. reflexivity.
Defined.

Lemma readBinary_setVersion (m : Mesh) (v : Version) (b : bufio.Reader) :
  readBinary (setVersion m v) b =
  let '(m1, n, e) := readBinary m b in (setVersion m1 v, n, e).
Proof.
  unfold readBinary.
  repeat (cbn [HasColor Vertices Faces setVersion setHasColor setVertices setFaces];
          split_match);
    reflexivity.
Qed.

Lemma readText_copies (Fscanf : fmt.Scanner) (v v' : Version) (m : Mesh) (b : bufio.Reader) :
  readText Fscanf Part000 v (setVersion m v') b =
  let '(m1, n, e) := readText Fscanf MeshGo v m b in
  (setVersion (setHasColor m1 false) v', n, e).
Proof.
  unfold readText.
  repeat (cbn [HasColor Vertices Faces setVersion setHasColor setVertices setFaces];
          split_match);
    reflexivity.
Qed.

(** X8: the two copies of the decoder differ in the version and the colour
    flag of the mesh and in nothing else.  On every input they return the
    same count and the same error, and the mesh of [part_000] is that of
    [mesh.go] with the version of the first line stored and, on the text
    path, the colour flag cleared. *)
Theorem X8_the_two_copies_agree (Fscanf : fmt.Scanner) (m : Mesh) (r : io.Reader) :
  ReadFrom Fscanf Part000 m r =
  let '(m1, n, e) := ReadFrom Fscanf MeshGo m r in
  (match sniff r with
   | Some v => setVersion (if textb v then setHasColor m1 false else m1) v
   | None => m1
   end, n, e).
Proof.
  unfold sniff, open, ReadFrom, textb.
  destruct (bufio.ReadLine _) as [[[line pfx] [e|]] b]; [reflexivity|].
  destruct ((VersionFromString line =? Version1_00) || (VersionFromString line =? Version1_01)).
  - rewrite readText_copies. destruct (readText _ _ _ _ _) as [[m1 n] e]. reflexivity.
  - destruct (VersionFromString line =? Version2_00); [|reflexivity].
    rewrite readBinary_setVersion. destruct (readBinary _ _) as [[m1 n] e]. reflexivity.
Qed.

(** ** The encoder, write by write *)

Lemma writeAll_app (a b : list bytes) (w : io.Writer) (n : Z) :
  writeAll (a ++ b) w n =
  match writeAll a w n with
  | (w', n', Some e) => (w', n', Some e)
  | (w', n', None) => writeAll b w' n'
  end.
Proof.
  revert w n. induction a as [|c a IH]; intros w n; [reflexivity|].
  cbn [app writeAll]. destruct (io.Write w c) as [[w1 nn] [e|]]; [reflexivity | apply IH].
Qed.

Lemma writeCorner_chunk (m : Mesh) (index : Z) (w : io.Writer) (n : Z) :
  writeCorner m index w n =
  if inRange m index
  then (let '(w', nn, e) := io.Write w (cornerText m index) in (w', int64 (n + nn), e))
  else (w, n, Some ErrIndexOutOfRange).
Proof.
  unfold writeCorner, inRange, cornerText.
  destruct (index <? 0) eqn:Hlo; destruct (index >=? len (Vertices m)) eqn:Hhi;
    destruct (0 <=? index) eqn:Hlo'; destruct (index <? len (Vertices m)) eqn:Hhi';
    try lia; cbv [orb andb]; try reflexivity.
  destruct (Position _) as [[p0 p1] p2]. destruct (Texture _) as [[t0 t1] t2].
  reflexivity.
Qed.

Lemma writeCorners_chunks (m : Mesh) (idxs : list Z) (w : io.Writer) (n : Z) :
  writeCorners m idxs w n =
  match writeAll (map (cornerText m) (takeWhile (inRange m) idxs)) w n with
  | (w', n', Some e) => (w', n', Some e)
  | (w', n', None) =>
      (w', n', if forallb (inRange m) idxs then None else Some ErrIndexOutOfRange)
  end.
Proof.
  revert w n. induction idxs as [|index rest IH]; intros w n; [reflexivity|].
  cbn [writeCorners takeWhile forallb]. rewrite writeCorner_chunk.
  destruct (inRange m index); [|reflexivity].
  cbn [map writeAll andb].
  destruct (io.Write w (cornerText m index)) as [[w1 nn] [e|]]; [reflexivity | apply IH].
Qed.

Lemma writeVertices_chunks (hasColor : bool) (vs : list MeshVertex) (b : bytes)
    (w : io.Writer) (n : Z) :
  length b = 40%nat ->
  exists b',
    length b' = 40%nat
    /\ writeVertices hasColor vs b w n = (b', writeAll (map (vertexRecord hasColor) vs) w n).
Proof.
  revert b w n. induction vs as [|v vs IH]; intros b w n Hb.
  - exists b. split; [exact Hb | reflexivity].
  - cbn [writeVertices map writeAll].
    rewrite (vertex_scratch hasColor v b Hb).
    destruct (io.Write w (vertexRecord hasColor v)) as [[w1 nn] [e|]].
    + exists (putVertex hasColor v b). split; [now rewrite putVertex_length | reflexivity].
    + apply IH. now rewrite putVertex_length.
Qed.

Lemma writeFaceRecords_chunks (fs : list MeshFace) (b : bytes) (w : io.Writer) (n : Z) :
  length b = 40%nat ->
  writeFaceRecords fs b w n = writeAll (map faceRecord fs) w n.
Proof.
  revert b w n. induction fs as [|f fs IH]; intros b w n Hb; [reflexivity|].
  cbn [writeFaceRecords map writeAll].
  rewrite (face_scratch f b Hb).
  destruct (io.Write w (faceRecord f)) as [[w1 nn] [e|]]; [reflexivity|].
  apply IH. now rewrite putFace_length.
Qed.

(** The encoder is the sequence of writes of its chunks, and then its
    verdict. *)
Lemma WriteTo_chunks (m : Mesh) (w : io.Writer) :
  WriteTo m w =
  match writeAll (chunks m) w 0 with
  | (w', n, Some e) => (w', n, Some e)
  | (w', n, None) => (w', if knownb (Version_ m) then n else 0, verdict m)
  end.
Proof.
  unfold WriteTo, chunks, verdict, knownb, textb, signatureLine, str.
  cbn [writeAll].
  destruct (io.Write w _) as [[w1 n1] [e1|]]; [reflexivity|].
  destruct ((Version_ m =? Version1_00) || (Version_ m =? Version1_01)) eqn:Ht.
  - cbn [orb writeAll]. unfold countLine.
    destruct (io.Write w1 _) as [[w2 n2] [e2|]]; [reflexivity|].
    rewrite writeFaces_flat, writeCorners_chunks. unfold cornerIndices.
    destruct (writeAll _ w2 _) as [[w3 n3] [e3|]]; reflexivity.
  - destruct (Version_ m =? Version2_00) eqn:Hb; [|reflexivity].
    cbn [orb writeAll].
    set (b := store _ 10 _).
    assert (Hlen : length b = 40%nat).
    { subst b. destruct (HasColor m); now rewrite !store_length. }
    assert (Hh : firstn (Z.to_nat nHeader) b
                 = headerRecord (HasColor m) (len (Vertices m)) (len (Faces m))).
    { subst b. destruct (HasColor m); reflexivity. }
    rewrite Hh.
    destruct (io.Write w1 _) as [[w2 n2] [e2|]]; [reflexivity|].
    rewrite writeAll_app.
    destruct (writeVertices_chunks (HasColor m) (Vertices m) b w2
                (int64 (int64 (0 + n1) + n2)) Hlen) as [b' [Hb' Heq]].
    rewrite Heq.
    destruct (writeAll _ w2 _) as [[w3 n3] [e3|]]; [reflexivity|].
    rewrite (writeFaceRecords_chunks _ _ _ _ Hb').
    destruct (writeAll _ w3 _) as [[w4 n4] [e4|]]; reflexivity.
Qed.

Lemma Write_out (w : io.Writer) (p : bytes) :
  exists written,
    io.out (fst (fst (io.Write w p))) = io.out w ++ written
    /\ snd (fst (io.Write w p)) = len written.
Proof.
  unfold io.Write. destruct (io.room w) as [k|].
  - destruct (Nat.leb_spec (length p) k).
    + exists p. split; reflexivity.
    + exists (firstn k p). split; [reflexivity|].
      cbn [fst snd]. unfold len. rewrite length_firstn. f_equal. lia.
  - exists p. split; reflexivity.
Qed.

Lemma writeAll_out (cs : list bytes) (w : io.Writer) (n : Z) :
  exists written,
    io.out (fst (fst (writeAll cs w (int64 n)))) = io.out w ++ written
    /\ snd (fst (writeAll cs w (int64 n))) = int64 (n + len written).
Proof.
  revert w n. induction cs as [|c cs IH]; intros w n.
  - exists []. cbn. rewrite app_nil_r, Z.add_0_r. split; reflexivity.
  - cbn [writeAll].
    destruct (Write_out w c) as (wr & Ho & Hn).
    destruct (io.Write w c) as [[w1 nn] [e|]]; cbn [fst snd] in Ho, Hn; subst nn.
    + exists wr. cbn [fst snd]. rewrite int64_add_l. split; [exact Ho | reflexivity].
    + rewrite int64_add_l.
      destruct (IH w1 (n + len wr)) as (wr' & Ho' & Hn').
      exists (wr ++ wr'). rewrite Ho', Hn', Ho, <- app_assoc, len_app, Z.add_assoc.
      split; reflexivity.
Qed.

Lemma writeAll_sink (cs : list bytes) (o : bytes) (n : Z) :
  writeAll cs (sink o) (int64 n) = (sink (o ++ concat cs), int64 (n + len (concat cs)), None).
Proof.
  revert o n. induction cs as [|c cs IH]; intros o n.
  - cbn. now rewrite app_nil_r, Z.add_0_r.
  - cbn [writeAll concat]. rewrite Write_sink, int64_add_l, IH.
    rewrite <- app_assoc, len_app, Z.add_assoc. reflexivity.
Qed.

(** A sequence of writes to a writer that takes [k] more bytes: all of it
    if it fits, else the first [k] bytes and a short write. *)
Lemma writeAll_room (cs : list bytes) (o : bytes) (k : nat) (n : Z) :
  writeAll cs {| io.out := o; io.room := Some k |} (int64 n) =
  if (length (concat cs) <=? k)%nat
  then ({| io.out := o ++ concat cs; io.room := Some (k - length (concat cs))%nat |},
        int64 (n + len (concat cs)), None)
  else ({| io.out := o ++ firstn k (concat cs); io.room := Some O |},
        int64 (n + Z.of_nat k), Some io.ErrShortWrite).
Proof.
  revert o k n. induction cs as [|c cs IH]; intros o k n.
  - cbn. now rewrite app_nil_r, Z.add_0_r, Nat.sub_0_r.
  - cbn [writeAll concat]. unfold io.Write. cbn [io.room io.out].
    rewrite length_app.
    destruct (Nat.leb_spec (length c) k) as [Hc | Hc].
    + rewrite int64_add_l, IH.
      destruct (Nat.leb_spec (length (concat cs)) (k - length c));
        destruct (Nat.leb_spec (length c + length (concat cs)) k); try lia.
      * rewrite <- app_assoc, len_app, Z.add_assoc.
        replace (k - length c - length (concat cs))%nat
          with (k - (length c + length (concat cs)))%nat by lia.
        reflexivity.
      * rewrite <- app_assoc, (firstn_prefix k c (concat cs)) by lia.
        do 2 f_equal. unfold len. f_equal. lia.
    + destruct (Nat.leb_spec (length c + length (concat cs)) k); [lia|].
      rewrite int64_add_l, firstn_app.
      replace (k - length c)%nat with O by lia.
      rewrite firstn_O, app_nil_r. reflexivity.
Qed.

(** What the encoder does on a writer that takes everything. *)
Lemma WriteTo_encoding (m : Mesh) (o : bytes) :
  WriteTo m (sink o) =
  (sink (o ++ concat (chunks m)),
   if knownb (Version_ m) then int64 (len (concat (chunks m))) else 0, verdict m).
Proof.
  rewrite WriteTo_chunks.
  change (writeAll (chunks m) (sink o) 0) with (writeAll (chunks m) (sink o) (int64 0)).
  rewrite writeAll_sink. reflexivity.
Qed.

Lemma encoding_chunks (m : Mesh) : encoding m = concat (chunks m).
Proof. unfold encoding. rewrite WriteTo_encoding. reflexivity. Qed.

(** ** The byte count of the encoder *)

(** X9: for a mesh of one of the three versions the count the encoder
    returns is the number of bytes it has handed to the writer, whatever the
    writer is and whether the call ends with an error or not. *)
Theorem X9_count_is_what_the_writer_took (m : Mesh) (w : io.Writer) :
  knownb (Version_ m) = true ->
  exists written,
    io.out (fst (fst (WriteTo m w))) = io.out w ++ written
    /\ snd (fst (WriteTo m w)) = int64 (len written).
Proof.
  intros Hk. rewrite WriteTo_chunks, Hk.
  change (writeAll (chunks m) w 0) with (writeAll (chunks m) w (int64 0)).
  destruct (writeAll_out (chunks m) w 0) as (wr & Ho & Hn).
  exists wr. destruct (writeAll _ _ _) as [[w1 n1] [e|]]; split; assumption.
Qed.

(** X9 at work on a binary mesh and a writer that takes 30 bytes. *)
Lemma X9_witness :
  exists written,
    io.out (fst (fst (WriteTo (mkMesh Version2_00 false [sampleVertex] [])
                              {| io.out := []; io.room := Some 30%nat |})))
    = [] ++ written
    /\ snd (fst (WriteTo (mkMesh Version2_00 false [sampleVertex] [])
                         {| io.out := []; io.room := Some 30%nat |}))
       = int64 (len written).
Proof.
  exact (X9_count_is_what_the_writer_took (mkMesh Version2_00 false [sampleVertex] [])
           {| io.out := []; io.room := Some 30%nat |} eq_refl).
Defined.

(** X10: on a writer that takes [k] more bytes the encoder behaves as on
    one that takes everything if what it writes there fits, result and all;
    if not, it writes the first [k] of those bytes and returns [k] and the
    short write, for every mesh. *)
Theorem X10_short_write_leaves_a_prefix (m : Mesh) (o : bytes) (k : nat) :
  WriteTo m {| io.out := o; io.room := Some k |} =
  if (length (encoding m) <=? k)%nat
  then ({| io.out := o ++ encoding m; io.room := Some (k - length (encoding m))%nat |},
        snd (fst (WriteTo m (sink []))), snd (WriteTo m (sink [])))
  else ({| io.out := o ++ firstn k (encoding m); io.room := Some O |},
        int64 (Z.of_nat k), Some io.ErrShortWrite).
Proof.
  rewrite encoding_chunks, WriteTo_encoding, WriteTo_chunks. cbn [fst snd].
  change (writeAll (chunks m) {| io.out := o; io.room := Some k |} 0)
    with (writeAll (chunks m) {| io.out := o; io.room := Some k |} (int64 0)).
  rewrite writeAll_room.
  destruct (length (concat (chunks m)) <=? k)%nat; reflexivity.
Qed.

Lemma takeWhile_all {A : Type} (f : A -> bool) (l : list A) :
  forallb f l = true -> takeWhile f l = l.
Proof.
  induction l as [|x l IH]; [reflexivity|]. cbn [forallb takeWhile].
  destruct (f x); [|discriminate]. intros H. now rewrite IH.
Qed.

(** ** The text encoder on a mesh whose indices are in range *)

(** X11: when every index of every face is in range the text encoder
    succeeds on a writer that takes everything.  It writes the signature
    line, the count line and then, face after face, the text of each of the
    three corners; a vertex that several corners name is written once per
    corner. *)
Theorem X11_text_encode_writes_every_corner (m : Mesh) (o : bytes) :
  textb (Version_ m) = true ->
  forallb (inRange m) (cornerIndices m) = true ->
  WriteTo m (sink o) =
  (sink (o ++ signatureLine (Version_ m) ++ countLine m
           ++ flat_map (cornerText m) (cornerIndices m)),
   int64 (len (signatureLine (Version_ m) ++ countLine m
               ++ flat_map (cornerText m) (cornerIndices m))), None).
Proof.
  intros Ht Hin. unfold textb in Ht. apply orb_true_iff in Ht.
  rewrite WriteTo_text_sink
    by (destruct Ht as [Ht | Ht]; apply Z.eqb_eq in Ht; [left | right]; exact Ht).
  cbv zeta. rewrite Hin, takeWhile_all by exact Hin. reflexivity.
Qed.

(** X11 at work on two faces that share two vertices. *)
Lemma X11_witness :
  let m := mkMesh Version1_01 false [sampleVertex; zeroVertex; sampleVertex; zeroVertex]
                  [(0, 1, 2); (1, 3, 2)] in
  WriteTo m (sink []) =
  (sink ([] ++ signatureLine (Version_ m) ++ countLine m
            ++ flat_map (cornerText m) (cornerIndices m)),
   int64 (len (signatureLine (Version_ m) ++ countLine m
               ++ flat_map (cornerText m) (cornerIndices m))), None).
Proof.
  cbv zeta.
  apply (X11_text_encode_writes_every_corner
           (mkMesh Version1_01 false [sampleVertex; zeroVertex; sampleVertex; zeroVertex]
                   [(0, 1, 2); (1, 3, 2)]) []).
  - reflexivity.
  - reflexivity.
Defined.

(** ** The binary decoder past the header size *)

Lemma readBinary_sizes (m : Mesh) (b : bufio.Reader) (h0 h1 sz : byte) (tl : bytes) :
  bufio.buf b = h0 :: h1 :: sz :: tl ->
  binary.Uint16 [h0; h1] = nHeader ->
  exists b' scratch,
    bufio.rd b' = bufio.rd b
    /\ nth 2 scratch x00 = sz
    /\ nth 3 scratch x00 = nth 0 tl x00
    /\ readBinary m b =
       if negb ((Z_of_byte sz =? nVertex) || (Z_of_byte sz =? nColor))
       then (m, BytesRead b', Some ErrVertexSize)
       else if negb (Z_of_byte (nth 3 scratch x00) =? nFace)
       then (setHasColor m (negb (Z_of_byte sz =? nVertex)), BytesRead b', Some ErrFaceSize)
       else
         let m := setHasColor m (negb (Z_of_byte sz =? nVertex)) in
         let m := setVertices m
                    (repeat zeroVertex (Z.to_nat (binary.Uint32 (slice scratch 4 8)))) in
         let m := setFaces m
                    (repeat zeroFace (Z.to_nat (binary.Uint32 (slice scratch 8 12)))) in
         match readVertices (HasColor m) (Vertices m) b' scratch with
         | (vs, buf, _, Some e) => (setVertices m vs, BytesRead buf, Some e)
         | (vs, buf, b, None) =>
             let m := setVertices m vs in
             match readFaceRecords (Faces m) buf b with
             | (fs, buf, Some e) => (setFaces m fs, BytesRead buf, Some e)
             | (fs, buf, None) => (setFaces m fs, BytesRead buf, None)
             end
         end.
Proof.
  intros Hb Hh.
  exists {| bufio.buf := skipn 8 (sz :: tl); bufio.rd := bufio.rd b; bufio.err := bufio.err b |}.
  exists (store (store (repeat x00 (Z.to_nat nColor)) 0 [h0; h1]) 2 (firstn 8 (sz :: tl))).
  split; [reflexivity|]. split; [reflexivity|].
  split; [destruct tl; reflexivity|].
  unfold readBinary.
  change (Z.to_nat nHeaderSize) with 2%nat.
  rewrite (Read_buffered b h0 _ 1 Hb).
  cbn [firstn skipn].
  change (slice (store (repeat x00 (Z.to_nat nColor)) 0 [h0; h1]) 0 2) with [h0; h1].
  apply Z.eqb_eq in Hh. rewrite Hh.
  change (Z.to_nat (nHeader - nHeaderSize) - 2)%nat with 8%nat.
  rewrite (Read_buffered
             {| bufio.buf := sz :: tl; bufio.rd := bufio.rd b; bufio.err := bufio.err b |}
             sz tl 7 eq_refl).
  change (nth 2 (store (store (repeat x00 (Z.to_nat nColor)) 0 [h0; h1]) 2
                       (firstn 8 (sz :: tl))) x00) with sz.
  destruct ((Z_of_byte sz =? nVertex) || (Z_of_byte sz =? nColor)); reflexivity.
Qed.

(** X12: a binary input whose header has the right size but names a size
    of vertex record that is neither 36 nor 40 is rejected with the error
    of the vertex size.  Nothing but the version has been stored in the mesh
    by then, and the count is that of the bytes fetched. *)
Theorem X12_vertex_size_rejected (Fscanf : fmt.Scanner) (copy : Copy) (m : Mesh)
    (eol : bytes) (sz : byte) (rest : bytes) :
  lineEnd eol ->
  Z_of_byte sz <> nVertex ->
  Z_of_byte sz <> nColor ->
  ReadFrom Fscanf copy m (str "version 2.00" ++ eol ++ x0c :: x00 :: sz :: rest) =
  (stamped copy m Version2_00,
   Z.min (len (str "version 2.00" ++ eol ++ x0c :: x00 :: sz :: rest)) 4096,
   Some ErrVertexSize).
Proof.
  intros Heol Hv Hc. rewrite ReadFrom_binary by exact Heol.
  change (x0c :: x00 :: sz :: rest) with ([x0c; x00; sz] ++ rest).
  rewrite (firstn_prefix _ [x0c; x00; sz] rest)
    by (destruct Heol as [-> | ->]; cbn; unfold bufio.defaultBufSize; lia).
  cbn [app].
  match goal with
  | |- readBinary ?m0 ?b = _ =>
      destruct (readBinary_sizes m0 b x0c x00 sz _ eq_refl eq_refl)
        as (b' & scratch & Hrd & _ & _ & Heq)
  end.
  rewrite Heq. apply Z.eqb_neq in Hv, Hc. rewrite Hv, Hc. cbn [orb negb].
  unfold BytesRead. rewrite Hrd. reflexivity.
Qed.

(** X12 at work on a header that names 32 as the size of a vertex record. *)
Lemma X12_witness :
  ReadFrom fmt.Fscanf MeshGo usedMesh
    (str "version 2.00" ++ [x0a] ++ x0c :: x00 :: x20 :: [x0c; x00; x00; x00; x00; x00; x00])
  = (usedMesh, 23, Some ErrVertexSize).
Proof.
  apply (X12_vertex_size_rejected fmt.Fscanf MeshGo usedMesh [x0a] x20
           [x0c; x00; x00; x00; x00; x00; x00]).
  - left; reflexivity.
  - discriminate.
  - discriminate.
Defined.

(** X13: a binary input whose header names a right size of vertex record
    and a size of face record that is not 12 is rejected with the error of
    the face size; the colour flag the vertex size stands for is in the mesh
    by then. *)
Theorem X13_face_size_rejected (Fscanf : fmt.Scanner) (copy : Copy) (m : Mesh)
    (eol : bytes) (hasColor : bool) (fsz : byte) (rest : bytes) :
  lineEnd eol ->
  Z_of_byte fsz <> nFace ->
  ReadFrom Fscanf copy m
    (str "version 2.00" ++ eol
     ++ x0c :: x00 :: byte_of_Z (if hasColor then nColor else nVertex) :: fsz :: rest) =
  (setHasColor (stamped copy m Version2_00) hasColor,
   Z.min (len (str "version 2.00" ++ eol
               ++ x0c :: x00 :: byte_of_Z (if hasColor then nColor else nVertex)
                  :: fsz :: rest)) 4096,
   Some ErrFaceSize).
Proof.
  intros Heol Hf. rewrite ReadFrom_binary by exact Heol.
  set (sz := byte_of_Z (if hasColor then nColor else nVertex)).
  change (x0c :: x00 :: sz :: fsz :: rest) with ([x0c; x00; sz] ++ fsz :: rest).
  rewrite (firstn_prefix _ [x0c; x00; sz] (fsz :: rest))
    by (destruct Heol as [-> | ->]; cbn; unfold bufio.defaultBufSize; lia).
  cbn [app].
  match goal with
  | |- readBinary ?m0 ?b = _ =>
      destruct (readBinary_sizes m0 b x0c x00 sz _ eq_refl eq_refl)
        as (b' & scratch & Hrd & _ & H3 & Heq)
  end.
  rewrite Heq, H3.
  replace (nth 0 (firstn _ (fsz :: rest)) x00) with fsz
    by (destruct Heol as [-> | ->]; reflexivity).
  apply Z.eqb_neq in Hf. rewrite Hf. cbn [negb].
  unfold BytesRead. rewrite Hrd.
  subst sz. destruct hasColor; reflexivity.
Qed.

(** X13 at work on a header with colour that names 16 as the size of a face
    record. *)
Lemma X13_witness :
  ReadFrom fmt.Fscanf MeshGo (mkMesh Version2_00 false [] [])
    (str "version 2.00" ++ [x0a]
     ++ x0c :: x00 :: byte_of_Z (if true then nColor else nVertex) :: x10 :: [x00; x00])
  = (usedMesh, 19, Some ErrFaceSize).
Proof.
  apply (X13_face_size_rejected fmt.Fscanf MeshGo (mkMesh Version2_00 false [] []) [x0a]
           true x10 [x00; x00]).
  - left; reflexivity.
  - discriminate.
Defined.

(** ** The binary decoder on records that are in the buffer *)

Lemma store_prefix (b p : bytes) :
  (length p <= length b)%nat -> store b 0 p = p ++ skipn (length p) b.
Proof.
  revert b. induction p as [|x p IH]; intros b H.
  - destruct b; reflexivity.
  - destruct b as [|y b]; [cbn in H; lia|].
    cbn [store length skipn app]. f_equal. apply IH. cbn in H. lia.
Qed.

Lemma slice_app_l (p q : bytes) (lo hi : nat) :
  (hi <= length p)%nat -> slice (p ++ q) lo hi = slice p lo hi.
Proof.
  intros H. unfold slice. rewrite skipn_app, firstn_app, length_skipn.
  replace (hi - lo - (length p - lo))%nat with O by lia.
  rewrite firstn_O, app_nil_r. reflexivity.
Qed.

Lemma slice_store (b p : bytes) (lo hi : nat) :
  (hi <= length p)%nat -> (length p <= length b)%nat ->
  slice (store b 0 p) lo hi = slice p lo hi.
Proof.
  intros Hhi Hp. rewrite store_prefix by exact Hp. apply slice_app_l. exact Hhi.
Qed.

Lemma Read_record (rd : readReporter.t) (err : option error) (rec tl : bytes) (n : nat) :
  length rec = n -> (0 < n)%nat ->
  bufio.Read {| bufio.buf := rec ++ tl; bufio.rd := rd; bufio.err := err |} n =
  (rec, None, {| bufio.buf := tl; bufio.rd := rd; bufio.err := err |}).
Proof.
  intros Hl Hn. destruct n as [|n]; [lia|].
  destruct rec as [|c rec]; [discriminate|].
  unfold bufio.Read. cbn [bufio.buf bufio.rd bufio.err app].
  change (c :: rec ++ tl) with ((c :: rec) ++ tl).
  rewrite firstn_app, skipn_app, Hl, Nat.sub_diag, firstn_O, skipn_O, app_nil_r.
  rewrite <- Hl, firstn_all, skipn_all. reflexivity.
Qed.

Lemma recordSize_pos (hasColor : bool) : (0 < recordSize hasColor)%nat.
Proof. destruct hasColor; cbn; lia. Qed.

Lemma decodeVertex_store (hasColor : bool) (b rec : bytes) :
  length b = 40%nat -> length rec = recordSize hasColor ->
  decodeVertex hasColor (store b 0 rec) = decodeVertex hasColor rec.
Proof.
  intros Hb Hr. unfold decodeVertex.
  assert (H36 : (36 <= length rec)%nat) by (rewrite Hr; destruct hasColor; cbn; lia).
  assert (H40 : (length rec <= length b)%nat)
    by (rewrite Hr, Hb; destruct hasColor; cbn; lia).
  rewrite !(slice_store b rec _ _) by lia.
  destruct hasColor; [|reflexivity].
  rewrite (slice_store b rec 36 40) by (rewrite ?Hr; cbn; lia). reflexivity.
Qed.

Lemma scratchAfter_length (recs : list bytes) (b : bytes) :
  length (scratchAfter recs b) = length b.
Proof.
  revert b. induction recs as [|rec recs IH]; intros b; [reflexivity|].
  cbn [scratchAfter fold_left]. fold (scratchAfter recs (store b 0 rec)).
  now rewrite IH, store_length.
Qed.

(** The vertex loop on records that are in the buffer, one whole record
    per vertex. *)
Lemma readVertices_records (hasColor : bool) (vrecs : list bytes) (more : list MeshVertex)
    (tl : bytes) (rd : readReporter.t) (err : option error) (scratch : bytes) :
  Forall (fun rec => length rec = recordSize hasColor) vrecs ->
  length scratch = 40%nat ->
  readVertices hasColor (repeat zeroVertex (length vrecs) ++ more)
    {| bufio.buf := concat vrecs ++ tl; bufio.rd := rd; bufio.err := err |} scratch =
  let '(rest, buf, b, e) :=
    readVertices hasColor more {| bufio.buf := tl; bufio.rd := rd; bufio.err := err |}
                 (scratchAfter vrecs scratch) in
  (map (decodeVertex hasColor) vrecs ++ rest, buf, b, e).
Proof.
  intros Hall. revert scratch.
  induction Hall as [|rec vrecs Hrec Hall IH]; intros scratch Hs.
  - cbn [length repeat app concat map scratchAfter fold_left].
    destruct (readVertices _ _ _ _) as [[[rest buf] b] e]. reflexivity.
  - cbn [length repeat app concat map readVertices].
    rewrite <- app_assoc.
    fold (recordSize hasColor).
    rewrite (Read_record rd err rec _ _ Hrec (recordSize_pos hasColor)).
    rewrite IH by now rewrite store_length.
    cbn [scratchAfter fold_left]. fold (scratchAfter vrecs (store scratch 0 rec)).
    destruct (readVertices _ _ _ _) as [[[rest buf] b] e].
    rewrite <- (decodeVertex_store hasColor scratch rec Hs Hrec).
    reflexivity.
Qed.

Lemma decodeFace_store (b rec : bytes) :
  length b = 40%nat -> length rec = 12%nat ->
  decodeFace (store b 0 rec) = decodeFace rec.
Proof.
  intros Hb Hr. unfold decodeFace.
  rewrite !(slice_store b rec _ _) by lia. reflexivity.
Qed.

(** The face loop on records that are in the buffer. *)
Lemma readFaceRecords_records (frecs : list bytes) (more : list MeshFace)
    (tl : bytes) (rd : readReporter.t) (err : option error) (scratch : bytes) :
  Forall (fun rec => length rec = 12%nat) frecs ->
  length scratch = 40%nat ->
  readFaceRecords (repeat zeroFace (length frecs) ++ more)
    {| bufio.buf := concat frecs ++ tl; bufio.rd := rd; bufio.err := err |} scratch =
  let '(rest, buf, e) :=
    readFaceRecords more {| bufio.buf := tl; bufio.rd := rd; bufio.err := err |}
                    (scratchAfter frecs scratch) in
  (map decodeFace frecs ++ rest, buf, e).
Proof.
  intros Hall. revert scratch.
  induction Hall as [|rec frecs Hrec Hall IH]; intros scratch Hs.
  - cbn [length repeat app concat map scratchAfter fold_left].
    destruct (readFaceRecords _ _ _) as [[rest buf] e]. reflexivity.
  - cbn [length repeat app concat map readFaceRecords].
    rewrite <- app_assoc.
    change (Z.to_nat nFace) with 12%nat.
    rewrite (Read_record rd err rec _ 12 Hrec) by lia.
    rewrite IH by now rewrite store_length.
    cbn [scratchAfter fold_left]. fold (scratchAfter frecs (store scratch 0 rec)).
    destruct (readFaceRecords _ _ _) as [[rest buf] e].
    rewrite <- (decodeFace_store scratch rec Hs Hrec).
    reflexivity.
Qed.

Lemma length_concat_records (k : nat) (recs : list bytes) :
  Forall (fun rec => length rec = k) recs ->
  length (concat recs) = (k * length recs)%nat.
Proof.
  induction 1 as [|rec recs Hrec Hall IH]; [cbn; lia|].
  cbn [concat length]. rewrite length_app, IH, Hrec. lia.
Qed.

Lemma Uint32_PutUint16 (v : Z) :
  0 <= v < 2 ^ 16 -> binary.Uint32 (binary.PutUint16 v ++ [x00; x00]) = v.
Proof.
  intros Hv. rewrite <- (Uint32_PutUint32 v) at 2 by lia.
  unfold binary.PutUint16, binary.PutUint32. cbn [app].
  rewrite !Z.shiftr_div_pow2 by lia.
  rewrite (Z.div_small v (2 ^ 16)) by lia.
  rewrite (Z.div_small v (2 ^ 24)) by lia.
  reflexivity.
Qed.

(** The binary decoder on a buffer that holds the ten bytes it takes for
    the header, with the right header size. *)
Lemma readBinary_header (m : Mesh) (b : bufio.Reader)
    (sz fsz c0 c1 c2 c3 x y : byte) (tl : bytes) :
  bufio.buf b = x0c :: x00 :: sz :: fsz :: c0 :: c1 :: c2 :: c3 :: x :: y :: tl ->
  readBinary m b =
  let b' := {| bufio.buf := tl; bufio.rd := bufio.rd b; bufio.err := bufio.err b |} in
  let scratch := [x0c; x00; sz; fsz; c0; c1; c2; c3; x; y] ++ repeat x00 30 in
  if negb ((Z_of_byte sz =? nVertex) || (Z_of_byte sz =? nColor))
  then (m, BytesRead b', Some ErrVertexSize)
  else
    let m := setHasColor m (negb (Z_of_byte sz =? nVertex)) in
    if negb (Z_of_byte fsz =? nFace)
    then (m, BytesRead b', Some ErrFaceSize)
    else
      let m := setVertices m
                 (repeat zeroVertex (Z.to_nat (binary.Uint32 [c0; c1; c2; c3]))) in
      let m := setFaces m
                 (repeat zeroFace (Z.to_nat (binary.Uint32 [x; y; x00; x00]))) in
      match readVertices (HasColor m) (Vertices m) b' scratch with
      | (vs, buf, _, Some e) => (setVertices m vs, BytesRead buf, Some e)
      | (vs, buf, b, None) =>
          let m := setVertices m vs in
          match readFaceRecords (Faces m) buf b with
          | (fs, buf, Some e) => (setFaces m fs, BytesRead buf, Some e)
          | (fs, buf, None) => (setFaces m fs, BytesRead buf, None)
          end
      end.
Proof.
  intros Hb. unfold readBinary.
  change (Z.to_nat nHeaderSize) with 2%nat.
  rewrite (Read_buffered b x0c _ 1 Hb).
  cbn [firstn skipn].
  change (slice (store (repeat x00 (Z.to_nat nColor)) 0 [x0c; x00]) 0 2) with [x0c; x00].
  change (binary.Uint16 [x0c; x00] =? nHeader) with true. cbv iota.
  change (Z.to_nat (nHeader - nHeaderSize) - 2)%nat with 8%nat.
  rewrite (Read_buffered
             {| bufio.buf := sz :: fsz :: c0 :: c1 :: c2 :: c3 :: x :: y :: tl;
                bufio.rd := bufio.rd b; bufio.err := bufio.err b |}
             sz (fsz :: c0 :: c1 :: c2 :: c3 :: x :: y :: tl) 7 eq_refl).
  cbn [firstn skipn].
  change (store (store (repeat x00 (Z.to_nat nColor)) 0 [x0c; x00]) 2
                [sz; fsz; c0; c1; c2; c3; x; y])
    with ([x0c; x00; sz; fsz; c0; c1; c2; c3; x; y] ++ repeat x00 30).
  reflexivity.
Qed.

(** The binary decoder on an input whose header, vertex records and first
    face records are in the buffer: what is left to do is the face loop on
    the [k] faces the header counts beyond those records. *)
Lemma ReadFrom_binary_faces
    (Fscanf : fmt.Scanner) (copy : Copy) (m0 : Mesh) (eol : bytes) (hasColor : bool)
    (vrecs frecs : list bytes) (k : nat) (rest : bytes) :
  lineEnd eol ->
  Forall (fun rec => length rec = recordSize hasColor) vrecs ->
  Forall (fun rec => length rec = 12%nat) frecs ->
  len frecs + Z.of_nat k < 2 ^ 16 ->
  (length (str "version 2.00" ++ eol
           ++ wireHeader hasColor (len vrecs) (len frecs + Z.of_nat k)
           ++ concat vrecs ++ concat frecs) <= bufio.defaultBufSize)%nat ->
  ReadFrom Fscanf copy m0
    (str "version 2.00" ++ eol ++ wireHeader hasColor (len vrecs) (len frecs + Z.of_nat k)
     ++ concat vrecs ++ concat frecs ++ rest) =
  let input :=
    str "version 2.00" ++ eol ++ wireHeader hasColor (len vrecs) (len frecs + Z.of_nat k)
    ++ concat vrecs ++ concat frecs ++ rest in
  let '(more, buf, e) :=
    readFaceRecords (repeat zeroFace k)
      {| bufio.buf := firstn (bufio.defaultBufSize - (length input - length rest)) rest;
         bufio.rd := {| readReporter.r := skipn bufio.defaultBufSize input;
                        readReporter.n := Z.min (len input) 4096 |};
         bufio.err := None |}
      (scratchAfter frecs
         (scratchAfter vrecs (headerScratch hasColor (len vrecs) (len frecs + Z.of_nat k)))) in
  ({| Version_ := Version_ (stamped copy m0 Version2_00);
      HasColor := hasColor;
      Vertices := map (decodeVertex hasColor) vrecs;
      Faces := map decodeFace frecs ++ more |},
   BytesRead buf, e).
Proof.
  intros Heol Hv Hf Hk Hfit. cbv zeta.
  rewrite ReadFrom_binary by exact Heol.
  assert (Hlv : length (concat vrecs) = (recordSize hasColor * length vrecs)%nat)
    by (apply length_concat_records; exact Hv).
  assert (Hlf : length (concat frecs) = (12 * length frecs)%nat)
    by (apply length_concat_records; exact Hf).
  pose proof (recordSize_pos hasColor) as Hpos.
  set (nf := len frecs + Z.of_nat k) in *.
  assert (Hh : length (wireHeader hasColor (len vrecs) nf) = 10%nat) by reflexivity.
  rewrite !length_app, Hlv, Hlf, Hh in Hfit.
  assert (Hnv : (length vrecs <= 4096)%nat) by (unfold bufio.defaultBufSize in Hfit; nia).
  replace (wireHeader hasColor (len vrecs) nf ++ concat vrecs ++ concat frecs ++ rest)
    with ((wireHeader hasColor (len vrecs) nf ++ concat vrecs ++ concat frecs) ++ rest)
    by (rewrite <- !app_assoc; reflexivity).
  rewrite firstn_prefix by (rewrite !length_app, Hlv, Hlf, Hh; lia).
  replace (bufio.defaultBufSize - length (str "version 2.00" ++ eol)
           - length (wireHeader hasColor (len vrecs) nf ++ concat vrecs ++ concat frecs))%nat
    with (bufio.defaultBufSize
          - (length (str "version 2.00" ++ eol
                     ++ (wireHeader hasColor (len vrecs) nf ++ concat vrecs ++ concat frecs)
                     ++ rest) - length rest))%nat
    by (rewrite !length_app; lia).
  set (tl := firstn _ rest).
  rewrite <- !app_assoc.
  unfold wireHeader at 1, binary.PutUint16 at 1, binary.PutUint32 at 1.
  cbn [app].
  erewrite readBinary_header by reflexivity.
  cbv zeta. cbn [bufio.rd bufio.err].
  replace (Z_of_byte (byte_of_Z (if hasColor then nColor else nVertex)) =? nVertex)
    with (negb hasColor) by (destruct hasColor; reflexivity).
  replace (Z_of_byte (byte_of_Z (if hasColor then nColor else nVertex)) =? nColor)
    with hasColor by (destruct hasColor; reflexivity).
  replace (negb (negb hasColor || hasColor)) with false by (destruct hasColor; reflexivity).
  change (negb (Z_of_byte (byte_of_Z nFace) =? nFace)) with false.
  rewrite negb_involutive. cbv iota.
  change [byte_of_Z (len vrecs); byte_of_Z (Z.shiftr (len vrecs) 8);
          byte_of_Z (Z.shiftr (len vrecs) 16); byte_of_Z (Z.shiftr (len vrecs) 24)]
    with (binary.PutUint32 (len vrecs)).
  rewrite Uint32_PutUint32 by (unfold len; lia).
  change [byte_of_Z nf; byte_of_Z (Z.shiftr nf 8); x00; x00]
    with (binary.PutUint16 nf ++ [x00; x00]).
  rewrite Uint32_PutUint16 by (subst nf; unfold len in *; lia).
  replace (Z.to_nat (len vrecs)) with (length vrecs) by (unfold len; now rewrite Nat2Z.id).
  replace (Z.to_nat nf) with (length frecs + k)%nat by (subst nf; unfold len; lia).
  cbn [HasColor Vertices Faces setHasColor setVertices setFaces].
  rewrite <- (app_nil_r (repeat zeroVertex (length vrecs))).
  rewrite readVertices_records by (exact Hv || reflexivity).
  cbn [readVertices app].
  rewrite repeat_app.
  rewrite readFaceRecords_records
    by (exact Hf || (rewrite scratchAfter_length; reflexivity)).
  rewrite !app_nil_r.
  destruct (readFaceRecords _ _ _) as [[more buf] [e|]]; destruct copy; reflexivity.
Qed.

(** X14: the binary decoder on a stream laid out as it reads one, with a
    header of ten bytes, and short enough to be in the buffer whole.  The
    decoder succeeds; the colour flag is the one the vertex size stands for,
    and the vertices and faces are those of the records, in their order and
    as many as the header counts. *)
Theorem X14_binary_decode_of_a_stream_in_its_layout
    (Fscanf : fmt.Scanner) (copy : Copy) (m0 : Mesh) (eol : bytes) (hasColor : bool)
    (vrecs frecs : list bytes) (rest : bytes) :
  lineEnd eol ->
  Forall (fun rec => length rec = recordSize hasColor) vrecs ->
  Forall (fun rec => length rec = 12%nat) frecs ->
  (length (str "version 2.00" ++ eol ++ wireHeader hasColor (len vrecs) (len frecs)
           ++ concat vrecs ++ concat frecs) <= bufio.defaultBufSize)%nat ->
  ReadFrom Fscanf copy m0
    (str "version 2.00" ++ eol ++ wireHeader hasColor (len vrecs) (len frecs)
     ++ concat vrecs ++ concat frecs ++ rest) =
  ({| Version_ := Version_ (stamped copy m0 Version2_00);
      HasColor := hasColor;
      Vertices := map (decodeVertex hasColor) vrecs;
      Faces := map decodeFace frecs |},
   Z.min (len (str "version 2.00" ++ eol ++ wireHeader hasColor (len vrecs) (len frecs)
               ++ concat vrecs ++ concat frecs ++ rest)) 4096,
   None).
Proof.
  intros Heol Hv Hf Hfit.
  pose proof (ReadFrom_binary_faces Fscanf copy m0 eol hasColor vrecs frecs O rest
                Heol Hv Hf) as H.
  rewrite Z.add_0_r in H.
  assert (Hlf : length (concat frecs) = (12 * length frecs)%nat)
    by (apply length_concat_records; exact Hf).
  rewrite H; [|rewrite !length_app, Hlf in Hfit; unfold len, bufio.defaultBufSize in *; lia
              |exact Hfit].
  cbv zeta. cbn [repeat readFaceRecords]. rewrite app_nil_r. reflexivity.
Qed.

(** X14 at work on one vertex record without colour and one face record,
    each as the encoder lays it out. *)
Lemma X14_witness :
  ReadFrom fmt.Fscanf MeshGo usedMesh
    (str "version 2.00" ++ [x0a]
     ++ wireHeader false (len [vertexRecord false sampleVertex]) (len [faceRecord (0, 0, 0)])
     ++ concat [vertexRecord false sampleVertex] ++ concat [faceRecord (0, 0, 0)] ++ []) =
  ({| Version_ := Version_ (stamped MeshGo usedMesh Version2_00);
      HasColor := false;
      Vertices := map (decodeVertex false) [vertexRecord false sampleVertex];
      Faces := map decodeFace [faceRecord (0, 0, 0)] |},
   Z.min (len (str "version 2.00" ++ [x0a]
               ++ wireHeader false (len [vertexRecord false sampleVertex])
                             (len [faceRecord (0, 0, 0)])
               ++ concat [vertexRecord false sampleVertex]
               ++ concat [faceRecord (0, 0, 0)] ++ [])) 4096,
   None).
Proof.
  apply (X14_binary_decode_of_a_stream_in_its_layout fmt.Fscanf MeshGo usedMesh [x0a] false
           [vertexRecord false sampleVertex] [faceRecord (0, 0, 0)] []).
  - left; reflexivity.
  - repeat constructor.
  - repeat constructor.
  - vm_compute. lia.
Defined.

(** X15: on an input of at most 4096 bytes, which the buffer holds whole,
    a last face record cut short by the end of the input is not reported.
    When the records before it are whole and the last face the header
    counts has between 1 and 11 bytes left, the decoder succeeds with the
    length of the input as its count, and makes the last face of those
    bytes and of what the scratch buffer still held behind them from the
    reads before. *)
Theorem X15_truncated_face_record_is_accepted
    (Fscanf : fmt.Scanner) (copy : Copy) (m0 : Mesh) (eol : bytes) (hasColor : bool)
    (vrecs frecs : list bytes) (tail : bytes) :
  lineEnd eol ->
  Forall (fun rec => length rec = recordSize hasColor) vrecs ->
  Forall (fun rec => length rec = 12%nat) frecs ->
  tail <> [] ->
  (length tail < 12)%nat ->
  (length (str "version 2.00" ++ eol ++ wireHeader hasColor (len vrecs) (len frecs + 1)
           ++ concat vrecs ++ concat frecs ++ tail) <= bufio.defaultBufSize)%nat ->
  ReadFrom Fscanf copy m0
    (str "version 2.00" ++ eol ++ wireHeader hasColor (len vrecs) (len frecs + 1)
     ++ concat vrecs ++ concat frecs ++ tail) =
  ({| Version_ := Version_ (stamped copy m0 Version2_00);
      HasColor := hasColor;
      Vertices := map (decodeVertex hasColor) vrecs;
      Faces :=
        map decodeFace frecs
        ++ [decodeFace
              (store (scratchAfter frecs
                        (scratchAfter vrecs
                           (headerScratch hasColor (len vrecs) (len frecs + 1)))) 0 tail)] |},
   len (str "version 2.00" ++ eol ++ wireHeader hasColor (len vrecs) (len frecs + 1)
        ++ concat vrecs ++ concat frecs ++ tail),
   None).
Proof.
  intros Heol Hv Hf Hne Hshort Hfit.
  assert (Hlf : length (concat frecs) = (12 * length frecs)%nat)
    by (apply length_concat_records; exact Hf).
  pose proof (ReadFrom_binary_faces Fscanf copy m0 eol hasColor vrecs frecs 1 tail
                Heol Hv Hf) as H.
  change (Z.of_nat 1) with 1 in H.
  rewrite H; clear H.
  - cbv zeta.
    rewrite firstn_all2 by (rewrite !length_app in *; lia).
    destruct tail as [|c t]; [contradiction Hne; reflexivity|].
    cbn [repeat readFaceRecords]. change (Z.to_nat nFace) with 12%nat.
    match goal with
    | |- context [bufio.Read ?b 12] => rewrite (Read_buffered b c t 11 eq_refl)
    end.
    rewrite (firstn_all2 (n := 12) (c :: t)) by lia.
    unfold BytesRead, readReporter.BytesRead. cbn [bufio.rd readReporter.n].
    rewrite Z.min_l by (unfold len, bufio.defaultBufSize in *; lia).
    reflexivity.
  - rewrite !length_app, Hlf in Hfit. unfold len, bufio.defaultBufSize in *. lia.
  - rewrite !length_app in *. lia.
Qed.

(** X15 at work: of the one face the header counts the input holds five
    bytes. *)
Lemma X15_witness :
  ReadFrom fmt.Fscanf MeshGo usedMesh
    (str "version 2.00" ++ [x0a] ++ wireHeader false (len (@nil bytes)) (len (@nil bytes) + 1)
     ++ concat [] ++ concat [] ++ [x01; x00; x00; x00; x02]) =
  ({| Version_ := Version_ (stamped MeshGo usedMesh Version2_00);
      HasColor := false;
      Vertices := map (decodeVertex false) [];
      Faces :=
        map decodeFace []
        ++ [decodeFace
              (store (scratchAfter []
                        (scratchAfter []
                           (headerScratch false (len (@nil bytes)) (len (@nil bytes) + 1))))
                     0 [x01; x00; x00; x00; x02])] |},
   len (str "version 2.00" ++ [x0a]
        ++ wireHeader false (len (@nil bytes)) (len (@nil bytes) + 1)
        ++ concat [] ++ concat [] ++ [x01; x00; x00; x00; x02]),
   None).
Proof.
  apply (X15_truncated_face_record_is_accepted fmt.Fscanf MeshGo usedMesh [x0a] false
           [] [] [x01; x00; x00; x00; x02]).
  - left; reflexivity.
  - constructor.
  - constructor.
  - discriminate.
  - cbn. lia.
  - vm_compute. lia.
Defined.

(** The face a decoder makes of five bytes: its third index is the face
    count of the header, which the scratch buffer still held. *)
Example truncated_face_example :
  ReadFrom fmt.Fscanf MeshGo usedMesh
    (str "version 2.00" ++ [x0a] ++ wireHeader false 0 1 ++ [x01; x00; x00; x00; x02]) =
  (mkMesh Version2_00 false [] [(1, 2, 1)], 28, None).
Proof. vm_compute. reflexivity. Qed.

(** X16: an input of at most 4096 bytes, which the buffer holds whole, that
    ends between two face records, before the last face the header counts,
    makes the decoder fail with [io.EOF], the error of an input that ends
    where it may.  The count is the length of the input; the mesh holds the
    vertices, the faces read, and a face of three zeros for each face that
    is missing. *)
Theorem X16_input_that_ends_between_face_records
    (Fscanf : fmt.Scanner) (copy : Copy) (m0 : Mesh) (eol : bytes) (hasColor : bool)
    (vrecs frecs : list bytes) (k : nat) :
  lineEnd eol ->
  Forall (fun rec => length rec = recordSize hasColor) vrecs ->
  Forall (fun rec => length rec = 12%nat) frecs ->
  (0 < k)%nat ->
  len frecs + Z.of_nat k < 2 ^ 16 ->
  (length (str "version 2.00" ++ eol
           ++ wireHeader hasColor (len vrecs) (len frecs + Z.of_nat k)
           ++ concat vrecs ++ concat frecs) <= bufio.defaultBufSize)%nat ->
  ReadFrom Fscanf copy m0
    (str "version 2.00" ++ eol ++ wireHeader hasColor (len vrecs) (len frecs + Z.of_nat k)
     ++ concat vrecs ++ concat frecs) =
  ({| Version_ := Version_ (stamped copy m0 Version2_00);
      HasColor := hasColor;
      Vertices := map (decodeVertex hasColor) vrecs;
      Faces := map decodeFace frecs ++ repeat zeroFace k |},
   len (str "version 2.00" ++ eol ++ wireHeader hasColor (len vrecs) (len frecs + Z.of_nat k)
        ++ concat vrecs ++ concat frecs),
   Some io.EOF).
Proof.
  intros Heol Hv Hf Hk Hnf Hfit.
  pose proof (ReadFrom_binary_faces Fscanf copy m0 eol hasColor vrecs frecs k []
                Heol Hv Hf Hnf Hfit) as H.
  rewrite !app_nil_r in H. rewrite H; clear H. cbv zeta.
  rewrite firstn_nil, skipn_all2 by exact Hfit.
  destruct k as [|j]; [lia|].
  cbn [repeat readFaceRecords]. change (Z.to_nat nFace) with 12%nat.
  unfold bufio.Read. cbn [bufio.buf bufio.err bufio.rd].
  change (bufio.defaultBufSize <=? 12)%nat with false. cbv iota.
  unfold readReporter.Read, io.Read. cbn [readReporter.r readReporter.n].
  unfold BytesRead, readReporter.BytesRead. cbn [bufio.rd readReporter.n].
  rewrite Z.min_l by (unfold len, bufio.defaultBufSize in *; lia).
  change (len (@nil byte)) with 0. rewrite Z.add_0_r.
  rewrite int64_small by (unfold len, bufio.defaultBufSize in *; lia).
  reflexivity.
Qed.

(** X16 at work: the header counts two faces and the input holds one. *)
Lemma X16_witness :
  ReadFrom fmt.Fscanf MeshGo usedMesh
    (str "version 2.00" ++ [x0a]
     ++ wireHeader false (len (@nil bytes)) (len [faceRecord (0, 1, 2)] + Z.of_nat 1)
     ++ concat [] ++ concat [faceRecord (0, 1, 2)]) =
  ({| Version_ := Version_ (stamped MeshGo usedMesh Version2_00);
      HasColor := false;
      Vertices := map (decodeVertex false) [];
      Faces := map decodeFace [faceRecord (0, 1, 2)] ++ repeat zeroFace 1 |},
   len (str "version 2.00" ++ [x0a]
        ++ wireHeader false (len (@nil bytes)) (len [faceRecord (0, 1, 2)] + Z.of_nat 1)
        ++ concat [] ++ concat [faceRecord (0, 1, 2)]),
   Some io.EOF).
Proof.
  apply (X16_input_that_ends_between_face_records fmt.Fscanf MeshGo usedMesh [x0a] false
           [] [faceRecord (0, 1, 2)] 1).
  - left; reflexivity.
  - constructor.
  - repeat constructor.
  - lia.
  - vm_compute. reflexivity.
  - vm_compute. lia.
Defined.

(** ** The face count of the binary decoder *)

Lemma bufio_Read_length (b : bufio.Reader) (n : nat) :
  (length (fst (fst (bufio.Read b n))) <= n)%nat.
Proof.
  unfold bufio.Read. destruct n as [|n].
  - destruct (bufio.buf b); cbn; lia.
  - destruct (bufio.buf b) as [|c tl].
    + destruct (bufio.err b); [cbn; lia|].
      unfold readReporter.Read, io.Read.
      destruct (bufio.defaultBufSize <=? S n)%nat.
      * destruct (readReporter.r (bufio.rd b)); cbn [fst snd length]; [lia|].
        rewrite length_firstn. lia.
      * destruct (readReporter.r (bufio.rd b)) as [|x r]; [cbn; lia|].
        destruct (firstn bufio.defaultBufSize (x :: r)); cbn [fst snd length]; [lia|].
        rewrite length_firstn. lia.
    + cbn [fst]. rewrite length_firstn. lia.
Qed.

Lemma readFaceRecords_length (fs : list MeshFace) (buf : bufio.Reader) (b : bytes) :
  length (fst (fst (readFaceRecords fs buf b))) = length fs.
Proof.
  revert buf b. induction fs as [|f fs IH]; intros buf b; [reflexivity|].
  cbn [readFaceRecords].
  destruct (bufio.Read buf (Z.to_nat nFace)) as [[p [e|]] buf1]; [reflexivity|].
  specialize (IH buf1 (store b 0 p)).
  destruct (readFaceRecords fs buf1 (store b 0 p)) as [[rest buf2] e].
  cbn [fst length] in *. now rewrite IH.
Qed.

Lemma store_nth_after (b : bytes) (off : nat) (p : bytes) (i : nat) :
  (off + length p <= i)%nat -> nth i (store b off p) x00 = nth i b x00.
Proof.
  revert off p i. induction b as [|y b IH]; intros off p i H.
  - destruct off; destruct p; reflexivity.
  - destruct off as [|off].
    + destruct p as [|x p]; [reflexivity|].
      cbn [store]. destruct i as [|i]; [cbn in H; lia|].
      cbn [nth]. apply (IH O). cbn in H |- *. lia.
    + cbn [store]. destruct i as [|i]; [lia|].
      cbn [nth]. apply IH. cbn in H. lia.
Qed.

Lemma lor_lt_pow2 (a b n : Z) :
  0 <= a < 2 ^ n -> 0 <= b < 2 ^ n -> 0 <= Z.lor a b < 2 ^ n.
Proof.
  intros Ha Hb.
  assert (Hl : 0 <= Z.lor a b) by (apply Z.lor_nonneg; lia).
  split; [exact Hl|].
  destruct (Z.eq_dec (Z.lor a b) 0) as [-> | Hnz]; [lia|].
  assert (Hn : 0 < n).
  { destruct (Z.ltb_spec 0 n) as [|Hle]; [assumption|].
    exfalso. apply Hnz.
    assert (2 ^ n <= 1).
    { destruct (Z.eq_dec n 0) as [-> | ]; [cbn; lia|].
      rewrite Z.pow_neg_r by lia. lia. }
    replace a with 0 by lia. replace b with 0 by lia. reflexivity. }
  apply Z.log2_lt_pow2; [lia|].
  rewrite Z.log2_lor by lia.
  apply Z.max_lub_lt.
  - destruct (Z.eq_dec a 0) as [-> | ]; [cbn; lia|]. apply Z.log2_lt_pow2; lia.
  - destruct (Z.eq_dec b 0) as [-> | ]; [cbn; lia|]. apply Z.log2_lt_pow2; lia.
Qed.

Lemma Uint32_two_bytes (a b : byte) : 0 <= binary.Uint32 [a; b; x00; x00] < 2 ^ 16.
Proof.
  unfold binary.Uint32. cbn [nth].
  change (Z_of_byte x00) with 0. rewrite !Z.shiftl_0_l. rewrite Z.lor_0_r.
  pose proof (Z_of_byte_range a). pose proof (Z_of_byte_range b).
  apply lor_lt_pow2; [lia|].
  rewrite Z.shiftl_mul_pow2 by lia. lia.
Qed.

Lemma slice_8_12 (b : bytes) :
  length b = 40%nat ->
  slice b 8 12 = [nth 8 b x00; nth 9 b x00; nth 10 b x00; nth 11 b x00].
Proof. intros H. explode b H. reflexivity. Qed.

Lemma readBinary_face_count (m m' : Mesh) (b : bufio.Reader) (n : Z) :
  readBinary m b = (m', n, None) -> len (Faces m') < 2 ^ 16.
Proof.
  unfold readBinary.
  pose proof (bufio_Read_length b (Z.to_nat nHeaderSize)) as Hp.
  destruct (bufio.Read b (Z.to_nat nHeaderSize)) as [[p [e|]] buf1]; [discriminate|].
  destruct (binary.Uint16 _ =? nHeader); [|discriminate].
  pose proof (bufio_Read_length buf1
                (Z.to_nat (nHeader - nHeaderSize) - Z.to_nat nHeaderSize)) as Hp2.
  destruct (bufio.Read buf1 _) as [[p2 [e2|]] buf2]; [discriminate|].
  cbn [fst] in Hp, Hp2.
  set (scratch := store (store _ 0 p) _ p2).
  destruct (negb _); [discriminate|].
  destruct (negb _); [discriminate|].
  cbn [HasColor Vertices Faces setHasColor setVertices setFaces].
  destruct (readVertices _ _ _ _) as [[[vs buf3] b3] [e3|]]; [discriminate|].
  pose proof (readFaceRecords_length
                (repeat zeroFace (Z.to_nat (binary.Uint32 (slice scratch 8 12)))) buf3 b3) as Hl.
  cbn [HasColor Vertices Faces setHasColor setVertices setFaces].
  destruct (readFaceRecords _ _ _) as [[fs buf4] [e4|]]; [discriminate|].
  intros H. injection H as <- _. cbn [Faces setFaces fst] in *.
  unfold len. rewrite Hl, repeat_length.
  assert (Hs : length scratch = 40%nat) by (subst scratch; now rewrite !store_length).
  rewrite (slice_8_12 scratch Hs).
  assert (H10 : nth 10 scratch x00 = x00).
  { subst scratch. rewrite store_nth_after by (cbn in Hp2 |- *; lia).
    rewrite store_nth_after by (cbn in Hp |- *; lia). reflexivity. }
  assert (H11 : nth 11 scratch x00 = x00).
  { subst scratch. rewrite store_nth_after by (cbn in Hp2 |- *; lia).
    rewrite store_nth_after by (cbn in Hp |- *; lia). reflexivity. }
  rewrite H10, H11.
  pose proof (Uint32_two_bytes (nth 8 scratch x00) (nth 9 scratch x00)). lia.
Qed.

(** X17: the binary decoder never yields more than 65535 faces.  Of the
    four bytes of the face count it reads the first two, and takes zeros for
    the other two; so on every input it decodes without error the mesh has
    fewer than 65536 faces. *)
Theorem X17_binary_decode_counts_faces_on_two_bytes
    (Fscanf : fmt.Scanner) (copy : Copy) (m0 m : Mesh) (r : io.Reader) (n : Z) :
  sniff r = Some Version2_00 ->
  ReadFrom Fscanf copy m0 r = (m, n, None) ->
  len (Faces m) < 2 ^ 16.
Proof.
  unfold sniff, open, ReadFrom.
  destruct (bufio.ReadLine _) as [[[line pfx] [e|]] b]; [discriminate|].
  intros H. injection H as H. rewrite H.
  change ((Version2_00 =? Version1_00) || (Version2_00 =? Version1_01)) with false.
  change (Version2_00 =? Version2_00) with true. cbv iota.
  apply readBinary_face_count.
Qed.

(** X17 at work on a stream of one vertex and one face. *)
Lemma X17_witness :
  len (Faces (fst (fst (ReadFrom fmt.Fscanf MeshGo usedMesh
    (str "version 2.00" ++ [x0a] ++ wireHeader false 1 1
     ++ vertexRecord false sampleVertex ++ faceRecord (0, 0, 0)))))) < 2 ^ 16.
Proof.
  apply (X17_binary_decode_counts_faces_on_two_bytes fmt.Fscanf MeshGo usedMesh
           (fst (fst (ReadFrom fmt.Fscanf MeshGo usedMesh
              (str "version 2.00" ++ [x0a] ++ wireHeader false 1 1
               ++ vertexRecord false sampleVertex ++ faceRecord (0, 0, 0)))))
           (str "version 2.00" ++ [x0a] ++ wireHeader false 1 1
            ++ vertexRecord false sampleVertex ++ faceRecord (0, 0, 0))
           (snd (fst (ReadFrom fmt.Fscanf MeshGo usedMesh
              (str "version 2.00" ++ [x0a] ++ wireHeader false 1 1
               ++ vertexRecord false sampleVertex ++ faceRecord (0, 0, 0)))))).
  - vm_compute. reflexivity.
  - vm_compute. reflexivity.
Defined.

(** ** The vertices of the text decoder *)

Lemma intern_length (verts verts' : VertexMap) (c : MeshVertex) (i : Z) :
  intern verts c = (verts', i) ->
  (verts' = verts \/ (verts' = verts ++ [(c, len verts)] /\ i = len verts)).
Proof.
  unfold intern. destruct (lookup verts c); intros H; injection H as <- <-.
  - left; reflexivity.
  - right; split; reflexivity.
Qed.

(** Every index the map hands out beyond those it held is the index of some
    corner, and it grows by one entry per corner at most. *)
Lemma internAll_covers (cs : list MeshVertex) (verts verts' : VertexMap) (idx : list Z) :
  internAll verts cs = (verts', idx) ->
  (forall j, len verts <= j < len verts' -> In j idx)
  /\ (length verts' <= length verts + length cs)%nat.
Proof.
  revert verts verts' idx. induction cs as [|c cs IH]; intros verts verts' idx H.
  - cbn in H. injection H as <- <-. split; [intros j Hj; lia | cbn; lia].
  - cbn [internAll] in H.
    destruct (intern verts c) as [verts1 i] eqn:Hi.
    destruct (internAll verts1 cs) as [verts2 rest] eqn:Hr.
    injection H as <- <-.
    destruct (IH _ _ _ Hr) as [Hcov Hlen].
    destruct (intern_length _ _ _ _ Hi) as [-> | [-> ->]].
    + split; [intros j Hj; right; apply Hcov; exact Hj | cbn [length]; lia].
    + split.
      * intros j Hj. destruct (Z.eq_dec j (len verts)) as [-> | Hne]; [left; reflexivity|].
        right. apply Hcov. rewrite len_app. cbn. lia.
      * rewrite length_app in Hlen. cbn [length] in *. lia.
Qed.

(** X18: the text decoder makes no vertex that no face uses.  After a
    decoding without error every index below the number of vertices is the
    index of some corner of some face, and there are at most three vertices
    per face. *)
Theorem X18_text_decode_uses_every_vertex (Fscanf : fmt.Scanner) (copy : Copy)
    (m0 m : Mesh) (r : io.Reader) (v : Version) (n : Z) :
  sniff r = Some v ->
  textb v = true ->
  ReadFrom Fscanf copy m0 r = (m, n, None) ->
  (forall i, 0 <= i < len (Vertices m) -> In i (faceIndices m))
  /\ (length (Vertices m) <= 3 * length (Faces m))%nat.
Proof.
  intros Hs Ht H. unfold textb in Ht.
  assert (Hv : v = Version1_00 \/ v = Version1_01).
  { apply orb_true_iff in Ht. destruct Ht as [Ht | Ht]; apply Z.eqb_eq in Ht; auto. }
  destruct (ReadFrom_text_success Fscanf copy m0 m r v n Hs Hv H)
    as (verts & Hwf & Hlen & Hint & Hvs & _).
  destruct (internAll_covers _ _ _ _ Hint) as [Hcov Hle].
  rewrite Hvs. split.
  - intros i Hi. apply Hcov. rewrite len_map in Hi. cbn. exact Hi.
  - rewrite length_map. rewrite Hlen in Hle. cbn [length] in Hle. lia.
Qed.

(** X18 at work on a text input of two faces and four vertices. *)
Lemma X18_witness :
  (forall i, 0 <= i < len (Vertices (fst (fst (ReadFrom fmt.Fscanf MeshGo usedMesh quadInput))))
             -> In i (faceIndices (fst (fst (ReadFrom fmt.Fscanf MeshGo usedMesh quadInput)))))
  /\ (length (Vertices (fst (fst (ReadFrom fmt.Fscanf MeshGo usedMesh quadInput))))
      <= 3 * length (Faces (fst (fst (ReadFrom fmt.Fscanf MeshGo usedMesh quadInput)))))%nat.
Proof.
  apply (X18_text_decode_uses_every_vertex fmt.Fscanf MeshGo usedMesh
           (fst (fst (ReadFrom fmt.Fscanf MeshGo usedMesh quadInput))) quadInput Version1_01
           (snd (fst (ReadFrom fmt.Fscanf MeshGo usedMesh quadInput)))).
  - vm_compute. reflexivity.
  - reflexivity.
  - vm_compute. reflexivity.
Defined.

(** ** The count line of the text decoder *)

Lemma digit_isDigit (d : Z) :
  0 <= d < 10 ->
  strconv.isDigit (strconv.digit d) = true
  /\ Z_of_byte (strconv.digit d) - Z_of_byte "0" = d.
Proof.
  intros H.
  assert (Hd : d = 0 \/ d = 1 \/ d = 2 \/ d = 3 \/ d = 4 \/ d = 5 \/ d = 6 \/ d = 7
               \/ d = 8 \/ d = 9) by lia.
  repeat (destruct Hd as [-> | Hd]; [split; reflexivity|]).
  subst d. split; reflexivity.
Qed.

(** Reading back the digits [formatBits] writes in base 10. *)
Lemma parseDigits_formatBits (fuel : nat) (u : Z) (acc : bytes) :
  0 <= u < 2 ^ Z.of_nat fuel ->
  strconv.parseDigits (strconv.formatBits fuel u 10 acc) 0 = strconv.parseDigits acc u.
Proof.
  revert u acc. induction fuel as [|fuel IH]; intros u acc Hu.
  - cbn in Hu. replace u with 0 by lia. reflexivity.
  - cbn [strconv.formatBits].
    rewrite Nat2Z.inj_succ, Z.pow_succ_r in Hu by lia.
    destruct (Z.ltb_spec u 10) as [Hlt | Hge].
    + cbn [strconv.parseDigits].
      destruct (digit_isDigit u) as [Hd Hv]; [lia|]. rewrite Hd, Hv.
      reflexivity.
    + rewrite IH.
      * cbn [strconv.parseDigits].
        destruct (digit_isDigit (u mod 10)) as [Hd Hv];
          [apply Z.mod_pos_bound; lia|].
        rewrite Hd, Hv. f_equal.
        pose proof (Z.div_mod u 10). lia.
      * split; [apply Z.div_pos; lia|].
        apply Z.div_lt_upper_bound; lia.
Qed.

Lemma formatBits_length (fuel : nat) (u base : Z) (acc : bytes) :
  (length acc + Nat.min fuel 1 <= length (strconv.formatBits fuel u base acc))%nat.
Proof.
  revert u acc. induction fuel as [|fuel IH]; intros u acc; [cbn; lia|].
  cbn [strconv.formatBits]. destruct (u <? base); [cbn; lia|].
  specialize (IH (u / base) (strconv.digit (u mod base) :: acc)). cbn [length] in IH.
  cbn [Nat.min]. lia.
Qed.

Lemma parseDigits_digits (s : bytes) (a r : Z) :
  strconv.parseDigits s a = Some r -> forallb strconv.isDigit s = true.
Proof.
  revert a. induction s as [|c s IH]; intros a H; [reflexivity|].
  cbn in H |- *. destruct (strconv.isDigit c); [|discriminate].
  exact (IH _ H).
Qed.

Lemma decimal_parse (k : Z) :
  0 <= k -> strconv.parseDigits (fmt.decimal k) 0 = Some k.
Proof.
  intros Hk. unfold fmt.decimal. rewrite parseDigits_formatBits; [reflexivity|].
  split; [exact Hk|].
  rewrite Nat2Z.inj_succ, Z2Nat.id by apply Z.log2_nonneg.
  destruct (Z.eq_dec k 0) as [-> | Hnz]; [cbn; lia|].
  apply Z.log2_spec. lia.
Qed.

Lemma decimal_digits (k : Z) : 0 <= k -> forallb strconv.isDigit (fmt.decimal k) = true.
Proof. intros Hk. exact (parseDigits_digits _ _ _ (decimal_parse k Hk)). Qed.

Lemma decimal_cons (k : Z) : exists c t, fmt.decimal k = c :: t.
Proof.
  pose proof (formatBits_length (S (Z.to_nat (Z.log2 k))) k 10 []) as H.
  unfold fmt.decimal. destruct (strconv.formatBits _ _ _ _) as [|c t].
  - cbn in H. lia.
  - now exists c, t.
Qed.

(** [Atoi] on a number written in decimal. *)
Lemma Atoi_decimal (k : Z) :
  0 <= k < 2 ^ 63 -> strconv.Atoi (fmt.decimal k) = (k, None).
Proof.
  intros Hk.
  pose proof (decimal_parse k (proj1 Hk)) as Hp.
  pose proof (decimal_digits k (proj1 Hk)) as Hd.
  destruct (decimal_cons k) as (c & t & Hc). rewrite Hc in *.
  unfold strconv.Atoi.
  cbn [forallb] in Hd. apply andb_true_iff in Hd. destruct Hd as [Hd _].
  destruct (Byte.eqb c "-") eqn:E1.
  { apply Byte.byte_dec_bl in E1. subst c. discriminate Hd. }
  destruct (Byte.eqb c "+") eqn:E2.
  { apply Byte.byte_dec_bl in E2. subst c. discriminate Hd. }
  rewrite Hp.
  destruct (Z.leb_spec (2 ^ 63) k); [lia|]. reflexivity.
Qed.

Lemma digitRun_app (s t : bytes) :
  forallb strconv.isDigit s = true -> digitRun (s ++ t) = (length s + digitRun t)%nat.
Proof.
  induction s as [|c s IH]; intros H; [reflexivity|].
  cbn in H |- *. destruct (strconv.isDigit c); [|discriminate].
  now rewrite IH.
Qed.

Lemma digits_not_in (s : bytes) (c : byte) :
  forallb strconv.isDigit s = true -> strconv.isDigit c = false -> ~ In c s.
Proof.
  intros Hs Hc Hin. rewrite forallb_forall in Hs. rewrite (Hs c Hin) in Hc. discriminate.
Qed.

Lemma dropEOL_lineEnd (l eol : bytes) :
  lineEnd eol -> ~ In x0d l -> bufio.dropEOL (l ++ eol) = l.
Proof.
  intros [-> | ->] Hin; unfold bufio.dropEOL; rewrite rev_app_distr; cbn [rev app].
  - destruct (rev l) as [|y front] eqn:E.
    + rewrite <- (rev_involutive l), E. reflexivity.
    + assert (Hy : y <> x0d).
      { intros ->. apply Hin. apply in_rev. rewrite E. left; reflexivity. }
      rewrite <- (rev_involutive l), E.
      destruct y; try reflexivity. contradiction Hy; reflexivity.
  - apply rev_involutive.
Qed.

(** A line read from a buffer that holds it whole. *)
Lemma ReadLine_buffered (b : bufio.Reader) (raw tl : bytes) :
  bufio.buf b = raw ++ tl ->
  bufio.IndexByte raw x0a = Some (pred (length raw)) ->
  bufio.ReadLine b =
  (bufio.dropEOL raw, false, None,
   {| bufio.buf := tl; bufio.rd := bufio.rd b; bufio.err := bufio.err b |}).
Proof.
  intros Hb Hidx.
  pose proof (IndexByte_lt _ _ _ Hidx) as Hpos.
  unfold bufio.ReadLine, bufio.ReadSlice.
  rewrite ReadSliceLoop_eq, Hb, (IndexByte_app _ _ _ _ Hidx).
  replace (S (pred (length raw))) with (length raw) by lia.
  rewrite firstn_app, skipn_app, Nat.sub_diag, firstn_all, skipn_all, firstn_O, skipn_O.
  rewrite app_nil_r. cbn [app bufio.isErr].
  destruct raw; [cbn in Hpos; lia | reflexivity].
Qed.

Lemma IndexByte_lineEnd (l eol : bytes) :
  lineEnd eol -> ~ In x0a l ->
  bufio.IndexByte (l ++ eol) x0a = Some (pred (length (l ++ eol))).
Proof.
  intros [-> | ->] Hin.
  - rewrite IndexByte_end by exact Hin. rewrite length_app. cbn. f_equal. lia.
  - change (l ++ [x0d; x0a]) with (l ++ [x0d] ++ [x0a]). rewrite app_assoc.
    rewrite IndexByte_end.
    + rewrite !length_app. cbn. f_equal. lia.
    + intros H. apply in_app_or in H. destruct H as [H | [H | []]];
        [exact (Hin H) | discriminate H].
Qed.

(** The text decoder on an input whose count line opens with a number in
    decimal: what is left to do is the loop over that many faces. *)
Lemma ReadFrom_count_line
    (Fscanf : fmt.Scanner) (copy : Copy) (m0 : Mesh) (v : Version)
    (eol eol2 : bytes) (k : Z) (suffix rest : bytes) :
  textb v = true ->
  lineEnd eol -> lineEnd eol2 ->
  0 <= k < 2 ^ 63 ->
  digitRun suffix = O -> ~ In x0a suffix -> ~ In x0d suffix ->
  (length (str (Version_String v) ++ eol ++ fmt.decimal k ++ suffix ++ eol2)
   <= bufio.defaultBufSize)%nat ->
  ReadFrom Fscanf copy m0
    (str (Version_String v) ++ eol ++ fmt.decimal k ++ suffix ++ eol2 ++ rest) =
  let input := str (Version_String v) ++ eol ++ fmt.decimal k ++ suffix ++ eol2 ++ rest in
  let m := match copy with
           | Part000 => setHasColor (setVersion m0 v) false
           | MeshGo => m0
           end in
  let m := setFaces m (repeat zeroFace (Z.to_nat k)) in
  match readFaces Fscanf v (repeat zeroFace (Z.to_nat k))
          {| bufio.buf := firstn (bufio.defaultBufSize - (length input - length rest)) rest;
             bufio.rd := {| readReporter.r := skipn bufio.defaultBufSize input;
                            readReporter.n := Z.min (len input) 4096 |};
             bufio.err := None |} [] with
  | (faces, buf, _, Some e) => (setFaces m faces, BytesRead buf, Some e)
  | (faces, buf, verts, None) =>
      (setVertices (setFaces m faces) (rangeVerts verts), BytesRead buf, None)
  end.
Proof.
  intros Ht Heol Heol2 Hk Hrun Hnl Hcr Hfit. cbv zeta.
  assert (Hv : v = Version1_00 \/ v = Version1_01).
  { unfold textb in Ht. apply orb_true_iff in Ht.
    destruct Ht as [Ht | Ht]; apply Z.eqb_eq in Ht; auto. }
  pose proof (decimal_digits k (proj1 Hk)) as Hd.
  unfold ReadFrom. rewrite app_assoc.
  rewrite ReadLine_first;
    [| destruct Hv as [-> | ->], Heol as [-> | ->]; reflexivity
     | rewrite !length_app in *; lia].
  replace (VersionFromString (bufio.dropEOL (str (Version_String v) ++ eol))) with v
    by (destruct Hv as [-> | ->], Heol as [-> | ->]; reflexivity).
  unfold textb in Ht. rewrite Ht. unfold readText.
  replace (fmt.decimal k ++ suffix ++ eol2 ++ rest)
    with (((fmt.decimal k ++ suffix) ++ eol2) ++ rest)
    by (rewrite <- !app_assoc; reflexivity).
  rewrite firstn_prefix by (rewrite !length_app in *; lia).
  assert (Hin : ~ In x0a (fmt.decimal k ++ suffix)).
  { intros H. apply in_app_or in H. destruct H as [H | H]; [|exact (Hnl H)].
    exact (digits_not_in _ x0a Hd eq_refl H). }
  assert (Hin' : ~ In x0d (fmt.decimal k ++ suffix)).
  { intros H. apply in_app_or in H. destruct H as [H | H]; [|exact (Hcr H)].
    exact (digits_not_in _ x0d Hd eq_refl H). }
  erewrite ReadLine_buffered;
    [| reflexivity | apply IndexByte_lineEnd; assumption].
  rewrite dropEOL_lineEnd by assumption.
  rewrite digitRun_app, Hrun, Nat.add_0_r by exact Hd.
  rewrite firstn_app, Nat.sub_diag, firstn_all, firstn_O, app_nil_r.
  rewrite Atoi_decimal by exact Hk.
  cbn [Faces setFaces bufio.rd bufio.err].
  replace (bufio.defaultBufSize - length (str (Version_String v) ++ eol)
           - length ((fmt.decimal k ++ suffix) ++ eol2))%nat
    with (bufio.defaultBufSize
          - (length ((str (Version_String v) ++ eol)
                     ++ ((fmt.decimal k ++ suffix) ++ eol2) ++ rest) - length rest))%nat
    by (rewrite !length_app; lia).
  rewrite <- !app_assoc.
  destruct copy; reflexivity.
Qed.

(** X19: the face count of a text input is the number its second line
    starts with, written in decimal; what follows the digits on that line is
    passed over.  So an input that decodes without error yields that many
    faces. *)
Theorem X19_text_decode_reads_the_count_in_decimal
    (Fscanf : fmt.Scanner) (copy : Copy) (m0 m : Mesh) (v : Version)
    (eol eol2 : bytes) (k : Z) (suffix rest : bytes) (n : Z) :
  textb v = true ->
  lineEnd eol -> lineEnd eol2 ->
  0 <= k < 2 ^ 63 ->
  digitRun suffix = O -> ~ In x0a suffix -> ~ In x0d suffix ->
  (length (str (Version_String v) ++ eol ++ fmt.decimal k ++ suffix ++ eol2)
   <= bufio.defaultBufSize)%nat ->
  ReadFrom Fscanf copy m0
    (str (Version_String v) ++ eol ++ fmt.decimal k ++ suffix ++ eol2 ++ rest) = (m, n, None) ->
  len (Faces m) = k.
Proof.
  intros Ht Heol Heol2 Hk Hrun Hnl Hcr Hfit.
  rewrite ReadFrom_count_line by assumption. cbv zeta.
  destruct (readFaces _ _ _ _ _) as [[[faces buf] verts] [e|]] eqn:Hr; [discriminate|].
  intros H. injection H as <- _.
  apply readFaces_ok in Hr. destruct Hr as [Hlen _].
  cbn [Faces setFaces setVertices]. unfold len. rewrite Hlen, repeat_length. lia.
Qed.

(** X19 at work on a count line that reads [2 faces]. *)
Lemma X19_witness :
  len (Faces (fst (fst (ReadFrom fmt.Fscanf MeshGo usedMesh
    (str (Version_String Version1_01) ++ [x0a] ++ fmt.decimal 2 ++ str " faces" ++ [x0a]
     ++ cornerA ++ cornerB ++ cornerC ++ cornerB ++ cornerD ++ cornerC))))) = 2.
Proof.
  apply (X19_text_decode_reads_the_count_in_decimal fmt.Fscanf MeshGo usedMesh
           (fst (fst (ReadFrom fmt.Fscanf MeshGo usedMesh
              (str (Version_String Version1_01) ++ [x0a] ++ fmt.decimal 2 ++ str " faces"
               ++ [x0a] ++ cornerA ++ cornerB ++ cornerC ++ cornerB ++ cornerD ++ cornerC))))
           Version1_01 [x0a] [x0a] 2 (str " faces")
           (cornerA ++ cornerB ++ cornerC ++ cornerB ++ cornerD ++ cornerC)
           (snd (fst (ReadFrom fmt.Fscanf MeshGo usedMesh
              (str (Version_String Version1_01) ++ [x0a] ++ fmt.decimal 2 ++ str " faces"
               ++ [x0a] ++ cornerA ++ cornerB ++ cornerC ++ cornerB ++ cornerD ++ cornerC))))).
  - reflexivity.
  - left; reflexivity.
  - left; reflexivity.
  - lia.
  - reflexivity.
  - cbn. intros H. repeat (destruct H as [H | H]; [discriminate H|]). exact H.
  - cbn. intros H. repeat (destruct H as [H | H]; [discriminate H|]). exact H.
  - vm_compute. lia.
  - vm_compute. reflexivity.
Defined.

(** ** The byte count of the decoder *)

Section Accounting.
Variable input : bytes.
Variable lo : Z.
Hypothesis Hlen : len input < 2 ^ 63.

Lemma counted_bounds (rd : readReporter.t) :
  counted input lo rd -> lo <= readReporter.n rd <= len input.
Proof.
  intros (pre & Hi & Hn & Hlo). rewrite Hn. split; [exact Hlo|].
  rewrite Hi, len_app. pose proof (len_nonneg (readReporter.r rd)). lia.
Qed.

Lemma rr_Read_counted (rd : readReporter.t) (k : nat) :
  counted input lo rd -> counted input lo (snd (readReporter.Read rd k)).
Proof.
  intros (pre & Hi & Hn & Hlo). unfold readReporter.Read, io.Read.
  pose proof (len_nonneg pre) as Hp.
  destruct (readReporter.r rd) as [|c r] eqn:E; cbn [snd].
  - exists pre. cbn [readReporter.r readReporter.n]. split; [exact Hi|].
    split; [|exact Hlo]. rewrite Hn. change (len (@nil byte)) with 0.
    rewrite Z.add_0_r. apply int64_small.
    rewrite Hi, len_app in Hlen. change (len (@nil byte)) with 0 in Hlen. lia.
  - exists (pre ++ firstn k (c :: r)). cbn [readReporter.r readReporter.n].
    split; [rewrite <- app_assoc, firstn_skipn; exact Hi|].
    rewrite len_app, Hn.
    pose proof (len_nonneg (firstn k (c :: r))) as Hf.
    split; [|lia].
    apply int64_small.
    assert (len (firstn k (c :: r)) <= len (c :: r))
      by (unfold len; rewrite length_firstn; lia).
    rewrite Hi, len_app in Hlen. lia.
Qed.

Lemma fillLoop_accounted (i : nat) (b : bufio.Reader) :
  accounted input lo b -> accounted input lo (bufio.fillLoop i b).
Proof.
  revert b. induction i as [|i IH]; intros b Hb; [exact Hb|].
  rewrite fillLoop_S.
  pose proof (rr_Read_counted (bufio.rd b) (bufio.defaultBufSize - bufio.Buffered b) Hb) as Hr.
  destruct (readReporter.Read _ _) as [[p e] rd']. cbn [snd] in Hr.
  destruct e; [exact Hr|].
  destruct (0 <? length p)%nat; [exact Hr|]. apply IH. exact Hr.
Qed.

Lemma ReadSliceLoop_accounted (fuel : nat) (b : bufio.Reader) (delim : byte) :
  accounted input lo b -> accounted input lo (snd (bufio.ReadSliceLoop fuel b delim)).
Proof.
  revert b. induction fuel as [|fuel IH]; intros b Hb; rewrite ReadSliceLoop_eq;
    destruct (bufio.IndexByte _ _); try exact Hb;
    destruct (bufio.err b); try exact Hb;
    destruct (bufio.defaultBufSize <=? bufio.Buffered b)%nat; try exact Hb.
  apply IH. apply fillLoop_accounted. exact Hb.
Qed.

Lemma ReadLine_accounted (b : bufio.Reader) :
  accounted input lo b -> accounted input lo (snd (bufio.ReadLine b)).
Proof.
  intros Hb. unfold bufio.ReadLine, bufio.ReadSlice.
  pose proof (ReadSliceLoop_accounted (S (S bufio.defaultBufSize)) b x0a Hb) as H.
  destruct (bufio.ReadSliceLoop _ _ _) as [[line e] b1]. cbn [snd] in H.
  destruct (bufio.isErr e bufio.ErrBufferFull).
  - destruct (rev line) as [|c front]; [exact H|]. destruct c; exact H.
  - destruct line; exact H.
Qed.

Lemma bufio_Read_accounted (b : bufio.Reader) (k : nat) :
  accounted input lo b -> accounted input lo (snd (bufio.Read b k)).
Proof.
  intros Hb. unfold bufio.Read. destruct k as [|k].
  - destruct (bufio.buf b); exact Hb.
  - destruct (bufio.buf b); [|exact Hb].
    destruct (bufio.err b); [exact Hb|].
    destruct (bufio.defaultBufSize <=? S k)%nat.
    + pose proof (rr_Read_counted (bufio.rd b) (S k) Hb) as Hr.
      destruct (readReporter.Read _ _) as [[p e] rd']. exact Hr.
    + pose proof (rr_Read_counted (bufio.rd b) bufio.defaultBufSize Hb) as Hr.
      destruct (readReporter.Read _ _) as [[p e] rd']. destruct p; exact Hr.
Qed.

Lemma ReadRune_accounted (b : bufio.Reader) :
  accounted input lo b -> accounted input lo (snd (bufio.ReadRune b)).
Proof.
  intros Hb. unfold bufio.ReadRune.
  assert (H : accounted input lo
                match bufio.buf b, bufio.err b with
                | [], None => bufio.fill b
                | _, _ => b
                end).
  { destruct (bufio.buf b); [|exact Hb].
    destruct (bufio.err b); [exact Hb|]. apply fillLoop_accounted. exact Hb. }
  destruct (match bufio.buf b, bufio.err b with
            | [], None => bufio.fill b
            | _, _ => b
            end) as [buf rd err].
  destruct buf; exact H.
Qed.

(** The operations of the scan state. *)

Lemma keeps_ret {A : Type} (a : A) : keeps input lo (fmt.ret a).
Proof. intros st H. exact H. Qed.

Lemma keeps_fail {A : Type} (e : error) : keeps input lo (@fmt.fail A e).
Proof. intros st H. exact H. Qed.

Lemma keeps_bind {A B : Type} (m : fmt.ss A) (k : A -> fmt.ss B) :
  keeps input lo m -> (forall a, keeps input lo (k a)) -> keeps input lo (fmt.bind m k).
Proof.
  intros Hm Hk st H. unfold fmt.bind. specialize (Hm st H).
  destruct (m st) as [[a | e] st']; [apply Hk; exact Hm | exact Hm].
Qed.

Lemma keeps_getRune : keeps input lo fmt.getRune.
Proof.
  intros [b atEOF] H. cbn [fst] in H. unfold fmt.getRune.
  destruct atEOF; [exact H|].
  pose proof (ReadRune_accounted b H) as Hr.
  destruct (bufio.ReadRune b) as [[[c|] e] b']; cbn [snd] in Hr; [exact Hr|].
  destruct e as [e|]; [|exact Hr].
  destruct (errors.eqb e io.EOF); exact Hr.
Qed.

Lemma keeps_UnreadRune (c : byte) : keeps input lo (fmt.UnreadRune c).
Proof. intros [b atEOF] H. exact H. Qed.

Ltac keeps_step :=
  match goal with
  | |- keeps _ _ (fmt.bind _ _) => apply keeps_bind; [|intros ?]
  | |- keeps _ _ (fmt.ret _) => apply keeps_ret
  | |- keeps _ _ (fmt.fail _) => apply keeps_fail
  | |- keeps _ _ fmt.getRune => apply keeps_getRune
  | |- keeps _ _ (fmt.UnreadRune _) => apply keeps_UnreadRune
  | |- keeps _ _ (match ?x with _ => _ end) => destruct x
  end.

Lemma keeps_mustReadRune : keeps input lo fmt.mustReadRune.
Proof. unfold fmt.mustReadRune. repeat keeps_step. Qed.

Lemma keeps_peek (ok : string) : keeps input lo (fmt.peek ok).
Proof. unfold fmt.peek. repeat keeps_step. Qed.

Lemma keeps_SkipSpaceLoop (fuel : nat) : keeps input lo (fmt.SkipSpaceLoop fuel).
Proof.
  induction fuel as [|fuel IH]; cbn [fmt.SkipSpaceLoop]; [apply keeps_ret|].
  apply keeps_bind; [apply keeps_getRune|]. intros [c|]; [|apply keeps_ret].
  destruct (Byte.eqb c x0d).
  - apply keeps_bind; [apply keeps_peek | intros _; exact IH].
  - destruct (Byte.eqb c x0a); [apply keeps_fail|].
    destruct (fmt.isSpace c); [exact IH | apply keeps_UnreadRune].
Qed.

Lemma keeps_SkipSpace : keeps input lo fmt.SkipSpace.
Proof. intros st H. unfold fmt.SkipSpace. apply keeps_SkipSpaceLoop. exact H. Qed.

Lemma keeps_accept (ok : string) (tok : bytes) : keeps input lo (fmt.accept ok tok).
Proof. unfold fmt.accept. repeat keeps_step. Qed.

Lemma keeps_acceptLoop (fuel : nat) (ok : string) (tok : bytes) :
  keeps input lo (fmt.acceptLoop fuel ok tok).
Proof.
  revert tok. induction fuel as [|fuel IH]; intros tok; cbn [fmt.acceptLoop];
    [apply keeps_ret|].
  apply keeps_bind; [apply keeps_accept|]. intros [[|] tok']; [apply IH | apply keeps_ret].
Qed.

Lemma keeps_acceptAll (ok : string) (tok : bytes) : keeps input lo (fmt.acceptAll ok tok).
Proof. intros st H. unfold fmt.acceptAll. apply keeps_acceptLoop. exact H. Qed.

Lemma keeps_accept3 (a b c : string) (tok : bytes) : keeps input lo (fmt.accept3 a b c tok).
Proof.
  unfold fmt.accept3.
  apply keeps_bind; [apply keeps_accept|]. intros [[|] tok1]; [|apply keeps_ret].
  apply keeps_bind; [apply keeps_accept|]. intros [[|] tok2]; [|apply keeps_ret].
  apply keeps_accept.
Qed.

Lemma keeps_floatToken : keeps input lo fmt.floatToken.
Proof.
  unfold fmt.floatToken.
  apply keeps_bind; [apply keeps_accept3|]. intros [[|] tok]; [apply keeps_ret|].
  apply keeps_bind; [apply keeps_accept|]. intros [sg tok1].
  apply keeps_bind; [apply keeps_accept3|]. intros [[|] tok2]; [apply keeps_ret|].
  apply keeps_bind; [apply keeps_accept|]. intros [z tok3].
  apply keeps_bind; [destruct z; [apply keeps_accept | apply keeps_ret]|].
  intros [hex tok4]. cbv zeta.
  apply keeps_bind; [apply keeps_acceptAll|]. intros tok5.
  apply keeps_bind; [apply keeps_accept|]. intros [dot tok6].
  apply keeps_bind; [destruct dot; [apply keeps_acceptAll | apply keeps_ret]|].
  intros tok7.
  apply keeps_bind; [apply keeps_accept|]. intros [[|] tok8]; [|apply keeps_ret].
  apply keeps_bind; [apply keeps_accept|]. intros [sg2 tok9].
  apply keeps_acceptAll.
Qed.

Lemma keeps_convertFloat (tok : bytes) : keeps input lo (fmt.convertFloat tok).
Proof.
  unfold fmt.convertFloat. destruct (existsb _ tok); [apply keeps_fail|].
  destruct (strconv.ParseFloat tok) as [f [e|]]; [apply keeps_fail | apply keeps_ret].
Qed.

Lemma keeps_notEOF : keeps input lo fmt.notEOF.
Proof. unfold fmt.notEOF. repeat keeps_step. Qed.

Lemma keeps_scanFloat : keeps input lo fmt.scanFloat.
Proof.
  unfold fmt.scanFloat.
  apply keeps_bind; [apply keeps_SkipSpace|]. intros _.
  apply keeps_bind; [apply keeps_SkipSpace|]. intros _.
  apply keeps_bind; [apply keeps_notEOF|]. intros _.
  apply keeps_bind; [apply keeps_floatToken|]. intros tok.
  apply keeps_convertFloat.
Qed.

Lemma keeps_literal (c : byte) : keeps input lo (fmt.literal c).
Proof.
  unfold fmt.literal.
  apply keeps_bind; [apply keeps_mustReadRune|]. intros inputc.
  destruct (Byte.eqb c inputc); [apply keeps_ret|].
  apply keeps_bind; [apply keeps_UnreadRune | intros _; apply keeps_fail].
Qed.

Lemma keeps_scanTriple : keeps input lo fmt.scanTriple.
Proof.
  unfold fmt.scanTriple.
  apply keeps_bind; [apply keeps_literal|]. intros _.
  apply keeps_bind; [apply keeps_scanFloat|]. intros a.
  apply keeps_bind; [apply keeps_literal|]. intros _.
  apply keeps_bind; [apply keeps_scanFloat|]. intros b.
  apply keeps_bind; [apply keeps_literal|]. intros _.
  apply keeps_bind; [apply keeps_scanFloat|]. intros c.
  apply keeps_bind; [apply keeps_literal|]. intros _.
  apply keeps_ret.
Qed.

Lemma Fscanf_accounted (b : bufio.Reader) :
  accounted input lo b -> accounted input lo (fst (fst (fmt.Fscanf b))).
Proof.
  intros H. unfold fmt.Fscanf.
  assert (Hk : keeps input lo
                 (fmt.bind fmt.scanTriple (fun p =>
                  fmt.bind fmt.scanTriple (fun n =>
                  fmt.bind fmt.scanTriple (fun t => fmt.ret (p, n, t)))))).
  { apply keeps_bind; [apply keeps_scanTriple|]. intros p.
    apply keeps_bind; [apply keeps_scanTriple|]. intros n.
    apply keeps_bind; [apply keeps_scanTriple|]. intros t. apply keeps_ret. }
  specialize (Hk (b, false) H).
  destruct (fmt.bind _ _ (b, false)) as [[v | e] [b' flag]]; exact Hk.
Qed.

(** The loops of the decoder, for a scanner that keeps the count. *)

Section DecoderAccounting.
Variable Fscanf : fmt.Scanner.
Hypothesis HF : forall b, accounted input lo b -> accounted input lo (fst (fst (Fscanf b))).

Lemma accounted_count (b : bufio.Reader) :
  accounted input lo b -> lo <= BytesRead b <= len input.
Proof. intros H. exact (counted_bounds _ H). Qed.

Lemma readCorner_accounted (version : Version) (buf : bufio.Reader) (verts : VertexMap) :
  accounted input lo buf ->
  accounted input lo (fst (fst (fst (readCorner Fscanf version buf verts)))).
Proof.
  intros H. unfold readCorner. specialize (HF buf H).
  destruct (Fscanf buf) as [[buf' s] [e|]]; [exact HF|].
  destruct (lookup verts _); exact HF.
Qed.

Lemma readFace_accounted (version : Version) (face : MeshFace) (buf : bufio.Reader)
    (verts : VertexMap) :
  accounted input lo buf ->
  accounted input lo (snd (fst (fst (readFace Fscanf version face buf verts)))).
Proof.
  intros H. unfold readFace. destruct face as [[f0 f1] f2].
  pose proof (readCorner_accounted version buf verts H) as H1.
  destruct (readCorner Fscanf version buf verts) as [[[b1 v1] i1] [e|]]; [exact H1|].
  pose proof (readCorner_accounted version b1 v1 H1) as H2.
  destruct (readCorner Fscanf version b1 v1) as [[[b2 v2] i2] [e|]]; [exact H2|].
  pose proof (readCorner_accounted version b2 v2 H2) as H3.
  destruct (readCorner Fscanf version b2 v2) as [[[b3 v3] i3] [e|]]; exact H3.
Qed.

Lemma readFaces_accounted (version : Version) (faces : list MeshFace) (buf : bufio.Reader)
    (verts : VertexMap) :
  accounted input lo buf ->
  accounted input lo (snd (fst (fst (readFaces Fscanf version faces buf verts)))).
Proof.
  revert buf verts. induction faces as [|face faces IH]; intros buf verts H; [exact H|].
  cbn [readFaces].
  pose proof (readFace_accounted version face buf verts H) as H1.
  destruct (readFace Fscanf version face buf verts) as [[[f1 b1] v1] [e|]]; [exact H1|].
  specialize (IH b1 v1 H1).
  destruct (readFaces Fscanf version faces b1 v1) as [[[fs b2] v2] e]. exact IH.
Qed.

Lemma readVertices_accounted (hasColor : bool) (vs : list MeshVertex) (buf : bufio.Reader)
    (b : bytes) :
  accounted input lo buf ->
  accounted input lo (snd (fst (fst (readVertices hasColor vs buf b)))).
Proof.
  revert buf b. induction vs as [|v vs IH]; intros buf b H; [exact H|].
  cbn [readVertices].
  pose proof (bufio_Read_accounted buf
                (Z.to_nat (if hasColor then nColor else nVertex)) H) as H1.
  destruct (bufio.Read buf _) as [[p [e|]] buf1]; [exact H1|].
  specialize (IH buf1 (store b 0 p) H1).
  destruct (readVertices hasColor vs buf1 (store b 0 p)) as [[[rest buf2] b2] e]. exact IH.
Qed.

Lemma readFaceRecords_accounted (fs : list MeshFace) (buf : bufio.Reader) (b : bytes) :
  accounted input lo buf ->
  accounted input lo (snd (fst (readFaceRecords fs buf b))).
Proof.
  revert buf b. induction fs as [|f fs IH]; intros buf b H; [exact H|].
  cbn [readFaceRecords].
  pose proof (bufio_Read_accounted buf (Z.to_nat nFace) H) as H1.
  destruct (bufio.Read buf _) as [[p [e|]] buf1]; [exact H1|].
  specialize (IH buf1 (store b 0 p) H1).
  destruct (readFaceRecords fs buf1 (store b 0 p)) as [[rest buf2] e]. exact IH.
Qed.

Lemma readText_count (copy : Copy) (version : Version) (m : Mesh) (b : bufio.Reader) :
  accounted input lo b ->
  lo <= snd (fst (readText Fscanf copy version m b)) <= len input.
Proof.
  intros H. unfold readText.
  pose proof (ReadLine_accounted b H) as H1.
  destruct (bufio.ReadLine b) as [[[line pfx] [e|]] b1]; cbn [snd] in H1;
    [apply accounted_count; exact H1|].
  destruct (strconv.Atoi _) as [n e].
  match goal with
  | |- context [readFaces Fscanf version ?fs b1 ?vs] =>
      pose proof (readFaces_accounted version fs b1 vs H1) as H2;
      destruct (readFaces Fscanf version fs b1 vs) as [[[faces b2] verts] [e2|]]
  end; apply accounted_count; exact H2.
Qed.

Lemma readBinary_count (m : Mesh) (b : bufio.Reader) :
  accounted input lo b ->
  lo <= snd (fst (readBinary m b)) <= len input.
Proof.
  intros H. unfold readBinary.
  pose proof (bufio_Read_accounted b (Z.to_nat nHeaderSize) H) as H1.
  destruct (bufio.Read b _) as [[p [e|]] b1]; cbn [snd] in H1;
    [apply accounted_count; exact H1|].
  destruct (binary.Uint16 _ =? nHeader); [|apply accounted_count; exact H1].
  pose proof (bufio_Read_accounted b1
                (Z.to_nat (nHeader - nHeaderSize) - Z.to_nat nHeaderSize) H1) as H2.
  destruct (bufio.Read b1 _) as [[p2 [e2|]] b2]; cbn [snd] in H2;
    [apply accounted_count; exact H2|].
  destruct (negb _); [apply accounted_count; exact H2|].
  destruct (negb _); [apply accounted_count; exact H2|].
  match goal with
  | |- context [readVertices ?c ?vs b2 ?s] =>
      pose proof (readVertices_accounted c vs b2 s H2) as H3;
      destruct (readVertices c vs b2 s) as [[[vs' b3] s'] [e3|]]
  end; cbn [snd fst] in H3; [apply accounted_count; exact H3|].
  match goal with
  | |- context [readFaceRecords ?fs b3 ?s] =>
      pose proof (readFaceRecords_accounted fs b3 s H3) as H4;
      destruct (readFaceRecords fs b3 s) as [[fs' b4] [e4|]]
  end; apply accounted_count; exact H4.
Qed.

End DecoderAccounting.
End Accounting.

Lemma Fscanf_fetches : fetches fmt.Fscanf.
Proof. intros input lo b Hlen H. exact (Fscanf_accounted input lo Hlen b H). Qed.

(** The first line is read from a buffer the reader has just filled: by
    then it has fetched the first 4096 bytes of the input, or all of it. *)
Lemma ReadLine_open_accounted (c : byte) (r : bytes) :
  len (c :: r) < 2 ^ 63 ->
  accounted (c :: r) (Z.min (len (c :: r)) 4096) (snd (bufio.ReadLine (open (c :: r)))).
Proof.
  intros Hlen. unfold bufio.ReadLine, bufio.ReadSlice, open, bufio.NewReader.
  rewrite ReadSliceLoop_eq.
  cbn [bufio.buf bufio.err bufio.IndexByte bufio.Buffered length].
  change (bufio.defaultBufSize <=? 0)%nat with false. cbv iota.
  rewrite (fill_data _ c r)
    by first [reflexivity | cbn [bufio.Buffered bufio.buf length]; unfold bufio.defaultBufSize; lia].
  cbn [bufio.Buffered bufio.buf bufio.rd bufio.err length readReporter.n app].
  rewrite Nat.sub_0_r.
  match goal with
  | |- context [bufio.ReadSliceLoop ?f ?b x0a] =>
      assert (H : accounted (c :: r) (Z.min (len (c :: r)) 4096) b);
      [| pose proof (ReadSliceLoop_accounted (c :: r) _ Hlen f b x0a H) as H1;
         destruct (bufio.ReadSliceLoop f b x0a) as [[line e] b1] ]
  end.
  - exists (firstn bufio.defaultBufSize (c :: r)).
    cbn [accounted bufio.rd readReporter.r readReporter.n].
    split; [symmetry; apply firstn_skipn|].
    rewrite int64_len_firstn by lia.
    assert (Hl : len (firstn bufio.defaultBufSize (c :: r)) = Z.min (len (c :: r)) 4096).
    { unfold len. rewrite length_firstn. unfold bufio.defaultBufSize. lia. }
    rewrite Hl. unfold bufio.defaultBufSize. split; [reflexivity | lia].
  - cbn [snd] in H1.
    destruct (bufio.isErr e bufio.ErrBufferFull).
    + destruct (rev line) as [|y front]; [exact H1|]. destruct y; exact H1.
    + destruct line; exact H1.
Qed.

(** X20: the count the decoder returns is a count of bytes of the input:
    never more than the input holds, and never less than what the first
    filling of the buffer fetches, 4096 bytes or the whole input.  So on an
    input of at most 4096 bytes the count is the length of the input,
    wherever the decoding ends. *)
Theorem X20_count_is_within_the_input (Fscanf : fmt.Scanner) (copy : Copy) (m : Mesh)
    (r : io.Reader) :
  fetches Fscanf ->
  len r < 2 ^ 63 ->
  Z.min (len r) 4096 <= snd (fst (ReadFrom Fscanf copy m r)) <= len r.
Proof.
  intros HF Hlen. destruct r as [|c r].
  - assert (H : ReadFrom Fscanf copy m [] = (m, 0, Some io.EOF)) by (vm_compute; reflexivity).
    rewrite H. cbn. lia.
  - pose proof (ReadLine_open_accounted c r Hlen) as H.
    unfold ReadFrom. fold (open (c :: r)).
    destruct (bufio.ReadLine (open (c :: r))) as [[[line pfx] [e|]] b]; cbn [snd] in H.
    + cbn [fst snd]. exact (counted_bounds _ _ _ H).
    + destruct ((VersionFromString line =? Version1_00)
                || (VersionFromString line =? Version1_01)).
      * apply (readText_count (c :: r) _ Hlen Fscanf); [|exact H].
        intros b0 Hb0. exact (HF _ _ b0 Hlen Hb0).
      * destruct (VersionFromString line =? Version2_00).
        -- apply (readBinary_count (c :: r) _ Hlen); exact H.
        -- cbn [fst snd]. exact (counted_bounds _ _ _ H).
Qed.

(** X20 at work on a text input of two faces. *)
Lemma X20_witness :
  Z.min (len quadInput) 4096
  <= snd (fst (ReadFrom fmt.Fscanf MeshGo usedMesh quadInput)) <= len quadInput.
Proof.
  apply (X20_count_is_within_the_input fmt.Fscanf MeshGo usedMesh quadInput).
  - exact Fscanf_fetches.
  - vm_compute. reflexivity.
Defined.

(** ** The text decoder on an input that ends after the count line *)

(** [fmt.Fscanf] on a reader that has nothing left: the literal that opens
    the format finds the end of the input. *)
Lemma Fscanf_at_end (n : Z) :
  fmt.Fscanf {| bufio.buf := [];
                bufio.rd := {| readReporter.r := []; readReporter.n := n |};
                bufio.err := None |} =
  ({| bufio.buf := [];
      bufio.rd := {| readReporter.r := []; readReporter.n := int64 (n + 0) |};
      bufio.err := None |},
   fmt.noScan, Some io.ErrUnexpectedEOF).
Proof. reflexivity. Qed.

(** X21: a text input that ends with a count line that announces faces
    makes the decoder, scanning with [fmt.Fscanf], fail with
    [io.ErrUnexpectedEOF].  The count is the length of the input.  The mesh
    has got its list of faces by then, one face of three zeros per face
    announced, and has kept the vertices it came with. *)
Theorem X21_text_input_that_ends_after_the_count
    (copy : Copy) (m0 : Mesh) (v : Version) (eol eol2 : bytes) (k : Z) :
  textb v = true ->
  lineEnd eol -> lineEnd eol2 ->
  0 < k < 2 ^ 32 ->
  (length (str (Version_String v) ++ eol ++ fmt.decimal k ++ eol2)
   <= bufio.defaultBufSize)%nat ->
  ReadFrom fmt.Fscanf copy m0 (str (Version_String v) ++ eol ++ fmt.decimal k ++ eol2) =
  ({| Version_ := Version_ (stamped copy m0 v);
      HasColor := match copy with Part000 => false | MeshGo => HasColor m0 end;
      Vertices := Vertices m0;
      Faces := repeat zeroFace (Z.to_nat k) |},
   len (str (Version_String v) ++ eol ++ fmt.decimal k ++ eol2),
   Some io.ErrUnexpectedEOF).
Proof.
  intros Ht Heol Heol2 Hk Hfit.
  pose proof (ReadFrom_count_line fmt.Fscanf copy m0 v eol eol2 k [] [] Ht Heol Heol2) as H.
  cbn [app] in H. rewrite !app_nil_r in H.
  rewrite H; clear H; try (intros []); try reflexivity; try lia; try exact Hfit.
  cbv zeta. rewrite firstn_nil, skipn_all2 by exact Hfit.
  destruct (Z.to_nat k) as [|j] eqn:Hj; [lia|].
  cbn [repeat readFaces readFace zeroFace]. unfold readCorner at 1.
  rewrite Fscanf_at_end.
  unfold BytesRead, readReporter.BytesRead. cbn [bufio.rd readReporter.n].
  rewrite Z.min_l by (unfold len, bufio.defaultBufSize in *; lia).
  rewrite Z.add_0_r, int64_small by (unfold len, bufio.defaultBufSize in *; lia).
  destruct copy; reflexivity.
Qed.

(** X21 at work on a count line that announces three faces. *)
Lemma X21_witness :
  ReadFrom fmt.Fscanf Part000 usedMesh
    (str (Version_String Version1_00) ++ [x0a] ++ fmt.decimal 3 ++ [x0a]) =
  ({| Version_ := Version_ (stamped Part000 usedMesh Version1_00);
      HasColor := false;
      Vertices := Vertices usedMesh;
      Faces := repeat zeroFace (Z.to_nat 3) |},
   len (str (Version_String Version1_00) ++ [x0a] ++ fmt.decimal 3 ++ [x0a]),
   Some io.ErrUnexpectedEOF).
Proof.
  apply (X21_text_input_that_ends_after_the_count Part000 usedMesh Version1_00
           [x0a] [x0a] 3).
  - reflexivity.
  - left; reflexivity.
  - left; reflexivity.
  - lia.
  - vm_compute. lia.
Defined.

(** ** A record that crosses the end of the buffer *)

(** X22: when the record of the last face the header counts crosses the
    end of the buffer, it is cut there.  On an input whose first 4096 bytes
    hold the records before it whole and end inside it, after 1 to 11 of
    its bytes, the decoder makes the last face of the bytes before the cut
    and of what the scratch buffer still held behind them; whatever the
    input holds beyond the cut is not read.  The decoder reports no error
    and a count of 4096. *)
Theorem X22_face_record_across_the_buffer_end
    (Fscanf : fmt.Scanner) (copy : Copy) (m0 : Mesh) (eol : bytes) (hasColor : bool)
    (vrecs frecs : list bytes) (t1 beyond : bytes) :
  lineEnd eol ->
  Forall (fun rec => length rec = recordSize hasColor) vrecs ->
  Forall (fun rec => length rec = 12%nat) frecs ->
  t1 <> [] ->
  (length t1 < 12)%nat ->
  length (str "version 2.00" ++ eol ++ wireHeader hasColor (len vrecs) (len frecs + 1)
          ++ concat vrecs ++ concat frecs ++ t1) = bufio.defaultBufSize ->
  ReadFrom Fscanf copy m0
    (str "version 2.00" ++ eol ++ wireHeader hasColor (len vrecs) (len frecs + 1)
     ++ concat vrecs ++ concat frecs ++ t1 ++ beyond) =
  ({| Version_ := Version_ (stamped copy m0 Version2_00);
      HasColor := hasColor;
      Vertices := map (decodeVertex hasColor) vrecs;
      Faces :=
        map decodeFace frecs
        ++ [decodeFace
              (store (scratchAfter frecs
                        (scratchAfter vrecs
                           (headerScratch hasColor (len vrecs) (len frecs + 1)))) 0 t1)] |},
   4096, None).
Proof.
  intros Heol Hv Hf Hne Hshort Hfit.
  assert (Hlf : length (concat frecs) = (12 * length frecs)%nat)
    by (apply length_concat_records; exact Hf).
  pose proof (ReadFrom_binary_faces Fscanf copy m0 eol hasColor vrecs frecs 1 (t1 ++ beyond)
                Heol Hv Hf) as H.
  change (Z.of_nat 1) with 1 in H.
  rewrite H; clear H.
  - cbv zeta.
    replace (bufio.defaultBufSize
             - (length (str "version 2.00" ++ eol
                        ++ wireHeader hasColor (len vrecs) (len frecs + 1)
                        ++ concat vrecs ++ concat frecs ++ t1 ++ beyond)
                - length (t1 ++ beyond)))%nat
      with (length t1) by (rewrite !length_app in *; lia).
    rewrite firstn_app, Nat.sub_diag, firstn_all, firstn_O, app_nil_r.
    destruct t1 as [|c t]; [contradiction Hne; reflexivity|].
    cbn [repeat readFaceRecords]. change (Z.to_nat nFace) with 12%nat.
    match goal with
    | |- context [bufio.Read ?b 12] => rewrite (Read_buffered b c t 11 eq_refl)
    end.
    rewrite (firstn_all2 (n := 12) (c :: t)) by lia.
    unfold BytesRead, readReporter.BytesRead. cbn [bufio.rd readReporter.n].
    rewrite Z.min_r by (unfold len, bufio.defaultBufSize in *; rewrite !length_app in *; lia).
    reflexivity.
  - rewrite !length_app, Hlf in Hfit. unfold len, bufio.defaultBufSize in *. lia.
  - rewrite !length_app in *. lia.
Qed.

(** X22 at work: 339 face records fill the buffer up to five bytes, and the
    record of the face [(1, 2, 3)] crosses its end. *)
Lemma X22_witness :
  ReadFrom fmt.Fscanf MeshGo usedMesh
    (str "version 2.00" ++ [x0a]
     ++ wireHeader false (len (@nil bytes)) (len (repeat (faceRecord (0, 1, 2)) 339) + 1)
     ++ concat [] ++ concat (repeat (faceRecord (0, 1, 2)) 339)
     ++ [x01; x00; x00; x00; x02] ++ [x00; x00; x00; x03; x00; x00; x00]) =
  ({| Version_ := Version_ (stamped MeshGo usedMesh Version2_00);
      HasColor := false;
      Vertices := map (decodeVertex false) [];
      Faces :=
        map decodeFace (repeat (faceRecord (0, 1, 2)) 339)
        ++ [decodeFace
              (store (scratchAfter (repeat (faceRecord (0, 1, 2)) 339)
                        (scratchAfter []
                           (headerScratch false (len (@nil bytes))
                              (len (repeat (faceRecord (0, 1, 2)) 339) + 1))))
                     0 [x01; x00; x00; x00; x02])] |},
   4096, None).
Proof.
  apply (X22_face_record_across_the_buffer_end fmt.Fscanf MeshGo usedMesh [x0a] false
           [] (repeat (faceRecord (0, 1, 2)) 339) [x01; x00; x00; x00; x02]
           [x00; x00; x00; x03; x00; x00; x00]).
  - left; reflexivity.
  - constructor.
  - apply Forall_forall. intros x Hx. apply repeat_spec in Hx. rewrite Hx. reflexivity.
  - discriminate.
  - cbn. lia.
  - vm_compute. reflexivity.
Defined.

(** The face across the end of the buffer: the input holds [(1, 2, 3)],
    the decoder yields [(1, 2, 2)], with the third index of the face
    before. *)
Example face_across_the_buffer_end :
  nth 339 (Faces (fst (fst (ReadFrom fmt.Fscanf MeshGo usedMesh
    (str "version 2.00" ++ [x0a] ++ wireHeader false 0 340
     ++ concat (repeat (faceRecord (0, 1, 2)) 339) ++ faceRecord (1, 2, 3))))))
      zeroFace = (1, 2, 2).
Proof. vm_compute. reflexivity. Qed.

(** ** Encoding what has been decoded *)

Lemma ReadFrom_Version (Fscanf : fmt.Scanner) (copy : Copy) (m : Mesh) (r : io.Reader) :
  Version_ (fst (fst (ReadFrom Fscanf copy m r))) =
  match copy with
  | MeshGo => Version_ m
  | Part000 => match sniff r with Some v => v | None => Version_ m end
  end.
Proof.
  unfold sniff, open, ReadFrom.
  destruct (bufio.ReadLine _) as [[[line pfx] [e|]] b]; [destruct copy; reflexivity|].
  destruct ((VersionFromString line =? Version1_00) || (VersionFromString line =? Version1_01)).
  - rewrite readText_Version. destruct copy; reflexivity.
  - destruct (VersionFromString line =? Version2_00);
      [rewrite readBinary_Version|]; destruct copy; reflexivity.
Qed.

Lemma encoding_signature (m : Mesh) :
  exists payload, encoding m = signatureLine (Version_ m) ++ payload.
Proof. rewrite encoding_chunks. unfold chunks. cbn [concat]. eexists. reflexivity. Qed.

(** X23: the format in which a decoded mesh is encoded again.  With the
    decoder of [mesh.go] it is the format of the version the mesh held
    before the decoding, binary for a mesh that is new, and not the format
    the mesh was read from; with the decoder of [part_000] it is the format
    of the first line read. *)
Theorem X23_format_of_a_mesh_encoded_again (Fscanf : fmt.Scanner) (copy : Copy) (m0 : Mesh)
    (r : io.Reader) :
  exists payload,
    encoding (fst (fst (ReadFrom Fscanf copy m0 r))) =
    signatureLine
      (match copy with
       | MeshGo => Version_ m0
       | Part000 => match sniff r with Some v => v | None => Version_ m0 end
       end) ++ payload.
Proof.
  destruct (encoding_signature (fst (fst (ReadFrom Fscanf copy m0 r)))) as [payload H].
  exists payload. rewrite H, ReadFrom_Version. reflexivity.
Qed.

(** ** A face record decoded and encoded again *)

Lemma byte_of_Z_of_byte (b : byte) : byte_of_Z (Z_of_byte b) = b.
Proof.
  unfold byte_of_Z. pose proof (Z_of_byte_range b) as H.
  rewrite Z.mod_small by exact H. unfold Z_of_byte. rewrite N2Z.id, Byte.of_to_N.
  reflexivity.
Qed.

Lemma byte_of_Z_mod (z : Z) (b : byte) : z mod 2 ^ 8 = Z_of_byte b -> byte_of_Z z = b.
Proof.
  intros H. rewrite <- (byte_of_Z_of_byte b), <- H.
  unfold byte_of_Z. change 256 with (2 ^ 8). now rewrite Z.mod_mod by lia.
Qed.

Lemma byte_bits_high (b : byte) (j : Z) : 8 <= j -> Z.testbit (Z_of_byte b) j = false.
Proof.
  intros Hj. pose proof (Z_of_byte_range b) as H.
  rewrite <- (Z.mod_small (Z_of_byte b) (2 ^ 8)) by (change (2 ^ 8) with 256; lia).
  apply Z.mod_pow2_bits_high. lia.
Qed.

(** The bits of a little-endian word are those of its four bytes. *)
Lemma testbit_Uint32 (a b c d : byte) (n : Z) :
  0 <= n ->
  Z.testbit (binary.Uint32 [a; b; c; d]) n =
  if n <? 8 then Z.testbit (Z_of_byte a) n
  else if n <? 16 then Z.testbit (Z_of_byte b) (n - 8)
  else if n <? 24 then Z.testbit (Z_of_byte c) (n - 16)
  else Z.testbit (Z_of_byte d) (n - 24).
Proof.
  intros Hn. unfold binary.Uint32. cbn [nth].
  rewrite !Z.lor_spec, !Z.shiftl_spec by lia.
  destruct (Z.ltb_spec n 8).
  { rewrite (Z.testbit_neg_r _ (n - 8)), (Z.testbit_neg_r _ (n - 16)),
      (Z.testbit_neg_r _ (n - 24)) by lia.
    now rewrite !orb_false_r. }
  rewrite (byte_bits_high a n) by lia. cbn [orb].
  destruct (Z.ltb_spec n 16).
  { rewrite (Z.testbit_neg_r _ (n - 16)), (Z.testbit_neg_r _ (n - 24)) by lia.
    now rewrite !orb_false_r. }
  rewrite (byte_bits_high b (n - 8)) by lia. cbn [orb].
  destruct (Z.ltb_spec n 24).
  { rewrite (Z.testbit_neg_r _ (n - 24)) by lia. now rewrite orb_false_r. }
  rewrite (byte_bits_high c (n - 16)) by lia. reflexivity.
Qed.

Lemma Uint32_range (a b c d : byte) : 0 <= binary.Uint32 [a; b; c; d] < 2 ^ 32.
Proof.
  unfold binary.Uint32. cbn [nth].
  pose proof (Z_of_byte_range a). pose proof (Z_of_byte_range b).
  pose proof (Z_of_byte_range c). pose proof (Z_of_byte_range d).
  repeat apply lor_lt_pow2; rewrite ?Z.shiftl_mul_pow2 by lia; lia.
Qed.

Lemma Uint32_shift (a b c d : byte) (k : Z) (x : byte) :
  (k = 0 /\ x = a) \/ (k = 1 /\ x = b) \/ (k = 2 /\ x = c) \/ (k = 3 /\ x = d) ->
  Z.shiftr (binary.Uint32 [a; b; c; d]) (8 * k) mod 2 ^ 8 = Z_of_byte x.
Proof.
  intros Hk. apply Z.bits_inj'. intros n Hn.
  destruct (Z.ltb_spec n 8) as [Hlt | Hge].
  - rewrite Z.mod_pow2_bits_low, Z.shiftr_spec, testbit_Uint32 by lia.
    destruct Hk as [[-> ->] | [[-> ->] | [[-> ->] | [-> ->]]]].
    + replace (n + 8 * 0) with n by lia.
      destruct (Z.ltb_spec n 8); [reflexivity | lia].
    + destruct (Z.ltb_spec (n + 8 * 1) 8); [lia|].
      destruct (Z.ltb_spec (n + 8 * 1) 16); [f_equal; lia | lia].
    + destruct (Z.ltb_spec (n + 8 * 2) 8); [lia|].
      destruct (Z.ltb_spec (n + 8 * 2) 16); [lia|].
      destruct (Z.ltb_spec (n + 8 * 2) 24); [f_equal; lia | lia].
    + destruct (Z.ltb_spec (n + 8 * 3) 8); [lia|].
      destruct (Z.ltb_spec (n + 8 * 3) 16); [lia|].
      destruct (Z.ltb_spec (n + 8 * 3) 24); [lia | f_equal; lia].
  - rewrite Z.mod_pow2_bits_high, byte_bits_high by lia. reflexivity.
Qed.

(** Writing a word read from four bytes gives the four bytes back. *)
Lemma PutUint32_Uint32 (a b c d : byte) :
  binary.PutUint32 (binary.Uint32 [a; b; c; d]) = [a; b; c; d].
Proof.
  unfold binary.PutUint32.
  rewrite (byte_of_Z_mod (binary.Uint32 [a; b; c; d]) a)
    by (rewrite <- (Z.shiftr_0_r (binary.Uint32 [a; b; c; d]));
        apply (Uint32_shift a b c d 0 a); auto).
  rewrite (byte_of_Z_mod (Z.shiftr (binary.Uint32 [a; b; c; d]) 8) b)
    by (apply (Uint32_shift a b c d 1 b); auto).
  rewrite (byte_of_Z_mod (Z.shiftr (binary.Uint32 [a; b; c; d]) 16) c)
    by (apply (Uint32_shift a b c d 2 c); auto).
  rewrite (byte_of_Z_mod (Z.shiftr (binary.Uint32 [a; b; c; d]) 24) d)
    by (apply (Uint32_shift a b c d 3 d); auto 6).
  reflexivity.
Qed.

(** X24: a face record decoded and encoded again is the same twelve bytes:
    an index the decoder has read is one the binary encoder writes back as
    it was. *)
Theorem X24_face_record_round_trip (rec : bytes) :
  length rec = 12%nat -> faceRecord (decodeFace rec) = rec.
Proof.
  intros H. explode rec H.
  unfold decodeFace, faceRecord. cbn [slice skipn firstn Nat.sub].
  unfold uint32. rewrite !Z.mod_small by apply Uint32_range.
  rewrite !PutUint32_Uint32. reflexivity.
Qed.

(** X24 at work on a record with indices above [2 ^ 31]. *)
Lemma X24_witness :
  faceRecord (decodeFace [xff; xff; xff; xff; x00; x00; x00; x80; x01; x02; x03; x04]) =
  [xff; xff; xff; xff; x00; x00; x00; x80; x01; x02; x03; x04].
Proof.
  apply (X24_face_record_round_trip
           [xff; xff; xff; xff; x00; x00; x00; x80; x01; x02; x03; x04]).
  reflexivity.
Defined.

(** ** Floats of 32 bits carried in floats of 64 bits *)

Lemma digits2_size (p : positive) : digits2_pos p = Pos.size p.
Proof. induction p as [p IH | p IH |]; cbn; now rewrite ?IH. Qed.

Lemma digits2_bounds (p : positive) :
  2 ^ Z.pos (digits2_pos p) <= 2 * Z.pos p /\ Z.pos p < 2 ^ Z.pos (digits2_pos p).
Proof.
  rewrite digits2_size. split.
  - pose proof (Pos.size_le p) as H.
    change (2 * Z.pos p) with (Z.pos p~0). rewrite <- Pos2Z.inj_pow. exact H.
  - pose proof (Pos.size_gt p) as H.
    rewrite <- Pos2Z.inj_pow. exact H.
Qed.

Lemma digits2_xO (m d : positive) :
  digits2_pos (Pos.iter xO m d) = (digits2_pos m + d)%positive.
Proof.
  apply (Pos.iter_ind _ xO m (fun p x => digits2_pos x = (digits2_pos m + p)%positive)).
  - cbn. now rewrite Pos.add_1_r.
  - intros p a' H. cbn. now rewrite H, Pos.add_succ_r.
Qed.

Lemma iter_pos_iter {A : Type} (f : A -> A) (p : positive) (x : A) :
  iter_pos f p x = Pos.iter f x p.
Proof.
  revert x. induction p as [p IH | p IH |]; intros x; cbn [iter_pos Pos.iter].
  - now rewrite !IH, !Pos.iter_swap.
  - now rewrite !IH.
  - reflexivity.
Qed.

(** Shifting right by as many bits as were shifted in gives the mantissa
    back, and exactly. *)
Lemma shr_xO (d m : positive) :
  iter_pos shr_1 d {| shr_m := Z.pos (Pos.iter xO m d); shr_r := false; shr_s := false |}
  = {| shr_m := Z.pos m; shr_r := false; shr_s := false |}.
Proof.
  rewrite iter_pos_iter. revert m.
  induction d as [|d IH] using Pos.peano_ind; intros m; [reflexivity|].
  rewrite !Pos.iter_succ. rewrite <- Pos.iter_swap. cbn [shr_1 orb]. apply IH.
Qed.

Lemma round_aux_exact (prec emax : Z) (s : bool) (m : positive) (e : Z) :
  fexp prec emax (Z.pos (digits2_pos m) + e) = e ->
  e <= emax - prec ->
  binary_round_aux prec emax s (Z.pos m) e loc_Exact = S754_finite s m e.
Proof.
  intros Hc He. unfold binary_round_aux, shr_fexp.
  cbn [Zdigits2 shr_record_of_loc]. rewrite Hc, Z.sub_diag.
  cbn [shr shr_m loc_of_shr_record round_nearest_even Zdigits2 shr_record_of_loc].
  rewrite Hc, Z.sub_diag. cbn [shr shr_m].
  destruct (Z.leb_spec e (emax - prec)); [reflexivity | lia].
Qed.

Lemma round_aux_shift (prec emax : Z) (s : bool) (m d : positive) (e : Z) :
  fexp prec emax (Z.pos (digits2_pos (Pos.iter xO m d)) + e) - e = Z.pos d ->
  fexp prec emax (Z.pos (digits2_pos m) + (e + Z.pos d)) = e + Z.pos d ->
  e + Z.pos d <= emax - prec ->
  binary_round_aux prec emax s (Z.pos (Pos.iter xO m d)) e loc_Exact
  = S754_finite s m (e + Z.pos d).
Proof.
  intros Hs Hc He. unfold binary_round_aux, shr_fexp.
  cbn [Zdigits2 shr_record_of_loc]. rewrite Hs.
  cbn [shr]. rewrite shr_xO.
  cbn [shr_m loc_of_shr_record round_nearest_even Zdigits2 shr_record_of_loc].
  rewrite Hc, Z.sub_diag. cbn [shr shr_m].
  destruct (Z.leb_spec (e + Z.pos d) (emax - prec)); [reflexivity | lia].
Qed.

Lemma binary_round_up (prec emax : Z) (s : bool) (m d : positive) (e : Z) :
  fexp prec emax (Z.pos (digits2_pos m) + e) = e - Z.pos d ->
  e - Z.pos d <= emax - prec ->
  binary_round prec emax s m e = S754_finite s (Pos.iter xO m d) (e - Z.pos d).
Proof.
  intros Hf He. unfold binary_round, shl_align. rewrite Hf.
  replace (e - Z.pos d - e) with (Z.neg d) by (rewrite <- Pos2Z.opp_pos; lia).
  apply round_aux_exact; [|exact He].
  rewrite digits2_xO, Pos2Z.inj_add.
  unfold fexp in *. lia.
Qed.

Lemma binary_round_down (prec emax : Z) (s : bool) (m d : positive) (e : Z) :
  fexp prec emax (Z.pos (digits2_pos m) + e) = e ->
  fexp prec emax (Z.pos (digits2_pos (Pos.iter xO m d)) + (e - Z.pos d)) = e ->
  e <= emax - prec ->
  binary_round prec emax s (Pos.iter xO m d) (e - Z.pos d) = S754_finite s m e.
Proof.
  intros Hc Hf He. unfold binary_round, shl_align. rewrite Hf.
  replace (e - (e - Z.pos d)) with (Z.pos d) by lia.
  rewrite (round_aux_shift prec emax s m d (e - Z.pos d)).
  - f_equal. lia.
  - rewrite Hf. lia.
  - replace (e - Z.pos d + Z.pos d) with e by lia. exact Hc.
  - lia.
Qed.

(** A float of 32 bits survives the conversion to 64 bits and back. *)
Lemma float32_round_trip (s : bool) (m : positive) (e : Z) :
  bounded 24 128 m e = true ->
  math.to_float32 (math.to_float64 (S754_finite s m e)) = S754_finite s m e.
Proof.
  intros H. unfold bounded, canonical_mantissa in H.
  apply andb_true_iff in H. destruct H as [Hc He].
  apply Z.eqb_eq in Hc. apply Z.leb_le in He.
  assert (Hd : 1 <= Z.pos (digits2_pos m) <= 24 /\ -149 <= e).
  { unfold fexp, emin in Hc. lia. }
  set (d := Z.to_pos (53 - Z.pos (digits2_pos m))).
  assert (Hpd : Z.pos d = 53 - Z.pos (digits2_pos m)) by (subst d; rewrite Z2Pos.id; lia).
  unfold math.to_float64.
  rewrite (binary_round_up 53 1024 s m d e).
  - unfold math.to_float32. apply binary_round_down; [exact Hc | | exact He].
    rewrite digits2_xO, Pos2Z.inj_add, Hpd.
    unfold fexp, emin in *. lia.
  - unfold fexp, emin. lia.
  - lia.
Qed.

Lemma testbit_signbit (s : bool) (n : Z) :
  0 <= n -> Z.testbit (math.signbit s) n = s && (n =? 31).
Proof.
  intros Hn. unfold math.signbit. destruct s.
  - rewrite Z.pow2_bits_eqb by lia. cbn [andb]. apply Z.eqb_sym.
  - apply Z.testbit_0_l.
Qed.

(** A word of 32 bits is made of its sign, its exponent and its fraction. *)
Lemma compose_bits (u : Z) :
  0 <= u < 2 ^ 32 ->
  Z.lor (math.signbit (Z.testbit u 31))
        (Z.lor (Z.shiftl (Z.land (Z.shiftr u 23) 255) 23) (Z.land u (2 ^ 23 - 1))) = u.
Proof.
  intros Hu. apply Z.bits_inj'. intros n Hn.
  rewrite !Z.lor_spec, testbit_signbit, Z.shiftl_spec, !Z.land_spec by lia.
  change 255 with (Z.ones 8). change (2 ^ 23 - 1) with (Z.ones 23).
  rewrite !Z.testbit_ones by lia.
  destruct (Z.ltb_spec n 23).
  - rewrite (Z.testbit_neg_r _ (n - 23)) by lia.
    replace (n =? 31) with false by (symmetry; apply Z.eqb_neq; lia).
    replace (0 <=? n) with true by (symmetry; apply Z.leb_le; lia).
    rewrite andb_false_r. cbn [orb andb]. now rewrite andb_true_r.
  - rewrite !andb_false_r, orb_false_r.
    rewrite Z.shiftr_spec by lia. replace (n - 23 + 23) with n by lia.
    replace (0 <=? n - 23) with true by (symmetry; apply Z.leb_le; lia). cbn [andb].
    destruct (Z.ltb_spec (n - 23) 8).
    + replace (n =? 31) with false by (symmetry; apply Z.eqb_neq; lia).
      now rewrite andb_false_r, andb_true_r.
    + rewrite andb_false_r, orb_false_r.
      destruct (Z.eqb_spec n 31) as [-> | Hne]; [now rewrite andb_true_r|].
      rewrite andb_false_r. symmetry.
      apply Z.bits_above_log2; [lia|].
      destruct (Z.eq_dec u 0) as [-> | Hnz]; [cbn; lia|].
      apply Z.log2_lt_pow2; [lia|].
      apply Z.lt_le_trans with (2 ^ 32); [lia|].
      apply Z.pow_le_mono_r; lia.
Qed.

Lemma fields_range (u : Z) :
  0 <= Z.land (Z.shiftr u 23) 255 < 2 ^ 8 /\ 0 <= Z.land u (2 ^ 23 - 1) < 2 ^ 23.
Proof.
  change 255 with (Z.ones 8). change (2 ^ 23 - 1) with (Z.ones 23).
  rewrite !Z.land_ones by lia. split; apply Z.mod_pos_bound; lia.
Qed.

(** The bits of the float a word of 32 bits stands for are that word,
    unless it is a NaN. *)
Lemma Float32bits_frombits (u : Z) :
  0 <= u < 2 ^ 32 -> isNaNbits u = false ->
  math.Float32bits (math.Float32frombits u) = u.
Proof.
  intros Hu Hnan. rewrite <- (compose_bits u Hu) at 2.
  unfold isNaNbits in Hnan. unfold math.Float32frombits, math.Float32bits.
  destruct (fields_range u) as [He Hf].
  set (e := Z.land (Z.shiftr u 23) 255) in *.
  set (f := Z.land u (2 ^ 23 - 1)) in *.
  set (s := Z.testbit u 31).
  destruct (Z.eqb_spec e 0) as [He0 | He0].
  - rewrite He0. rewrite Z.shiftl_0_l, Z.lor_0_l.
    destruct (Z.eqb_spec f 0) as [Hf0 | Hf0].
    + rewrite Hf0, Z.lor_0_r. reflexivity.
    + rewrite Z2Pos.id by lia.
      destruct (Z.leb_spec (2 ^ 23) f); [lia | reflexivity].
  - destruct (Z.eqb_spec e 255) as [He1 | He1].
    + rewrite He1 in *. cbn [andb] in Hnan.
      destruct (Z.eqb_spec f 0) as [Hf0 | Hf0]; [|discriminate Hnan].
      rewrite Hf0, Z.lor_0_r. reflexivity.
    + rewrite Z2Pos.id by lia.
      destruct (Z.leb_spec (2 ^ 23) (f + 2 ^ 23)); [|lia].
      replace (e - 150 + 150) with e by lia.
      replace (f + 2 ^ 23 - 2 ^ 23) with f by lia. reflexivity.
Qed.

Lemma digits2_below (p : positive) (k : Z) :
  0 <= k -> Z.pos p < 2 ^ k -> Z.pos (digits2_pos p) <= k.
Proof.
  intros Hk Hp. destruct (digits2_bounds p) as [Hlo _].
  destruct (Z.le_gt_cases (Z.pos (digits2_pos p)) k) as [|Hgt]; [assumption|].
  exfalso.
  assert (2 ^ (k + 1) <= 2 ^ Z.pos (digits2_pos p)) by (apply Z.pow_le_mono_r; lia).
  rewrite Z.pow_add_r in * by lia. lia.
Qed.

Lemma digits2_above (p : positive) (k : Z) :
  0 <= k -> 2 ^ k <= Z.pos p -> k < Z.pos (digits2_pos p).
Proof.
  intros Hk Hp. destruct (digits2_bounds p) as [_ Hhi].
  destruct (Z.lt_ge_cases k (Z.pos (digits2_pos p))) as [|Hle]; [assumption|].
  exfalso.
  assert (2 ^ Z.pos (digits2_pos p) <= 2 ^ k) by (apply Z.pow_le_mono_r; lia).
  lia.
Qed.

(** The float a word of 32 bits stands for is a float of 32 bits. *)
Lemma frombits_valid (u : Z) : valid_binary 24 128 (math.Float32frombits u) = true.
Proof.
  unfold math.Float32frombits.
  destruct (fields_range u) as [He Hf].
  set (e := Z.land (Z.shiftr u 23) 255) in *.
  set (f := Z.land u (2 ^ 23 - 1)) in *.
  destruct (Z.eqb_spec e 0) as [He0 | He0].
  - destruct (Z.eqb_spec f 0) as [Hf0 | Hf0]; [reflexivity|].
    cbn [valid_binary]. unfold bounded, canonical_mantissa, fexp, emin.
    assert (Hd : Z.pos (digits2_pos (Z.to_pos f)) <= 23)
      by (apply digits2_below; [lia | rewrite Z2Pos.id; lia]).
    apply andb_true_iff. split; [apply Z.eqb_eq | apply Z.leb_le]; lia.
  - destruct (Z.eqb_spec e 255) as [He1 | He1].
    + destruct (f =? 0); reflexivity.
    + cbn [valid_binary]. unfold bounded, canonical_mantissa, fexp, emin.
      assert (Hd : Z.pos (digits2_pos (Z.to_pos (f + 2 ^ 23))) <= 24)
        by (apply digits2_below; [lia | rewrite Z2Pos.id; lia]).
      assert (Hd' : 23 < Z.pos (digits2_pos (Z.to_pos (f + 2 ^ 23))))
        by (apply digits2_above; [lia | rewrite Z2Pos.id; lia]).
      apply andb_true_iff. split; [apply Z.eqb_eq | apply Z.leb_le]; lia.
Qed.

Lemma frombits_round_trip (u : Z) :
  math.to_float32 (math.to_float64 (math.Float32frombits u)) = math.Float32frombits u.
Proof.
  pose proof (frombits_valid u) as H.
  destruct (math.Float32frombits u) as [s | s | | s m e]; try reflexivity.
  apply float32_round_trip. exact H.
Qed.

(** A field of four bytes read as a float and written again. *)
Lemma field_round_trip (a b c d : byte) :
  isNaNbits (binary.Uint32 [a; b; c; d]) = false ->
  binary.PutUint32
    (math.Float32bits
       (math.to_float32 (math.to_float64 (math.Float32frombits (binary.Uint32 [a; b; c; d])))))
  = [a; b; c; d].
Proof.
  intros H. rewrite frombits_round_trip.
  rewrite Float32bits_frombits by (apply Uint32_range || exact H).
  apply PutUint32_Uint32.
Qed.

(** X25: a vertex record decoded and encoded again is the same bytes, when
    none of its nine floats is a NaN: the float of 32 bits a field stands
    for goes into the mesh as a float of 64 bits and comes back from it
    unchanged, and so do the four bytes of the colour. *)
Theorem X25_vertex_record_round_trip (hasColor : bool) (rec : bytes) :
  length rec = recordSize hasColor ->
  noNaN rec = true ->
  vertexRecord hasColor (decodeVertex hasColor rec) = rec.
Proof.
  intros H Hn.
  destruct hasColor;
    [change (recordSize true) with 40%nat in H | change (recordSize false) with 36%nat in H];
    explode rec H;
    unfold noNaN, floatFields in Hn;
    cbn [forallb map seq slice skipn firstn Nat.mul Nat.add Nat.sub] in Hn;
    repeat (apply andb_true_iff in Hn; let H' := fresh "Hf" in destruct Hn as [H' Hn];
            apply negb_true_iff in H');
    unfold vertexRecord, decodeVertex, vec3Record, vec;
    cbn [Position Normal Texture Color slice skipn firstn Nat.sub color4 colorBytes nth];
    rewrite !field_round_trip by assumption;
    reflexivity.
Qed.

(** X25 at work on the record of a vertex with a colour. *)
Lemma X25_witness :
  vertexRecord true (decodeVertex true (vertexRecord true sampleVertex))
  = vertexRecord true sampleVertex.
Proof.
  apply (X25_vertex_record_round_trip true (vertexRecord true sampleVertex)).
  - reflexivity.
  - vm_compute. reflexivity.
Defined.

(** ** The scaling of version 1.00 *)

Lemma mul_2_52 (m : positive) : (m * 4503599627370496)%positive = Pos.iter xO m 52.
Proof. rewrite Pos.mul_comm. reflexivity. Qed.

(** Doubling and halving a float of 64 bits gives it back, when the double
    is finite. *)
Lemma scale_round_trip (p : math.float64) :
  valid_binary 53 1024 p = true -> doubles p = true ->
  math.mul (math.mul p math.two) math.half = p.
Proof.
  intros Hv Hd. destruct p as [s | s | | s m e]; try (destruct s; reflexivity); [reflexivity|].
  cbn [valid_binary doubles] in Hv, Hd.
  unfold bounded, canonical_mantissa in Hv.
  apply andb_true_iff in Hv. destruct Hv as [Hc He].
  apply Z.eqb_eq in Hc. apply Z.leb_le in He. apply Z.ltb_lt in Hd.
  unfold fexp, emin in Hc.
  unfold math.mul.
  change math.two with (S754_finite false 4503599627370496 (-51)).
  change math.half with (S754_finite false 4503599627370496 (-53)).
  cbn [SFmul]. rewrite xorb_false_r, mul_2_52.
  destruct (Z.eq_dec (Z.pos (digits2_pos m)) 53) as [Hn | Hs].
  - (* a normal number *)
    rewrite (round_aux_shift 53 1024 s m 52 (e + -51));
      [| rewrite digits2_xO, Pos2Z.inj_add; unfold fexp, emin; lia
       | unfold fexp, emin; lia | lia].
    cbn [SFmul]. rewrite xorb_false_r, mul_2_52.
    rewrite (round_aux_shift 53 1024 s m 52 (e + -51 + 52 + -53));
      [| rewrite digits2_xO, Pos2Z.inj_add; unfold fexp, emin; lia
       | unfold fexp, emin; lia | lia].
    f_equal. lia.
  - (* a subnormal number *)
    assert (He' : e = -1074) by lia.
    assert (Hm : Z.pos (digits2_pos m) <= 52) by lia. subst e.
    change (Pos.iter xO m 52) with (Pos.iter xO (xO m) 51).
    rewrite (round_aux_shift 53 1024 s (xO m) 51 (-1074 + -51));
      [| rewrite digits2_xO, Pos2Z.inj_add; cbn [digits2_pos];
         rewrite Pos2Z.inj_succ; unfold fexp, emin; lia
       | cbn [digits2_pos]; rewrite Pos2Z.inj_succ; unfold fexp, emin; lia | lia].
    cbn [SFmul]. rewrite xorb_false_r, mul_2_52.
    change (Pos.iter xO (xO m) 52) with (Pos.iter xO m 53).
    rewrite (round_aux_shift 53 1024 s m 53 (-1074 + -51 + 51 + -53));
      [| rewrite digits2_xO, Pos2Z.inj_add; unfold fexp, emin; lia
       | unfold fexp, emin; lia | lia].
    reflexivity.
Qed.

(** X26: the two scalings of version 1.00 undo each other without any
    rounding.  The encoder doubles a position before it writes it and the
    decoder halves the position it has scanned; the position the decoder
    makes of the doubled one is the position the encoder started from,
    whenever the double is no infinity. *)
Theorem X26_scalings_of_version_1_00 (p0 p1 p2 : math.float64) (n t : vec3) :
  scalable p0 = true -> scalable p1 = true -> scalable p2 = true ->
  Position (corner Version1_00
              ((math.mul p0 math.two, math.mul p1 math.two, math.mul p2 math.two), n, t))
  = (p0, p1, p2).
Proof.
  unfold scalable. intros H0 H1 H2.
  apply andb_true_iff in H0, H1, H2.
  destruct H0 as [V0 D0], H1 as [V1 D1], H2 as [V2 D2].
  destruct t as [[t0 t1] t2]. unfold corner.
  change (Version1_00 =? Version1_00) with true. cbn [Position].
  now rewrite !scale_round_trip.
Qed.

(** X26 at work on the position of the sample vertex. *)
Lemma X26_witness :
  Position (corner Version1_00
              ((math.mul math.one math.two, math.mul math.two math.two,
                math.mul math.half math.two), zeroVec, zeroVec))
  = (math.one, math.two, math.half).
Proof.
  apply (X26_scalings_of_version_1_00 math.one math.two math.half zeroVec zeroVec);
    reflexivity.
Defined.

(** ** What the text format keeps of a mesh *)

Lemma takeWhile_In {A : Type} (f : A -> bool) (l : list A) (x : A) :
  In x (takeWhile f l) -> In x l /\ f x = true.
Proof.
  induction l as [|y l IH]; [intros []|]. cbn [takeWhile].
  destruct (f y) eqn:E; [|intros []].
  intros [-> | H]; [split; [left; reflexivity | exact E]|].
  destruct (IH H) as [Hin Hf]. split; [right; exact Hin | exact Hf].
Qed.

Lemma takeWhile_ext {A : Type} (f g : A -> bool) (l : list A) :
  (forall x, f x = g x) -> takeWhile f l = takeWhile g l.
Proof.
  intros H. induction l as [|y l IH]; [reflexivity|].
  cbn [takeWhile]. rewrite <- H, IH. reflexivity.
Qed.

Lemma forallb_ext {A : Type} (f g : A -> bool) (l : list A) :
  (forall x, f x = g x) -> forallb f l = forallb g l.
Proof.
  intros H. induction l as [|y l IH]; [reflexivity|].
  cbn [forallb]. rewrite <- H, IH. reflexivity.
Qed.

(** X27: what the text encoder writes depends on the version, on the faces
    and, of the vertices, on how many there are and on the position, the
    normal and the texture of those a face names.  The colour flag, the
    colours and the vertices that no face names leave no trace: two meshes
    that differ in these only are encoded alike, on every writer. *)
Theorem X27_text_encoding_keeps_shapes_only (m1 m2 : Mesh) (w : io.Writer) :
  textb (Version_ m1) = true ->
  Version_ m2 = Version_ m1 ->
  Faces m2 = Faces m1 ->
  len (Vertices m2) = len (Vertices m1) ->
  (forall i, In i (cornerIndices m1) -> inRange m1 i = true ->
             sameShape (nth (Z.to_nat i) (Vertices m1) zeroVertex)
                       (nth (Z.to_nat i) (Vertices m2) zeroVertex)) ->
  WriteTo m2 w = WriteTo m1 w.
Proof.
  intros Ht Hv Hf Hl Hs.
  assert (Hr : forall i, inRange m2 i = inRange m1 i)
    by (intros i; unfold inRange; now rewrite Hl).
  assert (Hc : cornerIndices m2 = cornerIndices m1)
    by (unfold cornerIndices; now rewrite Hf).
  assert (Hch : chunks m2 = chunks m1).
  { unfold chunks. rewrite Hv, Ht. f_equal.
    unfold countLine. rewrite Hf. f_equal.
    rewrite Hc, (takeWhile_ext _ _ _ Hr).
    apply map_ext_in. intros i Hi.
    apply takeWhile_In in Hi. destruct Hi as [Hin Hi].
    destruct (Hs i Hin Hi) as (Hp & Hn & Hx).
    unfold cornerText. rewrite Hv, <- Hp, <- Hn, <- Hx. reflexivity. }
  rewrite !WriteTo_chunks. rewrite Hch, Hv.
  unfold verdict. rewrite Hv, Ht, Hc, (forallb_ext _ _ _ Hr). reflexivity.
Qed.

(** X27 at work on two meshes of one face: the second has a colour flag,
    another colour, and a vertex more that no face names. *)
Lemma X27_witness :
  WriteTo (mkMesh Version1_01 true
             [{| Position := Position sampleVertex; Normal := Normal sampleVertex;
                 Texture := Texture sampleVertex; Color := (xff, xff, xff, xff) |};
              zeroVertex]
             [(0, 0, 0)]) (sink [])
  = WriteTo (mkMesh Version1_01 false [sampleVertex; sampleVertex] [(0, 0, 0)]) (sink []).
Proof.
  apply (X27_text_encoding_keeps_shapes_only
           (mkMesh Version1_01 false [sampleVertex; sampleVertex] [(0, 0, 0)])
           (mkMesh Version1_01 true
              [{| Position := Position sampleVertex; Normal := Normal sampleVertex;
                  Texture := Texture sampleVertex; Color := (xff, xff, xff, xff) |};
               zeroVertex]
              [(0, 0, 0)]) (sink [])).
  - reflexivity.
  - reflexivity.
  - reflexivity.
  - reflexivity.
  - intros i Hi _. cbn in Hi.
    destruct Hi as [<- | [<- | [<- | []]]]; repeat split.
Defined.

(** ** The colours of the text decoder *)

Lemma scanCorners_corner (F : fmt.Scanner) (version : Version) (k : nat)
    (buf : bufio.Reader) (v : MeshVertex) :
  In v (scanCorners F version k buf) -> exists s, v = corner version s.
Proof.
  revert buf. induction k as [|k IH]; intros buf; [intros []|].
  cbn [scanCorners]. destruct (F buf) as [[buf' s] [e|]]; [intros []|].
  intros [<- | H]; [now exists s | exact (IH _ H)].
Qed.

Lemma firstOccurrences_In (kept cs : list MeshVertex) (v : MeshVertex) :
  In v (firstOccurrences kept cs) -> In v kept \/ In v cs.
Proof.
  revert kept. induction cs as [|c cs IH]; intros kept; [intros H; left; exact H|].
  cbn [firstOccurrences]. destruct (occurs kept c).
  - intros H. destruct (IH _ H) as [Hk | Hc]; [left; exact Hk | right; right; exact Hc].
  - intros H. destruct (IH _ H) as [Hk | Hc]; [|right; right; exact Hc].
    apply in_app_or in Hk. destruct Hk as [Hk | [<- | []]];
      [left; exact Hk | right; left; reflexivity].
Qed.

Lemma cornerStream_corner (F : fmt.Scanner) (r : io.Reader) (k : nat) (x : MeshVertex) :
  In x (cornerStream F r k) -> exists version s, x = corner version s.
Proof.
  unfold cornerStream. destruct (sniff r) as [version|]; [|intros []].
  intros H. exists version. exact (scanCorners_corner _ _ _ _ _ H).
Qed.

Lemma corner_Color (version : Version) (s : fmt.Scanned) :
  Color (corner version s) = (x00, x00, x00, x00).
Proof. destruct s as [[[[p0 p1] p2] nrm] [[t0 t1] t2]]. reflexivity. Qed.

Lemma firstOccurrences_Forall (P : MeshVertex -> Prop) (kept cs : list MeshVertex) :
  Forall P kept -> Forall P cs -> Forall P (firstOccurrences kept cs).
Proof.
  intros Hk Hc. apply Forall_forall. intros x Hx.
  destruct (firstOccurrences_In _ _ _ Hx) as [H | H];
    [exact (proj1 (Forall_forall _ _) Hk x H) | exact (proj1 (Forall_forall _ _) Hc x H)].
Qed.

(** X28: the vertices the text decoder yields carry no colour: after a
    decoding without error the four bytes of the colour of every vertex are
    zero, whatever the mesh held before. *)
Theorem X28_text_decode_yields_no_colour (Fscanf : fmt.Scanner) (copy : Copy)
    (m0 m : Mesh) (r : io.Reader) (v : Version) (n : Z) :
  sniff r = Some v ->
  textb v = true ->
  ReadFrom Fscanf copy m0 r = (m, n, None) ->
  Forall (fun x => Color x = (x00, x00, x00, x00)) (Vertices m).
Proof.
  intros Hs Ht H.
  assert (Hv : v = Version1_00 \/ v = Version1_01).
  { unfold textb in Ht. apply orb_true_iff in Ht.
    destruct Ht as [Ht | Ht]; apply Z.eqb_eq in Ht; auto. }
  destruct (ReadFrom_text_success Fscanf copy m0 m r v n Hs Hv H)
    as (verts & Hwf & Hlen & Hint & Hvs & _).
  destruct (internAll_spec _ _ _ _ wfMap_nil Hint) as (_ & _ & _ & _ & Hfo & _).
  rewrite Hvs, Hfo. apply firstOccurrences_Forall; [constructor|].
  apply Forall_forall. intros x Hx.
  destruct (cornerStream_corner _ _ _ _ Hx) as (version & s & ->).
  apply corner_Color.
Qed.

(** X28 at work on a text input of two faces. *)
Lemma X28_witness :
  Forall (fun x => Color x = (x00, x00, x00, x00))
         (Vertices (fst (fst (ReadFrom fmt.Fscanf MeshGo usedMesh quadInput)))).
Proof.
  apply (X28_text_decode_yields_no_colour fmt.Fscanf MeshGo usedMesh
           (fst (fst (ReadFrom fmt.Fscanf MeshGo usedMesh quadInput))) quadInput Version1_01
           (snd (fst (ReadFrom fmt.Fscanf MeshGo usedMesh quadInput)))).
  - vm_compute. reflexivity.
  - reflexivity.
  - vm_compute. reflexivity.
Defined.
